(** * cli-manager-mcp: terminal sessions, command completion, project start-up

    A shallow embedding of [src/index.ts]: the terminal session and its
    rolling output buffer, the completion waits of [executeCommand] and
    [waitForOutput], the session registry, and the project handlers of
    [handleTool] ([setup_project], [start_project], [stop_project]).

    Modelling conventions.
    - A session identifier ([uuidv4()]) is a natural number drawn from a
      counter: identifiers are never reused.
    - [Date.now()] and [new Date()] are integers (milliseconds).
    - [RegExp.test] is a boolean function on strings.
    - The [Map] of terminals is an association list in insertion order,
      which is the order JavaScript iterates it in.
    - A promise is [Pending], [Resolved] or [Rejected]; settling a settled
      promise does nothing.
    - An [await] of a timer inside a handler advances the clock; the handler
      is otherwise run to completion.
    - [pty.spawn] and [process.write] do not throw. *)

From Stdlib Require Import ZArith String List Lia.
From stdpp Require Import base decidable option list gmap sets strings pretty.

Open Scope string_scope.
Open Scope Z_scope.
Open Scope nat_scope.
Open Scope list_scope.

(** ** Types & Interfaces *)

Module TerminalSession.
Record t := mk {
  id : nat;
  name : string;
  output : list string;
  cwd : string;
  createdAt : Z;
  commandHistory : list string;
  outputReady : bool;
  lastCommand : string;
  commandStartTime : Z
}.

Definition set_output (o : list string) (s : t) : t :=
  mk (id s) (name s) o (cwd s) (createdAt s) (commandHistory s)
     (outputReady s) (lastCommand s) (commandStartTime s).

Definition set_outputReady (b : bool) (s : t) : t :=
  mk (id s) (name s) (output s) (cwd s) (createdAt s) (commandHistory s)
     b (lastCommand s) (commandStartTime s).

(** The four assignments at the head of [executeCommand]. *)
Definition issue (command : string) (now : Z) (s : t) : t :=
  mk (id s) (name s) (output s) (cwd s) (createdAt s)
     (commandHistory s ++ [command]) false command now.
End TerminalSession.

Abbreviation TerminalSession := TerminalSession.t.

Module ProjectService.
Record t := mk {
  name : string;
  path : string;
  startCommand : option string;
  buildCommand : option string;
  testCommand : option string;
  envVars : option (list (string * string));
  dependsOn : option (list string)
}.
End ProjectService.

Abbreviation ProjectService := ProjectService.t.

Module ProjectSetupStep.
Record t := mk {
  name : string;
  command : string;
  description : option string;
  workingDir : option string;
  allowFailure : option bool
}.
End ProjectSetupStep.

Abbreviation ProjectSetupStep := ProjectSetupStep.t.

Module ProjectConfig.
Record t := mk {
  id : string;
  name : string;
  rootPath : string;
  architecture_type : string;          (* architecture.type *)
  services : list ProjectService;      (* architecture.services *)
  setupSteps : list ProjectSetupStep;
  commonCommands : list (string * string)
}.
End ProjectConfig.

Abbreviation ProjectConfig := ProjectConfig.t.

(** JavaScript truthiness of an optional string: [undefined] and the empty
    string are both falsy. *)
Definition truthy (o : option string) : bool :=
  match o with
  | Some s => negb (bool_decide (s = ""))
  | None => false
  end.

(** [s || d] on strings. *)
Definition or_else (s d : string) : string :=
  if bool_decide (s = "") then d else s.

(** ** Terminal output buffer *)

Definition MAX_OUTPUT : nat := 1000.

(** The [onData] callback registered by [createTerminal]:
    [session.output.push(data); if (session.output.length > 1000)
    session.output.shift();] *)
Definition onData (data : string) (session : TerminalSession) : TerminalSession :=
  let pushed := TerminalSession.output session ++ [data] in
  TerminalSession.set_output
    (if bool_decide (MAX_OUTPUT < length pushed) then tail pushed else pushed)
    session.

(** A session as [createTerminal] builds it. *)
Definition new_session (id : nat) (name cwd : string) (now : Z) : TerminalSession :=
  TerminalSession.mk id name [] cwd now [] false "" 0%Z.

(** The session after a sequence of output events, oldest first. *)
Definition feed (chunks : list string) (session : TerminalSession) : TerminalSession :=
  foldl (fun s d => onData d s) session chunks.

(** ** Insertion-ordered maps ([Map]) *)

Section JSMap.
Context {K V : Type} `{EqDecision K}.

Fixpoint map_get (k : K) (m : list (K * V)) : option V :=
  match m with
  | [] => None
  | (k', v) :: m' => if bool_decide (k' = k) then Some v else map_get k m'
  end.

(** [Map.set]: an existing key keeps its position, a new one goes last. *)
Fixpoint map_set (k : K) (v : V) (m : list (K * V)) : list (K * V) :=
  match m with
  | [] => [(k, v)]
  | (k', v') :: m' =>
      if bool_decide (k' = k) then (k, v) :: m' else (k', v') :: map_set k v m'
  end.

Fixpoint map_delete (k : K) (m : list (K * V)) : list (K * V) :=
  match m with
  | [] => []
  | (k', v) :: m' =>
      if bool_decide (k' = k) then map_delete k m' else (k', v) :: map_delete k m'
  end.
End JSMap.

Abbreviation registry := (list (nat * TerminalSession)).

(** ** Errors thrown by the handlers and waits *)

Inductive error :=
| TerminalNotFound (terminalId : nat)
| ProjectNotFound (projectId : string)
| PatternTimeout                       (* "Timeout waiting for pattern: ..." *)
| TypeError                            (* property read on [undefined] *)
| CommandNotFound (commandKey : string)
| ServiceNotFound (serviceName : string)
| NoCommandDefined (serviceName : string)
| ValidationError
| InvalidConfiguration.

(** ** Command completion *)

Inductive promise :=
| Pending
| Resolved (value : string)
| Rejected (reason : error).

Definition resolve (v : string) (p : promise) : promise :=
  match p with Pending => Resolved v | _ => p end.

Definition reject (e : error) (p : promise) : promise :=
  match p with Pending => Rejected e | _ => p end.

(** What the event loop delivers to a session and to a wait on it.  Every
    event carries the time at which it is delivered. *)
Inductive event :=
| Data (at_ms : Z) (chunk : string)   (* the pty emitted a chunk *)
| Tick (now : Z)                      (* an interval callback runs; [now] is [Date.now()] *)
| Exit (at_ms : Z).                   (* the pty process exited *)

(** The closure state of one wait: the captured session object, the length
    of its buffer when the wait began, the interval timer, the promise and
    the two locals of the stability loop. *)
Record wait := mk_wait {
  terminal : TerminalSession;
  beforeLength : nat;
  startTime : Z;
  interval : bool;            (* the timer is armed: [clearInterval] not yet called *)
  settled : promise;
  lastOutput : string;
  stableCount : nat
}.

Definition set_terminal (t : TerminalSession) (w : wait) : wait :=
  mk_wait t (beforeLength w) (startTime w) (interval w) (settled w)
          (lastOutput w) (stableCount w).

Definition clearInterval (w : wait) : wait :=
  mk_wait (terminal w) (beforeLength w) (startTime w) false (settled w)
          (lastOutput w) (stableCount w).

Definition set_settled (p : promise) (w : wait) : wait :=
  mk_wait (terminal w) (beforeLength w) (startTime w) (interval w) p
          (lastOutput w) (stableCount w).

Definition set_stability (last : string) (count : nat) (w : wait) : wait :=
  mk_wait (terminal w) (beforeLength w) (startTime w) (interval w) (settled w)
          last count.

(** [terminal.output.slice(beforeLength).join("")] *)
Definition getNewOutput (w : wait) : string :=
  String.concat "" (drop (beforeLength w) (TerminalSession.output (terminal w))).

(** [clearInterval(..); terminal.outputReady = true; resolve(v)] *)
Definition complete (v : string) (w : wait) : wait :=
  set_settled (resolve v (settled w))
    (set_terminal (TerminalSession.set_outputReady true (terminal w))
       (clearInterval w)).

Definition TICK_MS : Z := 100.
Definition DEFAULT_TIMEOUT : Z := 10000.
Definition STABLE_TICKS : nat := 3.

(** The state in which a wait starts: timer armed, promise pending,
    [lastOutput = ""], [stableCount = 0]. *)
Definition arm (terminal : TerminalSession) (now : Z) : wait :=
  mk_wait terminal (length (TerminalSession.output terminal)) now true Pending "" 0.

(** [executeCommand] up to the point where it arms a timer.  The write of
    [command + "\r"] to the pty is recorded by the caller (see
    [execute_command_sync]). *)
Definition executeCommand (terminals : registry) (terminalId : nat)
    (command : string) (waitForOutput : bool) (now : Z) : promise + wait :=
  match map_get terminalId terminals with
  | None => inl (Rejected (TerminalNotFound terminalId))
  | Some terminal =>
      let terminal := TerminalSession.issue command now terminal in
      if waitForOutput
      then inr (arm terminal now)
      else inr (set_settled (Resolved "Command sent (not waiting for output)")
                  (clearInterval (arm terminal now)))
  end.

(** The interval callback of the pattern policy. *)
Definition pattern_tick (pattern : string -> bool) (timeout now : Z) (w : wait) : wait :=
  let output := getNewOutput w in
  if pattern output || bool_decide (timeout < now - startTime w)%Z
  then complete (or_else output "Command executed (no output)") w
  else w.

(** The interval callback of the stability policy. *)
Definition stability_tick (timeout now : Z) (w : wait) : wait :=
  let currentOutput := getNewOutput w in
  let w1 :=
    if bool_decide (currentOutput = lastOutput w)
    then
      let w' := set_stability (lastOutput w) (S (stableCount w)) w in
      if bool_decide (STABLE_TICKS <= stableCount w')
      then complete (or_else currentOutput "Command executed (no output)") w'
      else w'
    else set_stability currentOutput 0 w in
  if bool_decide (timeout < now - TerminalSession.commandStartTime (terminal w1))%Z
  then complete (or_else (lastOutput w1) "Command executed (timeout - partial output)") w1
  else w1.

Inductive policy :=
| PatternPolicy (pattern : string -> bool)
| StabilityPolicy.

(** One event delivered to a session on which [executeCommand] waits.  A
    cleared interval runs no more callbacks; the [onExit] handler
    registered by [executeCommand] is [clearInterval] alone. *)
Definition executeCommand_event (p : policy) (timeout : Z) (ev : event) (w : wait) : wait :=
  match ev with
  | Data _ chunk => set_terminal (onData chunk (terminal w)) w
  | Tick now =>
      if interval w then
        match p with
        | PatternPolicy pattern => pattern_tick pattern timeout now w
        | StabilityPolicy => stability_tick timeout now w
        end
      else w
  | Exit _ => clearInterval w
  end.

(** [waitForOutput]: an [async] function, so its [throw] is a rejection. *)
Definition waitForOutput (terminals : registry) (terminalId : nat) (now : Z)
    : promise + wait :=
  match map_get terminalId terminals with
  | None => inl (Rejected (TerminalNotFound terminalId))
  | Some terminal =>
      inr (arm terminal now)
  end.

Definition waitForOutput_tick (pattern : string -> bool) (timeout now : Z) (w : wait) : wait :=
  let output := getNewOutput w in
  if pattern output
  then set_settled (resolve output (settled w)) (clearInterval w)
  else if bool_decide (timeout < now - startTime w)%Z
  then set_settled (reject PatternTimeout (settled w)) (clearInterval w)
  else w.

(** [waitForOutput] registers no exit handler. *)
Definition waitForOutput_event (pattern : string -> bool) (timeout : Z)
    (ev : event) (w : wait) : wait :=
  match ev with
  | Data _ chunk => set_terminal (onData chunk (terminal w)) w
  | Tick now => if interval w then waitForOutput_tick pattern timeout now w else w
  | Exit _ => w
  end.

Definition run_events (step : event -> wait -> wait) (evs : list event) (w : wait) : wait :=
  foldl (fun w ev => step ev w) w evs.

(** *** Timing of a trace

    [on_schedule t next evs]: starting at time [t] with the next interval
    callback due at [next], callbacks run exactly every [TICK_MS] and every
    other event is delivered between the callbacks around it. *)
Fixpoint on_schedule (t next : Z) (evs : list event) : bool :=
  match evs with
  | [] => true
  | Tick now :: evs' => bool_decide (now = next) && on_schedule now (next + TICK_MS) evs'
  | Data a _ :: evs' => bool_decide (t <= a <= next)%Z && on_schedule a next evs'
  | Exit a :: evs' => bool_decide (t <= a <= next)%Z && on_schedule a next evs'
  end.

Definition is_exit (ev : event) : bool :=
  match ev with Exit _ => true | _ => false end.

Definition is_data (ev : event) : bool :=
  match ev with Data _ _ => true | _ => false end.

Definition no_exit (evs : list event) : bool := forallb (fun ev => negb (is_exit ev)) evs.

Fixpoint count_data (evs : list event) : nat :=
  match evs with
  | [] => 0
  | Data _ _ :: evs' => S (count_data evs')
  | _ :: evs' => count_data evs'
  end.

(** No interval callback of the trace runs later than [timeout] after [start]. *)
Definition within_timeout (start timeout : Z) (evs : list event) : bool :=
  forallb (fun ev => match ev with
                     | Tick now => bool_decide (now - start <= timeout)%Z
                     | _ => true
                     end) evs.

(** The time of the last non-empty chunk delivered so far. *)
Definition last_byte_step (seen : option Z) (ev : event) : option Z :=
  match ev with
  | Data a chunk => if bool_decide (chunk = "") then seen else Some a
  | _ => seen
  end.

Definition last_byte (evs : list event) : option Z := foldl last_byte_step None evs.

(** The new output present at each interval tick of a trace. *)
Fixpoint samples (step : event -> wait -> wait) (evs : list event) (w : wait) : list string :=
  match evs with
  | [] => []
  | ev :: evs' =>
      match ev with
      | Tick _ => getNewOutput w :: samples step evs' (step ev w)
      | _ => samples step evs' (step ev w)
      end
  end.

(** Some sample is byte-identical to the three samples before it. *)
Fixpoint four_identical (ss : list string) : bool :=
  match ss with
  | a :: ss' =>
      match ss' with
      | b :: c :: d :: _ =>
          (bool_decide (a = b) && bool_decide (b = c) && bool_decide (c = d))
          || four_identical ss'
      | _ => false
      end
  | [] => false
  end.

(** Three consecutive samples are byte-identical. *)
Fixpoint three_identical (ss : list string) : bool :=
  match ss with
  | a :: ss' =>
      match ss' with
      | b :: c :: _ => (bool_decide (a = b) && bool_decide (b = c)) || three_identical ss'
      | _ => false
      end
  | [] => false
  end.

(** *** Invariants of a stability wait that is still polling

    [start] is the time the command was issued. *)
Definition polling (start : Z) (w : wait) : Prop :=
  interval w = true /\ settled w = Pending /\ stableCount w < STABLE_TICKS
  /\ TerminalSession.commandStartTime (terminal w) = start.

(** At time [t], with the next callback due at [next] and the last
    non-empty chunk seen at [seen]: the recorded sample is a prefix of the
    new output, and when nothing has arrived since it was recorded, the
    last byte is at least [stableCount + 1] periods older than [next]. *)
Definition quiet (start : Z) (w : wait) (t next : Z) (seen : option Z) : Prop :=
  polling start w
  /\ beforeLength w <= length (TerminalSession.output (terminal w))
  /\ (t <= next)%Z
  /\ (start + TICK_MS * Z.of_nat (S (stableCount w)) <= next)%Z
  /\ (forall a, seen = Some a -> (a <= t)%Z)
  /\ exists x, getNewOutput w = lastOutput w +:+ x
       /\ (x = "" -> forall a, seen = Some a ->
             (a + TICK_MS * Z.of_nat (S (stableCount w)) <= next)%Z).

(** ** Global state and the pseudo-terminal processes *)

(** A pty process runs until it is killed or exits by itself; the exit
    event of a killed process follows later. *)
Inductive proc_status := Running | Killed | Exited.

#[global] Instance proc_status_eq_dec : EqDecision proc_status.
Proof. solve_decision. Defined.

(** What the server does to the outside world, in order. *)
Inductive effect :=
| Spawn (id : nat) (cwd : string)         (* [pty.spawn(shell, [], {cwd, ...})] *)
| PtyWrite (id : nat) (text : string)     (* [process.write(text)] *)
| PtyKill (id : nat).                     (* [process.kill()] *)

Record world := mk_world {
  terminals : registry;                          (* [const terminals = new Map()] *)
  projects : list (string * ProjectConfig);      (* [const projects = new Map()] *)
  procs : gmap nat proc_status;
  effects : list effect;
  uuid : nat;                                    (* the next identifier [uuidv4()] returns *)
  clock : Z
}.

Definition init_world : world := mk_world [] [] ∅ [] 0 0%Z.

Definition set_terminals (r : registry) (w : world) : world :=
  mk_world r (projects w) (procs w) (effects w) (uuid w) (clock w).

Definition set_projects (p : list (string * ProjectConfig)) (w : world) : world :=
  mk_world (terminals w) p (procs w) (effects w) (uuid w) (clock w).

Definition pty_write (id : nat) (text : string) (w : world) : world :=
  mk_world (terminals w) (projects w) (procs w) (effects w ++ [PtyWrite id text])
           (uuid w) (clock w).

Definition pty_kill (id : nat) (w : world) : world :=
  mk_world (terminals w) (projects w)
           (match procs w !! id with
            | Some Running => <[id := Killed]> (procs w)
            | _ => procs w
            end)
           (effects w ++ [PtyKill id]) (uuid w) (clock w).

(** [process.kill(); terminals.delete(id)] *)
Definition kill_and_delete (id : nat) (w : world) : world :=
  let w1 := pty_kill id w in
  set_terminals (map_delete id (terminals w1)) w1.

(** [await new Promise(resolve => setTimeout(resolve, ms))] *)
Definition sleep (ms : Z) (w : world) : world :=
  mk_world (terminals w) (projects w) (procs w) (effects w) (uuid w) (clock w + ms)%Z.

Definition CR : string := String (Ascii.ascii_of_nat 13) EmptyString.
Definition LF : string := String (Ascii.ascii_of_nat 10) EmptyString.
Definition DQ : string := String (Ascii.ascii_of_nat 34) EmptyString.

(** [path.join(a, b)], without its normalisation of the result. *)
Definition path_join (a b : string) : string := a +:+ "/" +:+ b.

(** [createTerminal(name, cwd)]: spawn, build the session, register the
    [onData] and [onExit] callbacks (see [step_world]) and
    [terminals.set(id, session)]. *)
Definition createTerminal (name cwd : string) (w : world) : TerminalSession * world :=
  let id := uuid w in
  let session := new_session id name cwd (clock w) in
  (session,
   mk_world (map_set id session (terminals w)) (projects w)
            (<[id := Running]> (procs w))
            (effects w ++ [Spawn id cwd]) (S id) (clock w)).

(** The [onExit] callback of [createTerminal]: [terminals.delete(id)]. *)
Definition on_exit (id : nat) (w : world) : world :=
  match procs w !! id with
  | Some Running | Some Killed =>
      mk_world (map_delete id (terminals w)) (projects w)
               (<[id := Exited]> (procs w)) (effects w) (uuid w) (clock w)
  | _ => w
  end.

(** The [onData] callback of [createTerminal], on the registered session. *)
Definition on_data (id : nat) (chunk : string) (w : world) : world :=
  match map_get id (terminals w) with
  | Some session => set_terminals (map_set id (onData chunk session) (terminals w)) w
  | None => w
  end.

(** ** Tool handlers

    A handler returns the world it leaves behind and either the error it
    threw or the text of its reply: what it did before throwing stays
    done. *)

Definition reply : Type := error + string.

(** [validateInput(CreateTerminalSchema, args)] rejects an empty name; a
    missing [cwd] is [process.cwd()], written ["."] here. *)
Definition create_terminal (name : string) (cwd : option string) (w : world) : world * reply :=
  if bool_decide (name = "") then (w, inl ValidationError)
  else
    let (terminal, w1) := createTerminal name (default "." cwd) w in
    (w1, inr ("✓ Created terminal " +:+ DQ +:+ name +:+ DQ +:+ LF +:+ "  ID: "
              +:+ pretty (TerminalSession.id terminal) +:+ LF +:+ "  CWD: "
              +:+ TerminalSession.cwd terminal)).

Definition close_terminal (terminalId : nat) (w : world) : world * reply :=
  match map_get terminalId (terminals w) with
  | None => (w, inl (TerminalNotFound terminalId))
  | Some terminal =>
      (kill_and_delete terminalId w,
       inr ("✓ Closed terminal " +:+ DQ +:+ TerminalSession.name terminal +:+ DQ))
  end.

Definition send_input (terminalId : nat) (input : string) (w : world) : world * reply :=
  match map_get terminalId (terminals w) with
  | None => (w, inl (TerminalNotFound terminalId))
  | Some terminal => (pty_write terminalId input w, inr "✓ Sent input to terminal")
  end.

(** The synchronous head of [executeCommand] as the world sees it: the
    session object is updated in place and the command is written. *)
Definition execute_command_sync (terminalId : nat) (command : string) (w : world) : world :=
  match map_get terminalId (terminals w) with
  | None => w
  | Some terminal =>
      pty_write terminalId (command +:+ CR)
        (set_terminals
           (map_set terminalId (TerminalSession.issue command (clock w) terminal)
              (terminals w)) w)
  end.

(** [loadProjectConfig] after the file has been read and parsed. *)
Definition load_project (config : ProjectConfig) (w : world) : world * reply :=
  if bool_decide (ProjectConfig.id config = "")
     || bool_decide (ProjectConfig.name config = "")
     || bool_decide (ProjectConfig.rootPath config = "")
  then (w, inl InvalidConfiguration)
  else (set_projects (map_set (ProjectConfig.id config) config (projects w)) w,
        inr ("✓ Loaded project " +:+ DQ +:+ ProjectConfig.name config +:+ DQ +:+ " ("
             +:+ ProjectConfig.id config +:+ ")" +:+ LF
             +:+ "  Architecture: " +:+ ProjectConfig.architecture_type config +:+ LF
             +:+ "  Services: " +:+ pretty (length (ProjectConfig.services config)) +:+ LF
             +:+ "  Setup Steps: " +:+ pretty (length (ProjectConfig.setupSteps config)))).

(** *** setup_project *)

(** [array[i]] for an integer [i]: [undefined] out of range. *)
Definition js_index {A} (l : list A) (i : Z) : option A :=
  if bool_decide (0 <= i)%Z then l !! Z.to_nat i else None.

(** The [for] loop over [stepsToRun]; [i] is the loop index.  Reading
    [step.name] of an [undefined] step throws before the [try]; inside the
    [try] only [process.write] could throw, so its [catch] is not reached. *)
Fixpoint run_setup_steps (project : ProjectConfig) (terminal : TerminalSession)
    (stepIndex : option Z) (i : nat) (stepsToRun : list (option ProjectSetupStep))
    (results : list string) (w : world) : world * (error + list string) :=
  match stepsToRun with
  | [] => (w, inr results)
  | None :: _ => (w, inl TypeError)
  | Some step :: rest =>
      let stepNum := match stepIndex with
                     | Some k => (k + 1)%Z
                     | None => (Z.of_nat i + 1)%Z
                     end in
      let total := match stepIndex with
                   | Some _ => 1
                   | None => length (ProjectConfig.setupSteps project)
                   end in
      let results := results ++ ["[" +:+ pretty stepNum +:+ "/" +:+ pretty total +:+ "] "
                                 +:+ ProjectSetupStep.name step +:+ "..."] in
      let cwd := match ProjectSetupStep.workingDir step with
                 | Some d => if bool_decide (d = "") then ProjectConfig.rootPath project
                             else path_join (ProjectConfig.rootPath project) d
                 | None => ProjectConfig.rootPath project
                 end in
      let w1 := pty_write (TerminalSession.id terminal)
                  ("cd " +:+ DQ +:+ cwd +:+ DQ +:+ " && "
                   +:+ ProjectSetupStep.command step +:+ CR) w in
      let w2 := sleep 2000 w1 in
      let results := results ++ ["  ✓ " +:+ ProjectSetupStep.name step +:+ " completed"] in
      run_setup_steps project terminal stepIndex (S i) rest results w2
  end.

Definition setup_project (projectId : string) (stepIndex : option Z) (w : world) : world * reply :=
  match map_get projectId (projects w) with
  | None => (w, inl (ProjectNotFound projectId))
  | Some project =>
      let (terminal, w1) :=
        createTerminal (ProjectConfig.name project +:+ "-setup")
          (ProjectConfig.rootPath project) w in
      let stepsToRun :=
        match stepIndex with
        | Some k => [js_index (ProjectConfig.setupSteps project) k]
        | None => map Some (ProjectConfig.setupSteps project)
        end in
      match run_setup_steps project terminal stepIndex 0 stepsToRun [] w1 with
      | (w2, inl e) => (w2, inl e)
      | (w2, inr results) =>
          (w2, inr ("Setup for " +:+ DQ +:+ ProjectConfig.name project +:+ DQ +:+ ":"
                    +:+ LF +:+ LF +:+ String.concat LF results +:+ LF +:+ LF
                    +:+ "Setup terminal ID: " +:+ pretty (TerminalSession.id terminal)))
      end
  end.

(** *** start_project *)

Record start_state := mk_start {
  st_world : world;
  started : gset string;                   (* [const started = new Set<string>()] *)
  results : list string;
  createdTerminals : list TerminalSession
}.

Section StartProject.

Variable project : ProjectConfig.

(** [project.architecture.services.find(s => s.name === dep)] *)
Definition find_service (dep : string) : option ProjectService :=
  List.find (fun s => bool_decide (ProjectService.name s = dep))
    (ProjectConfig.services project).

Definition session_name (service : ProjectService) : string :=
  ProjectConfig.name project +:+ "-" +:+ ProjectService.name service.

(** The body of [if (service.startCommand) { ... }]. *)
Definition launch (service : ProjectService) (startCommand : string)
    (st : start_state) : start_state :=
  let servicePath := path_join (ProjectConfig.rootPath project) (ProjectService.path service) in
  let (terminal, w1) := createTerminal (session_name service) servicePath (st_world st) in
  let id := TerminalSession.id terminal in
  let w2 := foldl (fun w kv => pty_write id ("export " +:+ kv.1 +:+ "=" +:+ DQ +:+ kv.2
                                             +:+ DQ +:+ CR) w)
              w1 (default [] (ProjectService.envVars service)) in
  let w3 := pty_write id (startCommand +:+ CR) w2 in
  mk_start (sleep 1000 w3)
           ({[ProjectService.name service]} ∪ started st)
           (results st ++ ["✓ Started " +:+ ProjectService.name service
                           +:+ " (terminal: " +:+ pretty id +:+ ")"])
           (createdTerminals st ++ [terminal]).

(** The loop over [service.dependsOn]; [recur] is [startService]. *)
Fixpoint start_dependencies (recur : ProjectService -> start_state -> option start_state)
    (deps : list string) (st : start_state) : option start_state :=
  match deps with
  | [] => Some st
  | dep :: deps' =>
      match find_service dep with
      | Some depService =>
          if bool_decide (dep ∈ started st)
          then start_dependencies recur deps' st
          else match recur depService st with
               | Some st' => start_dependencies recur deps' st'
               | None => None
               end
      | None => start_dependencies recur deps' st
      end
  end.

(** [startService]; the recursion has no cycle check, so the depth is
    bounded by [fuel] and [None] stands for a call that does not return. *)
Fixpoint startService (fuel : nat) (service : ProjectService) (st : start_state)
    : option start_state :=
  match fuel with
  | 0 => None
  | S fuel' =>
      if bool_decide (ProjectService.name service ∈ started st) then Some st
      else
        match
          match ProjectService.dependsOn service with
          | Some deps => start_dependencies (startService fuel') deps st
          | None => Some st
          end
        with
        | None => None
        | Some st1 =>
            match ProjectService.startCommand service with
            | Some c => if bool_decide (c = "") then Some st1 else Some (launch service c st1)
            | None => Some st1
            end
        end
  end.

(** [for (const service of servicesToStart) await startService(service)] *)
Fixpoint start_services (fuel : nat) (servicesToStart : list ProjectService)
    (st : start_state) : option start_state :=
  match servicesToStart with
  | [] => Some st
  | service :: rest =>
      match startService fuel service st with
      | Some st' => start_services fuel rest st'
      | None => None
      end
  end.

Definition servicesToStart (serviceNames : option (list string)) : list ProjectService :=
  match serviceNames with
  | Some names =>
      filter (fun s => ProjectService.name s ∈ names) (ProjectConfig.services project)
  | None => ProjectConfig.services project
  end.

(** The handler after the project has been found. *)
Definition start_found (fuel : nat) (serviceNames : option (list string)) (w : world)
    : option start_state :=
  start_services fuel (servicesToStart serviceNames) (mk_start w ∅ [] []).

End StartProject.

Definition start_project (fuel : nat) (projectId : string)
    (serviceNames : option (list string)) (w : world) : option (world * reply) :=
  match map_get projectId (projects w) with
  | None => Some (w, inl (ProjectNotFound projectId))
  | Some project =>
      match start_found project fuel serviceNames w with
      | None => None
      | Some st =>
          Some (st_world st,
                inr ("Started " +:+ ProjectConfig.name project +:+ ":" +:+ LF +:+ LF
                     +:+ String.concat LF (results st) +:+ LF +:+ LF +:+ "Created "
                     +:+ pretty (length (createdTerminals st)) +:+ " terminal sessions."))
      end
  end.

(** *** stop_project *)

Definition owned_by (project : ProjectConfig) (terminal : TerminalSession) : bool :=
  String.prefix (ProjectConfig.name project +:+ "-") (TerminalSession.name terminal).

Definition terminalsToClose (project : ProjectConfig) (w : world) : list TerminalSession :=
  map snd (filter (fun e => owned_by project e.2 = true) (terminals w)).

(** One turn of the closing loop: [terminal.process.kill();
    terminals.delete(terminal.id)]. *)
Definition close_one (w : world) (terminal : TerminalSession) : world :=
  kill_and_delete (TerminalSession.id terminal) w.

Definition close_all (toClose : list TerminalSession) (w : world) : world :=
  foldl close_one w toClose.

Definition stop_project (projectId : string) (w : world) : world * reply :=
  match map_get projectId (projects w) with
  | None => (w, inl (ProjectNotFound projectId))
  | Some project =>
      let toClose := terminalsToClose project w in
      (close_all toClose w,
       inr ("✓ Stopped " +:+ ProjectConfig.name project +:+ LF +:+ "Closed "
            +:+ pretty (length toClose) +:+ " terminal sessions."))
  end.

(** *** execute_project_command, execute_service_command *)

Definition execute_project_command (projectId commandKey : string) (w : world) : world * reply :=
  match map_get projectId (projects w) with
  | None => (w, inl (ProjectNotFound projectId))
  | Some project =>
      if truthy (map_get commandKey (ProjectConfig.commonCommands project))
      then
        let command := default "" (map_get commandKey (ProjectConfig.commonCommands project)) in
        let (terminal, w1) :=
          createTerminal (ProjectConfig.name project +:+ "-" +:+ commandKey)
            (ProjectConfig.rootPath project) w in
        (pty_write (TerminalSession.id terminal) (command +:+ CR) w1,
         inr ("✓ Executed " +:+ DQ +:+ commandKey +:+ DQ +:+ " for "
              +:+ ProjectConfig.name project +:+ LF +:+ "Command: " +:+ command +:+ LF
              +:+ "Terminal: " +:+ pretty (TerminalSession.id terminal)))
      else (w, inl (CommandNotFound commandKey))
  end.

Inductive commandType := start | build | test.

Definition execute_service_command (projectId serviceName : string) (type : commandType)
    (w : world) : world * reply :=
  match map_get projectId (projects w) with
  | None => (w, inl (ProjectNotFound projectId))
  | Some project =>
      match find_service project serviceName with
      | None => (w, inl (ServiceNotFound serviceName))
      | Some service =>
          let command := match type with
                         | start => ProjectService.startCommand service
                         | build => ProjectService.buildCommand service
                         | test => ProjectService.testCommand service
                         end in
          if truthy command then
            let servicePath := path_join (ProjectConfig.rootPath project)
                                 (ProjectService.path service) in
            let typeName := match type with
                            | start => "start" | build => "build" | test => "test"
                            end in
            let (terminal, w1) :=
              createTerminal (serviceName +:+ "-" +:+ typeName) servicePath w in
            (pty_write (TerminalSession.id terminal) (default "" command +:+ CR) w1,
             inr ("✓ Executed " +:+ typeName +:+ " for " +:+ serviceName +:+ LF
                  +:+ "Command: " +:+ default "" command +:+ LF
                  +:+ "Terminal: " +:+ pretty (TerminalSession.id terminal)))
          else (w, inl (NoCommandDefined serviceName))
      end
  end.

(** *** Dispatch *)

Inductive request :=
| ReqCreateTerminal (name : string) (cwd : option string)
| ReqCloseTerminal (terminalId : nat)
| ReqSendInput (terminalId : nat) (input : string)
| ReqLoadProject (config : ProjectConfig)
| ReqSetupProject (projectId : string) (stepIndex : option Z)
| ReqStartProject (projectId : string) (serviceNames : option (list string))
| ReqStopProject (projectId : string)
| ReqExecuteProjectCommand (projectId commandKey : string)
| ReqExecuteServiceCommand (projectId serviceName : string) (type : commandType).

(** [handleTool] on the tools that change the global state; [fuel] bounds
    the recursion of [start_project]. *)
Definition handleTool (fuel : nat) (req : request) (w : world) : option (world * reply) :=
  match req with
  | ReqCreateTerminal name cwd => Some (create_terminal name cwd w)
  | ReqCloseTerminal terminalId => Some (close_terminal terminalId w)
  | ReqSendInput terminalId input => Some (send_input terminalId input w)
  | ReqLoadProject config => Some (load_project config w)
  | ReqSetupProject projectId stepIndex => Some (setup_project projectId stepIndex w)
  | ReqStartProject projectId serviceNames => start_project fuel projectId serviceNames w
  | ReqStopProject projectId => Some (stop_project projectId w)
  | ReqExecuteProjectCommand projectId commandKey =>
      Some (execute_project_command projectId commandKey w)
  | ReqExecuteServiceCommand projectId serviceName type =>
      Some (execute_service_command projectId serviceName type w)
  end.

(** ** The server as a transition system *)

Inductive world_event :=
| Call (fuel : nat) (req : request)                (* a tool call, run to its reply *)
| IssueCommand (terminalId : nat) (command : string)   (* head of [execute_command] *)
| PtyData (id : nat) (chunk : string)
| PtyExit (id : nat).

Definition step_world (ev : world_event) (w : world) : option world :=
  match ev with
  | Call fuel req => fst <$> handleTool fuel req w
  | IssueCommand terminalId command => Some (execute_command_sync terminalId command w)
  | PtyData id chunk => Some (on_data id chunk w)
  | PtyExit id => Some (on_exit id w)
  end.

Fixpoint run_world (evs : list world_event) (w : world) : option world :=
  match evs with
  | [] => Some w
  | ev :: evs' =>
      match step_world ev w with
      | Some w' => run_world evs' w'
      | None => None
      end
  end.

(** Every key of the registry is the identifier of its session, once. *)
Definition registry_wf (r : registry) : Prop :=
  NoDup (map fst r) /\ Forall (fun e => TerminalSession.id e.2 = e.1) r.

(** The registry holds exactly the sessions whose process is running, and
    identifiers not yet drawn have no process. *)
Definition world_inv (w : world) : Prop :=
  registry_wf (terminals w)
  /\ (forall k, is_Some (map_get k (terminals w)) <-> procs w !! k = Some Running)
  /\ (forall k, uuid w <= k -> procs w !! k = None).

(** The process of [k] was killed or has exited. *)
Definition dead (k : nat) (w : world) : Prop :=
  procs w !! k = Some Killed \/ procs w !! k = Some Exited.

(** A property of the world kept by every elementary operation. *)
Record stable (P : world -> Prop) : Prop := {
  stable_create : forall name cwd w, P w -> P (createTerminal name cwd w).2;
  stable_write : forall id text w, P w -> P (pty_write id text w);
  stable_sleep : forall ms w, P w -> P (sleep ms w);
  stable_kill : forall id w, P w -> P (kill_and_delete id w);
  stable_projects : forall p w, P w -> P (set_projects p w);
  stable_exit : forall id w, P w -> P (on_exit id w);
  stable_data : forall id chunk w, P w -> P (on_data id chunk w);
  stable_issue : forall id command w, P w -> P (execute_command_sync id command w)
}.

(** ** start_project: graphs and invariants *)

Definition dependencies (s : ProjectService) : list string :=
  default [] (ProjectService.dependsOn s).

(** [rank] decreases along every resolved dependency and stays below
    [fuel]: the service graph has no cycle, and [fuel] is enough for the
    recursion of [startService]. *)
Definition acyclic_within (project : ProjectConfig) (rank : ProjectService -> nat)
    (fuel : nat) : bool :=
  forallb (fun s =>
             bool_decide (rank s < fuel)
             && forallb (fun dep =>
                           match find_service project dep with
                           | Some d => bool_decide (rank d < rank s)
                           | None => true
                           end) (dependencies s))
          (ProjectConfig.services project).

Definition unique_names (project : ProjectConfig) : Prop :=
  NoDup (map ProjectService.name (ProjectConfig.services project)).

(** The session [t] was created for the service [s]. *)
Definition session_of (project : ProjectConfig) (s : ProjectService) (t : TerminalSession) : Prop :=
  TerminalSession.name t = session_name project s.

(** In the effects [log], the session [t] of service [d] was spawned and
    [d]'s start command [c] written to it. *)
Definition launched_in (project : ProjectConfig) (log : list effect)
    (created : list TerminalSession) (d : ProjectService) (c : string) : Prop :=
  exists t cwd, t ∈ created /\ session_of project d t
    /\ Spawn (TerminalSession.id t) cwd ∈ log
    /\ PtyWrite (TerminalSession.id t) (c +:+ CR) ∈ log.

(** Before the spawn of a service's session, every resolved dependency
    that has a start command was launched. *)
Definition dependency_order (project : ProjectConfig) (new : list effect)
    (created : list TerminalSession) : Prop :=
  forall x t cwd pre post,
    x ∈ ProjectConfig.services project -> t ∈ created -> session_of project x t ->
    new = pre ++ Spawn (TerminalSession.id t) cwd :: post ->
    forall dep d c,
      dep ∈ dependencies x -> find_service project dep = Some d ->
      ProjectService.startCommand d = Some c -> c <> "" ->
      launched_in project pre created d c.

(** The state of one [start_project] call, [new] being the effects it has
    added so far. *)
Record start_inv (project : ProjectConfig) (e0 : list effect) (st : start_state)
    (new : list effect) : Prop := {
  inv_effects : effects (st_world st) = e0 ++ new;
  inv_spawned : forall i cwd, Spawn i cwd ∈ new -> i < uuid (st_world st);
  inv_written : forall i text, PtyWrite i text ∈ new -> i < uuid (st_world st);
  inv_spawn_first : forall pre post i cwd text,
                      new = pre ++ Spawn i cwd :: post -> PtyWrite i text ∉ pre;
  inv_created : forall t, t ∈ createdTerminals st ->
                  TerminalSession.id t < uuid (st_world st)
                  /\ exists s, s ∈ ProjectConfig.services project
                       /\ session_of project s t
                       /\ ProjectService.name s ∈ started st;
  inv_once : NoDup (map TerminalSession.name (createdTerminals st));
  inv_started : forall n, n ∈ started st ->
                  exists d c, d ∈ ProjectConfig.services project
                    /\ ProjectService.name d = n
                    /\ ProjectService.startCommand d = Some c /\ c <> ""
                    /\ launched_in project new (createdTerminals st) d c;
  inv_order : dependency_order project new (createdTerminals st)
}.

(** The effects of one [launch]: the spawn, one write per environment
    variable, the write of the start command. *)
Definition launch_effects (project : ProjectConfig) (service : ProjectService)
    (startCommand : string) (id : nat) : list effect :=
  Spawn id (path_join (ProjectConfig.rootPath project) (ProjectService.path service))
  :: map (fun kv => PtyWrite id ("export " +:+ kv.1 +:+ "=" +:+ DQ +:+ kv.2 +:+ DQ +:+ CR))
       (default [] (ProjectService.envVars service))
  ++ [PtyWrite id (startCommand +:+ CR)].

(** What a returning call [startService fuel s st = Some st'] ensures about
    the started set. *)
Definition started_after (project : ProjectConfig) (rank : ProjectService -> nat)
    (s : ProjectService) (st st' : start_state) : Prop :=
  (forall n, n ∈ started st -> n ∈ started st')
  /\ (forall c, ProjectService.startCommand s = Some c -> c <> "" ->
        ProjectService.name s ∈ started st')
  /\ (forall n, n ∈ started st' ->
        n ∈ started st
        \/ exists s', s' ∈ ProjectConfig.services project
             /\ ProjectService.name s' = n /\ rank s' <= rank s).

(** ** Example projects *)

Definition svc (name : string) (startCommand : option string) (dependsOn : option (list string))
    : ProjectService :=
  ProjectService.mk name name startCommand None None None dependsOn.

(** A web front end that depends on an API and on a database, the API on
    the same database. *)
Definition shop : ProjectConfig :=
  ProjectConfig.mk "shop" "shop" "/srv/shop" "microservices"
    [svc "web" (Some "npm start") (Some ["api"; "db"]);
     ProjectService.mk "api" "api" (Some "npm run dev") None None
       (Some [("PORT", "3001")]) (Some ["db"]);
     svc "db" (Some "docker compose up") None]
    [ProjectSetupStep.mk "install" "npm install" None None None]
    [("lint", "npm run lint")].

(** A project whose [infra] service only groups its dependencies. *)
Definition grouped : ProjectConfig :=
  ProjectConfig.mk "grouped" "grouped" "/srv/grouped" "modular"
    [svc "infra" None (Some ["db"]);
     svc "db" (Some "docker compose up") None]
    [] [].

Definition other : ProjectConfig :=
  ProjectConfig.mk "other" "other" "/srv/other" "single-app" [svc "api" (Some "make run") None] [] [].

(** The longest dependency chain below a service of [shop], by name. *)
Definition shop_rank (s : ProjectService) : nat :=
  if bool_decide (ProjectService.name s = "web") then 2
  else if bool_decide (ProjectService.name s = "api") then 1
  else 0.

(** ** Logging System *)

Inductive LogLevel := DEBUG | INFO | WARN | ERROR.

#[global] Instance LogLevel_eq_dec : EqDecision LogLevel.
Proof. solve_decision. Defined.

(** The numeric value of an enum member. *)
Definition level_value (l : LogLevel) : nat :=
  match l with DEBUG => 0 | INFO => 1 | WARN => 2 | ERROR => 3 end.

Definition level_name (l : LogLevel) : string :=
  match l with DEBUG => "DEBUG" | INFO => "INFO" | WARN => "WARN" | ERROR => "ERROR" end.

(** [LogLevel[name as keyof typeof LogLevel]] *)
Definition level_of_name (s : string) : option LogLevel :=
  if bool_decide (s = "DEBUG") then Some DEBUG
  else if bool_decide (s = "INFO") then Some INFO
  else if bool_decide (s = "WARN") then Some WARN
  else if bool_decide (s = "ERROR") then Some ERROR
  else None.

Module LogEntry.
Record t := mk {
  timestamp : Z;
  level : string;
  message : string
}.
End LogEntry.

Abbreviation LogEntry := LogEntry.t.

(** The static fields of [Logger], and the entries written to stderr. *)
Module Logger.
Record t := mk {
  level : LogLevel;
  logs : list LogEntry;
  console : list LogEntry
}.

Definition maxLogs : nat := 1000.

Definition init : t := mk INFO [] [].

Definition setLevel (l : LogLevel) (L : t) : t := mk l (logs L) (console L).

(** [Logger.log]; [args] are the extra arguments after [JSON.stringify]. *)
Definition log (lvl : LogLevel) (levelStr message : string) (args : list string)
    (now : Z) (L : t) : t :=
  if bool_decide (level_value lvl < level_value (level L)) then L
  else
    let formattedMessage :=
      match args with
      | [] => message
      | _ => message +:+ " " +:+ String.concat " " args
      end in
    let entry := LogEntry.mk now levelStr formattedMessage in
    let pushed := logs L ++ [entry] in
    mk (level L)
       (if bool_decide (maxLogs < length pushed) then tail pushed else pushed)
       (console L ++ [entry]).

Definition debug := log DEBUG "DEBUG".
Definition info := log INFO "INFO".
Definition warn := log WARN "WARN".
Definition error := log ERROR "ERROR".

Definition getLogs (lvl : option LogLevel) (L : t) : list LogEntry :=
  match lvl with
  | Some l => filter (fun e => level_of_name (LogEntry.level e) = Some l) (logs L)
  | None => logs L
  end.

Definition clearLogs (L : t) : t := mk (level L) [] (console L).

(** A call of one of the public methods. *)
Inductive call :=
| SetLevel (l : LogLevel)
| Log (lvl : LogLevel) (message : string) (args : list string) (now : Z)
| ClearLogs.

Definition apply (c : call) (L : t) : t :=
  match c with
  | SetLevel l => setLevel l L
  | Log lvl message args now => log lvl (level_name lvl) message args now L
  | ClearLogs => clearLogs L
  end.

Definition run (cs : list call) (L : t) : t := foldl (fun L c => apply c L) L cs.

Definition is_setLevel (c : call) : bool :=
  match c with SetLevel _ => true | _ => false end.
End Logger.

(** ** Reading a terminal's output *)

(** [array.slice(start)] for an integer [start]: a negative [start] counts
    from the end. *)
Definition js_slice_from {A} (start : Z) (l : list A) : list A :=
  if bool_decide (start < 0)%Z
  then drop (Z.to_nat (Z.max (Z.of_nat (length l) + start) 0)) l
  else drop (Z.to_nat start) l.

(** [getTerminalOutput]: [terminal.output.slice(-lines).join("")] *)
Definition getTerminalOutput (terminals : registry) (terminalId : nat) (lines : Z)
    : error + string :=
  match map_get terminalId terminals with
  | None => inl (TerminalNotFound terminalId)
  | Some terminal =>
      inr (String.concat "" (js_slice_from (- lines) (TerminalSession.output terminal)))
  end.

(** The [get_terminal_output] tool: [lines] defaults to 50 and an empty
    result is shown as a placeholder. *)
Definition get_terminal_output (terminalId : nat) (lines : option Z) (w : world) : reply :=
  match getTerminalOutput (terminals w) terminalId (default 50%Z lines) with
  | inl e => inl e
  | inr output => inr (or_else output "(no output)")
  end.

(** ** Observations of a wait *)

(** [Date.now()] and the new output at each interval tick of a trace. *)
Fixpoint tick_samples (step : event -> wait -> wait) (evs : list event) (w : wait)
    : list (Z * string) :=
  match evs with
  | [] => []
  | ev :: evs' =>
      match ev with
      | Tick now => (now, getNewOutput w) :: tick_samples step evs' (step ev w)
      | _ => tick_samples step evs' (step ev w)
      end
  end.

(** The condition of the pattern policy and of [waitForOutput] at a tick:
    the pattern matches or the deadline has passed. *)
Definition pattern_or_deadline (pattern : string -> bool) (timeout start : Z)
    (obs : Z * string) : bool :=
  pattern obs.2 || bool_decide (timeout < obs.1 - start)%Z.

(** A wait is either still polling or resolved with its timer cleared. *)
Definition polling_or_resolved (start : Z) (w : wait) : Prop :=
  (interval w = true /\ settled w = Pending
   /\ TerminalSession.commandStartTime (terminal w) = start /\ startTime w = start)
  \/ (interval w = false /\ exists v, settled w = Resolved v).

(** The commands of a trace issued to one terminal, in order. *)
Fixpoint issued_to (terminalId : nat) (evs : list world_event) : list string :=
  match evs with
  | [] => []
  | IssueCommand id command :: evs' =>
      if bool_decide (id = terminalId) then command :: issued_to terminalId evs'
      else issued_to terminalId evs'
  | _ :: evs' => issued_to terminalId evs'
  end.

(** The trace consists of issued commands and output only. *)
Definition commands_and_output (evs : list world_event) : bool :=
  forallb (fun ev => match ev with
                     | IssueCommand _ _ | PtyData _ _ => true
                     | _ => false
                     end) evs.

(** ** Handlers: what they write and whom they name *)

(** The directory a setup step runs in. *)
Definition step_cwd (project : ProjectConfig) (step : ProjectSetupStep) : string :=
  match ProjectSetupStep.workingDir step with
  | Some d => if bool_decide (d = "") then ProjectConfig.rootPath project
              else path_join (ProjectConfig.rootPath project) d
  | None => ProjectConfig.rootPath project
  end.

(** The line [setup_project] writes for a step. *)
Definition setup_line (project : ProjectConfig) (step : ProjectSetupStep) : string :=
  "cd " +:+ DQ +:+ step_cwd project step +:+ DQ +:+ " && "
  +:+ ProjectSetupStep.command step +:+ CR.

(** The project a request names, if any. *)
Definition request_project (req : request) : option string :=
  match req with
  | ReqSetupProject projectId _ | ReqStartProject projectId _ | ReqStopProject projectId
  | ReqExecuteProjectCommand projectId _ | ReqExecuteServiceCommand projectId _ _ =>
      Some projectId
  | _ => None
  end.

(** The terminal a request names, if any. *)
Definition request_terminal (req : request) : option nat :=
  match req with
  | ReqCloseTerminal terminalId | ReqSendInput terminalId _ => Some terminalId
  | _ => None
  end.

(** A configuration [loadProjectConfig] accepts. *)
Definition valid_config (config : ProjectConfig) : bool :=
  negb (bool_decide (ProjectConfig.id config = ""))
  && negb (bool_decide (ProjectConfig.name config = ""))
  && negb (bool_decide (ProjectConfig.rootPath config = "")).

(** ** start_project: more on the service graph *)

Definition with_dependsOn (deps : option (list string)) (s : ProjectService) : ProjectService :=
  ProjectService.mk (ProjectService.name s) (ProjectService.path s)
    (ProjectService.startCommand s) (ProjectService.buildCommand s)
    (ProjectService.testCommand s) (ProjectService.envVars s) deps.

(** The dependency names that resolve to a service of the project. *)
Definition resolved (project : ProjectConfig) (deps : list string) : list string :=
  filter (fun dep => is_Some (find_service project dep)) deps.

(** Every name of [names] is a service of the project with a dependency in
    [names]: following those dependencies never leaves [names]. *)
Definition cyclic (project : ProjectConfig) (names : list string) : bool :=
  forallb (fun n =>
             match find_service project n with
             | Some s => existsb (fun dep => bool_decide (dep ∈ names)) (dependencies s)
             | None => false
             end) names.

(** No name of [names] is in the started set. *)
Definition unstarted (names : list string) (st : start_state) : Prop :=
  forall n, n ∈ names -> n ∉ started st.

(** The sessions one [start_project] call has created are the registry
    entries added since the world [w], they are named after the project,
    and unused identifiers are unregistered. *)
Definition registers_created (project : ProjectConfig) (w : world) (st : start_state) : Prop :=
  terminals (st_world st)
    = terminals w ++ map (fun t => (TerminalSession.id t, t)) (createdTerminals st)
  /\ (forall k, uuid (st_world st) <= k -> map_get k (terminals (st_world st)) = None)
  /\ Forall (fun t => owned_by project t = true) (createdTerminals st).

(** Sessions created by one call are at least a second apart, oldest
    first. *)
Definition spaced (st : start_state) : Prop :=
  Forall (fun t => (TerminalSession.createdAt t + 1000 <= clock (st_world st))%Z)
    (createdTerminals st)
  /\ forall i j ti tj,
       createdTerminals st !! i = Some ti -> createdTerminals st !! j = Some tj ->
       i < j -> (TerminalSession.createdAt ti + 1000 <= TerminalSession.createdAt tj)%Z.

(** The name of a command type, as it appears in a session name. *)
Definition type_name (type : commandType) : string :=
  match type with start => "start" | build => "build" | test => "test" end.

(** The command of a service for a command type. *)
Definition service_command (service : ProjectService) (type : commandType) : option string :=
  match type with
  | start => ProjectService.startCommand service
  | build => ProjectService.buildCommand service
  | test => ProjectService.testCommand service
  end.

(** A project whose two services depend on each other. *)
Definition knot : ProjectConfig :=
  ProjectConfig.mk "knot" "knot" "/srv/knot" "microservices"
    [svc "a" (Some "run a") (Some ["b"]); svc "b" (Some "run b") (Some ["a"]);
     svc "c" (Some "run c") None]
    [] [].

(** ** Saved project configurations *)

(** [s.endsWith(suffix)] *)
Fixpoint ends_with (suffix s : string) : bool :=
  bool_decide (s = suffix)
  || match s with
     | EmptyString => false
     | String _ s' => ends_with suffix s'
     end.

Fixpoint string_drop (n : nat) (s : string) : string :=
  match n, s with
  | S n', String _ s' => string_drop n' s'
  | _, _ => s
  end.

(** [s.replace(pattern, replacement)] for a non-empty string [pattern] and
    a [replacement] without [$]: only the first occurrence is replaced. *)
Fixpoint replace_first (pattern replacement s : string) : string :=
  if String.prefix pattern s
  then replacement +:+ string_drop (String.length pattern) s
  else match s with
       | EmptyString => EmptyString
       | String c s' => String c (replace_first pattern replacement s')
       end.

(** [pattern] occurs in [s]. *)
Fixpoint contains (pattern s : string) : bool :=
  String.prefix pattern s
  || match s with
     | EmptyString => false
     | String _ s' => contains pattern s'
     end.

(** The file, inside the configuration directory, that [loadProjectConfig]
    writes for a project id and that [main] reads back at start-up. *)
Definition config_file (projectId : string) : string := projectId +:+ ".json".

(** [listSavedProjects] on the listing of the configuration directory;
    [None] stands for a failing [mkdir] or [readdir]. *)
Definition listSavedProjects (files : option (list string)) : list string :=
  match files with
  | Some files =>
      map (replace_first ".json" "") (filter (fun f => ends_with ".json" f = true) files)
  | None => []
  end.
(** ** Theorems: output buffer *)

Section OutputBuffer.

Lemma onData_output data s :
  TerminalSession.output (onData data s) =
    if bool_decide (MAX_OUTPUT < S (length (TerminalSession.output s)))
    then tail (TerminalSession.output s ++ [data])
    else TerminalSession.output s ++ [data].
Proof.
  unfold onData. destruct s as [i n o c t h r l st]; cbn [TerminalSession.output TerminalSession.set_output].
  rewrite length_app, Nat.add_1_r. reflexivity.
Qed.

Lemma onData_bounded data s :
  length (TerminalSession.output s) <= MAX_OUTPUT ->
  length (TerminalSession.output (onData data s)) <= MAX_OUTPUT.
Proof.
  intros Hle. rewrite onData_output.
  case_bool_decide as Hgt.
  - destruct (TerminalSession.output s ++ [data]) eqn:E.
    + cbn. lia.
    + apply (f_equal length) in E. rewrite length_app in E. cbn in E.
      cbn [tail length]. lia.
  - rewrite length_app. cbn [length]. lia.
Qed.

Lemma feed_snoc chunks d s : feed (chunks ++ [d]) s = onData d (feed chunks s).
Proof. unfold feed. rewrite foldl_app. reflexivity. Qed.

Lemma feed_bounded chunks s :
  length (TerminalSession.output s) <= MAX_OUTPUT ->
  length (TerminalSession.output (feed chunks s)) <= MAX_OUTPUT.
Proof.
  revert s. induction chunks as [|d chunks IH]; intros s Hs; [exact Hs|].
  cbn [feed foldl]. apply IH. now apply onData_bounded.
Qed.

(** The retained chunks are the most recent ones. *)
Lemma feed_output_fresh chunks id name cwd now :
  TerminalSession.output (feed chunks (new_session id name cwd now)) =
    drop (length chunks - MAX_OUTPUT) chunks.
Proof.
  induction chunks as [|d chunks IH] using rev_ind.
  - reflexivity.
  - rewrite feed_snoc, onData_output, IH.
    rewrite length_drop, length_app. cbn [length].
    case_bool_decide as Hgt.
    + assert (Hlen : MAX_OUTPUT <= length chunks) by lia.
      replace (length chunks + 1 - MAX_OUTPUT) with (S (length chunks - MAX_OUTPUT)) by lia.
      rewrite <- drop_app_le by lia.
      generalize (length chunks - MAX_OUTPUT). intros k.
      generalize (chunks ++ [d]). clear. intros l.
      revert l. induction k as [|k IH]; intros l.
      * destruct l; reflexivity.
      * destruct l as [|x l]; [reflexivity|]. cbn [drop]. rewrite IH. reflexivity.
    + replace (length chunks + 1 - MAX_OUTPUT) with (length chunks - MAX_OUTPUT) by lia.
      rewrite drop_app_le by lia. reflexivity.
Qed.

End OutputBuffer.

(** C8.  After every output event of a session's life the buffer holds at
    most 1000 chunks: each event appends its chunk and, past 1000 entries,
    drops the oldest, so the buffer is always the last 1000 chunks
    emitted. *)
Theorem output_buffer_bounded (chunks : list string) (id : nat) (name cwd : string) (now : Z) :
  forall n,
    let session := feed (take n chunks) (new_session id name cwd now) in
    length (TerminalSession.output session) <= MAX_OUTPUT
    /\ TerminalSession.output session
       = drop (length (take n chunks) - MAX_OUTPUT) (take n chunks)
    /\ forall data,
         TerminalSession.output (onData data session)
         = if bool_decide (length (TerminalSession.output session) = MAX_OUTPUT)
           then tail (TerminalSession.output session) ++ [data]
           else TerminalSession.output session ++ [data].
Proof.
  intros n session.
  assert (Hlen : length (TerminalSession.output session) <= MAX_OUTPUT).
  { apply feed_bounded. cbn. lia. }
  split; [exact Hlen|]. split; [apply feed_output_fresh|].
  intros data. rewrite onData_output.
  destruct (decide (length (TerminalSession.output session) = MAX_OUTPUT)) as [Heq|Hne].
  - rewrite !bool_decide_eq_true_2 by lia.
    destruct (TerminalSession.output session); [discriminate Heq|reflexivity].
  - now rewrite !bool_decide_eq_false_2 by lia.
Qed.

(** ** Theorems: command completion *)

Section Completion.

Lemma settled_complete v w :
  settled (complete v w) = resolve v (settled w).
Proof. reflexivity. Qed.

Lemma interval_complete v w : interval (complete v w) = false.
Proof. reflexivity. Qed.

(** Once the interval is cleared, no event changes the promise or re-arms
    the timer. *)
Lemma executeCommand_event_cleared p timeout ev w :
  interval w = false ->
  interval (executeCommand_event p timeout ev w) = false /\
  settled (executeCommand_event p timeout ev w) = settled w.
Proof.
  intros Hc. destruct ev as [a chunk|now|a]; cbn.
  - auto.
  - rewrite Hc. auto.
  - auto.
Qed.

Lemma executeCommand_run_cleared p timeout evs w :
  interval w = false ->
  interval (run_events (executeCommand_event p timeout) evs w) = false /\
  settled (run_events (executeCommand_event p timeout) evs w) = settled w.
Proof.
  revert w. induction evs as [|ev evs IH]; intros w Hc; [auto|].
  cbn [run_events foldl].
  destruct (executeCommand_event_cleared p timeout ev w Hc) as [Hi Hs].
  destruct (IH _ Hi) as [Hi' Hs']. unfold run_events in *.
  split; [exact Hi'|]. now rewrite Hs', Hs.
Qed.

Lemma run_events_app step evs1 evs2 w :
  run_events step (evs1 ++ evs2) w = run_events step evs2 (run_events step evs1 w).
Proof. unfold run_events. apply foldl_app. Qed.

End Completion.

(** When the process exits while [executeCommand] waits, the exit handler
    clears the polling timer and does nothing else: whatever events follow,
    the timer stays cleared and the promise stays as it was at the exit. *)
Lemma executeCommand_exit_leaves_promise (p : policy) (timeout at_ms : Z)
    (later : list event) (w : wait) :
  let w' := run_events (executeCommand_event p timeout) (Exit at_ms :: later) w in
  interval w' = false /\ settled w' = settled w.
Proof.
  cbn zeta. change (Exit at_ms :: later) with ([Exit at_ms] ++ later).
  rewrite run_events_app.
  exact (executeCommand_run_cleared p timeout later (clearInterval w) eq_refl).
Qed.

(** C1.  A command is issued at time 0, a chunk arrives at 20 ms and the
    process exits at 50 ms.  Under either policy the exit clears the timer,
    and whatever events follow, the promise is still pending: the output
    collected so far is never delivered. *)
Theorem executeCommand_exit_hangs (p : policy) (later : list event) :
  match executeCommand [(0, new_session 0 "t" "/" 0%Z)] 0 "make" true 0%Z with
  | inr w0 =>
      let w := run_events (executeCommand_event p DEFAULT_TIMEOUT)
                 ([Data 20 "partial"; Exit 50] ++ later) w0 in
      interval w = false /\ settled w = Pending
      /\ getNewOutput (run_events (executeCommand_event p DEFAULT_TIMEOUT)
                         [Data 20 "partial"; Exit 50] w0) = "partial"
  | inl _ => False
  end.
Proof.
  set (r := executeCommand _ _ _ _ _). vm_compute in r. subst r. cbv beta iota zeta.
  split; [|split].
  - apply (executeCommand_exit_leaves_promise p DEFAULT_TIMEOUT 50 later).
  - apply (executeCommand_exit_leaves_promise p DEFAULT_TIMEOUT 50 later).
  - reflexivity.
Qed.

(** C9.  At an interval callback past the deadline with the pattern still
    unmatched, [waitForOutput] rejects with a timeout error, while
    [executeCommand] resolves under both policies: with the new output, or
    with a fixed notice when there is none. *)
Theorem timeout_rejects_wait_resolves_command
    (pattern : string -> bool) (timeout now : Z) (w : wait) :
  interval w = true ->
  settled w = Pending ->
  pattern (getNewOutput w) = false ->
  (timeout < now - startTime w)%Z ->
  (timeout < now - TerminalSession.commandStartTime (terminal w))%Z ->
  settled (waitForOutput_event pattern timeout (Tick now) w) = Rejected PatternTimeout
  /\ settled (executeCommand_event (PatternPolicy pattern) timeout (Tick now) w)
     = Resolved (or_else (getNewOutput w) "Command executed (no output)")
  /\ exists notice,
       (notice = "Command executed (no output)"
        \/ notice = "Command executed (timeout - partial output)")
       /\ settled (executeCommand_event StabilityPolicy timeout (Tick now) w)
          = Resolved (or_else (getNewOutput w) notice).
Proof.
  intros Hi Hp Hpat Hto Hto'.
  split; [|split].
  - cbn. rewrite Hi. unfold waitForOutput_tick. rewrite Hpat.
    rewrite bool_decide_eq_true_2 by exact Hto. cbn. now rewrite Hp.
  - cbn. rewrite Hi. unfold pattern_tick. rewrite Hpat.
    rewrite bool_decide_eq_true_2 by exact Hto. cbn. now rewrite Hp.
  - cbn [executeCommand_event]. rewrite Hi. unfold stability_tick.
    destruct (bool_decide (getNewOutput w = lastOutput w)) eqn:Heq.
    + apply bool_decide_eq_true_1 in Heq.
      destruct (bool_decide (STABLE_TICKS <= _)) eqn:Hst.
      * exists "Command executed (no output)". split; [now left|].
        rewrite bool_decide_eq_true_2 by exact Hto'.
        cbn. rewrite Hp. reflexivity.
      * exists "Command executed (timeout - partial output)". split; [now right|].
        rewrite bool_decide_eq_true_2 by exact Hto'.
        cbn. rewrite Hp, <- Heq. reflexivity.
    + exists "Command executed (timeout - partial output)". split; [now right|].
      rewrite bool_decide_eq_true_2 by exact Hto'.
      cbn. rewrite Hp. reflexivity.
Qed.

Lemma timeout_rejects_wait_resolves_command_witness :
  let w := run_events (executeCommand_event StabilityPolicy 250)
             [Data 10 "building"] (arm (new_session 0 "t" "/" 0%Z) 0%Z) in
  settled (waitForOutput_event (fun _ => false) 250 (Tick 300) w) = Rejected PatternTimeout
  /\ settled (executeCommand_event (PatternPolicy (fun _ => false)) 250 (Tick 300) w)
     = Resolved "building"
  /\ exists notice,
       (notice = "Command executed (no output)"
        \/ notice = "Command executed (timeout - partial output)")
       /\ settled (executeCommand_event StabilityPolicy 250 (Tick 300) w)
          = Resolved (or_else "building" notice).
Proof.
  exact (timeout_rejects_wait_resolves_command (fun _ => false) 250 300
           (run_events (executeCommand_event StabilityPolicy 250)
              [Data 10 "building"] (arm (new_session 0 "t" "/" 0%Z) 0%Z))
           eq_refl eq_refl eq_refl eq_refl eq_refl).
Defined.

(** ** Theorems: the stability policy *)

Section StringFacts.

Lemma append_empty_r (s : string) : s +:+ "" = s.
Proof.
  induction s as [|a s IH]; [reflexivity|].
  change (String a (s +:+ "") = String a s). now rewrite IH.
Qed.

Lemma append_assoc (s1 s2 s3 : string) : (s1 +:+ s2) +:+ s3 = s1 +:+ (s2 +:+ s3).
Proof.
  induction s1 as [|a s1 IH]; [reflexivity|].
  change (String a ((s1 +:+ s2) +:+ s3) = String a (s1 +:+ (s2 +:+ s3))).
  now rewrite IH.
Qed.

Lemma append_eq_empty (s1 s2 : string) : s1 +:+ s2 = "" -> s1 = "" /\ s2 = "".
Proof. destruct s1; [auto|discriminate]. Qed.

Lemma append_id_r (s x : string) : s +:+ x = s -> x = "".
Proof.
  intros H. apply (inj (String.append s)). now rewrite append_empty_r.
Qed.

Lemma concat_snoc (l : list string) (c : string) :
  String.concat "" (l ++ [c]) = String.concat "" l +:+ c.
Proof.
  induction l as [|x l IH]; [reflexivity|].
  destruct l as [|y l].
  - cbn. reflexivity.
  - change ((x :: y :: l) ++ [c]) with (x :: ((y :: l) ++ [c])).
    change (String.concat "" (x :: y :: l)) with (x +:+ "" +:+ String.concat "" (y :: l)).
    rewrite !append_assoc, <- IH. reflexivity.
Qed.

End StringFacts.

Section Stability.

Variable timeout : Z.
Variable start : Z.

Let step := executeCommand_event StabilityPolicy timeout.

Lemma getNewOutput_onData chunk w :
  beforeLength w <= length (TerminalSession.output (terminal w)) ->
  length (TerminalSession.output (terminal w)) < MAX_OUTPUT ->
  getNewOutput (set_terminal (onData chunk (terminal w)) w) = getNewOutput w +:+ chunk.
Proof.
  intros Hb Hroom. unfold getNewOutput. cbn [terminal beforeLength set_terminal].
  rewrite onData_output, bool_decide_eq_false_2 by lia.
  rewrite drop_app_le by exact Hb. apply concat_snoc.
Qed.

Lemma onData_length chunk s :
  length (TerminalSession.output s) < MAX_OUTPUT ->
  length (TerminalSession.output (onData chunk s)) = S (length (TerminalSession.output s)).
Proof.
  intros Hroom. rewrite onData_output, bool_decide_eq_false_2 by lia.
  rewrite length_app. cbn. lia.
Qed.

Lemma onData_commandStartTime chunk s :
  TerminalSession.commandStartTime (onData chunk s) = TerminalSession.commandStartTime s.
Proof. reflexivity. Qed.

(** What one callback of the stability policy does before the deadline. *)
Lemma stability_tick_before_deadline now w :
  (now - TerminalSession.commandStartTime (terminal w) <= timeout)%Z ->
  stability_tick timeout now w =
    if bool_decide (getNewOutput w = lastOutput w)
    then if bool_decide (STABLE_TICKS <= S (stableCount w))
         then complete (or_else (getNewOutput w) "Command executed (no output)")
                (set_stability (lastOutput w) (S (stableCount w)) w)
         else set_stability (lastOutput w) (S (stableCount w)) w
    else set_stability (getNewOutput w) 0 w.
Proof.
  intros Hle. unfold stability_tick.
  destruct (bool_decide (getNewOutput w = lastOutput w)).
  - cbn [stableCount set_stability].
    destruct (bool_decide (STABLE_TICKS <= S (stableCount w)));
      now rewrite bool_decide_eq_false_2 by (cbn; lia).
  - now rewrite bool_decide_eq_false_2 by (cbn; lia).
Qed.

(** *** Exactness: pending until a sample equals the three before it *)

Lemma four_identical_cons_ne a b l :
  a <> b -> four_identical (a :: b :: l) = four_identical (b :: l).
Proof.
  intros Hne. destruct l as [|c [|d l]]; try reflexivity.
  cbn [four_identical]. now rewrite (bool_decide_eq_false_2 (a = b)) by exact Hne.
Qed.

Lemma four_identical_repeat_ne a b n l :
  a <> b -> n <= 3 ->
  four_identical (repeat a n ++ b :: l) = four_identical (b :: l).
Proof.
  intros Hne Hn.
  assert (Hab : bool_decide (a = b) = false) by now apply bool_decide_eq_false_2.
  destruct n as [|[|[|[|n]]]]; [| | | |lia]; cbn [repeat app].
  - reflexivity.
  - now apply four_identical_cons_ne.
  - rewrite <- (four_identical_cons_ne a b l Hne).
    destruct l as [|c l]; [reflexivity|].
    change (four_identical (a :: a :: b :: c :: l))
      with (bool_decide (a = a) && bool_decide (a = b) && bool_decide (b = c)
            || four_identical (a :: b :: c :: l)).
    now rewrite Hab, andb_false_r.
  - rewrite <- (four_identical_cons_ne a b l Hne).
    change (four_identical (a :: a :: a :: b :: l))
      with (bool_decide (a = a) && bool_decide (a = a) && bool_decide (a = b)
            || four_identical (a :: a :: b :: l)).
    rewrite Hab, andb_false_r. cbn [orb].
    destruct l as [|c l]; [reflexivity|].
    change (four_identical (a :: a :: b :: c :: l))
      with (bool_decide (a = a) && bool_decide (a = b) && bool_decide (b = c)
            || four_identical (a :: b :: c :: l)).
    now rewrite Hab, andb_false_r.
Qed.

Lemma four_identical_short (ss : list string) :
  length ss <= 3 -> four_identical ss = false.
Proof.
  intros Hlen. destruct ss as [|a [|b [|c [|d ss]]]]; try reflexivity.
  cbn in Hlen. lia.
Qed.

Lemma stability_pending_iff_window evs : forall w,
  polling start w ->
  no_exit evs = true ->
  within_timeout start timeout evs = true ->
  settled (run_events step evs w) = Pending <->
  four_identical (repeat (lastOutput w) (S (stableCount w)) ++ samples step evs w) = false.
Proof.
  induction evs as [|ev evs IH]; intros w (Hi & Hp & Hc & Hs) Hne Hto.
  - cbn [run_events foldl samples]. rewrite app_nil_r. split; [|auto].
    intros _. apply four_identical_short. rewrite repeat_length.
    unfold STABLE_TICKS in Hc. lia.
  - cbn [no_exit forallb] in Hne. apply andb_true_iff in Hne as [Hev Hne].
    cbn [within_timeout forallb] in Hto. apply andb_true_iff in Hto as [Hnow Hto].
    change (run_events step (ev :: evs) w) with (run_events step evs (step ev w)).
    destruct ev as [a chunk|now|a]; [| |discriminate].
    + cbn [samples].
      assert (Hpoll : polling start (step (Data a chunk) w)) by (repeat split; assumption).
      exact (IH _ Hpoll Hne Hto).
    + apply bool_decide_eq_true_1 in Hnow.
      cbn [samples].
      assert (Hstep : step (Tick now) w = stability_tick timeout now w).
      { unfold step. cbn. now rewrite Hi. }
      rewrite Hstep, stability_tick_before_deadline by (rewrite Hs; exact Hnow).
      destruct (bool_decide (getNewOutput w = lastOutput w)) eqn:Heq.
      * apply bool_decide_eq_true_1 in Heq. rewrite Heq.
        destruct (bool_decide (STABLE_TICKS <= S (stableCount w))) eqn:Hst.
        -- apply bool_decide_eq_true_1 in Hst.
           assert (Hc2 : stableCount w = 2) by (unfold STABLE_TICKS in *; lia).
           rewrite Hc2.
           destruct (executeCommand_run_cleared StabilityPolicy timeout evs
                       (complete (or_else (lastOutput w) "Command executed (no output)")
                          (set_stability (lastOutput w) 3 w)) eq_refl) as [_ Hkeep].
           fold step in Hkeep. rewrite Hkeep. cbn [settled complete set_settled].
           cbn [set_terminal clearInterval set_stability settled]. rewrite Hp.
           cbn [resolve repeat app four_identical].
           rewrite !bool_decide_eq_true_2 by reflexivity. cbn. split; discriminate.
        -- apply bool_decide_eq_false_1 in Hst.
           rewrite IH; [|repeat split; cbn; try assumption; lia|exact Hne|exact Hto].
           cbn [lastOutput stableCount set_stability].
           replace (repeat (lastOutput w) (S (stableCount w)) ++
                    lastOutput w :: samples step evs (set_stability (lastOutput w) (S (stableCount w)) w))
             with (repeat (lastOutput w) (S (S (stableCount w))) ++
                   samples step evs (set_stability (lastOutput w) (S (stableCount w)) w));
             [reflexivity|].
           change (repeat (lastOutput w) (S (S (stableCount w))))
             with (lastOutput w :: repeat (lastOutput w) (S (stableCount w))).
           rewrite repeat_cons, <- app_assoc. reflexivity.
      * apply bool_decide_eq_false_1 in Heq.
        rewrite (four_identical_repeat_ne (lastOutput w) (getNewOutput w))
          by (try congruence; unfold STABLE_TICKS in Hc; lia).
        rewrite IH; [|repeat split; cbn; try assumption; unfold STABLE_TICKS; lia
                     |exact Hne|exact Hto].
        reflexivity.
Qed.

(** *** Timing: three quiet periods before completion *)

Lemma quiet_data a chunk w t next seen :
  quiet start w t next seen ->
  (t <= a <= next)%Z ->
  length (TerminalSession.output (terminal w)) < MAX_OUTPUT ->
  quiet start (step (Data a chunk) w) a next (last_byte_step seen (Data a chunk)).
Proof.
  intros ((Hi & Hp & Hc & Hs) & Hb & Htn & Hsn & Hseen & x & Hx & Hclean) Ha Hroom.
  assert (Hnew : getNewOutput (step (Data a chunk) w) = getNewOutput w +:+ chunk)
    by now apply getNewOutput_onData.
  split; [repeat split; assumption|].
  split.
  { unfold step. cbn [executeCommand_event terminal set_terminal beforeLength].
    rewrite onData_length by exact Hroom. lia. }
  split; [lia|]. split; [exact Hsn|].
  cbn [last_byte_step]. destruct (bool_decide (chunk = "")) eqn:Hch.
  - apply bool_decide_eq_true_1 in Hch. subst chunk.
    split. { intros b Hb'. specialize (Hseen b Hb'). lia. }
    exists x. rewrite Hnew, append_empty_r. split; [exact Hx|exact Hclean].
  - apply bool_decide_eq_false_1 in Hch.
    split. { intros b [= <-]. lia. }
    exists (x +:+ chunk). rewrite Hnew, Hx, append_assoc. split; [reflexivity|].
    intros Hempty. apply append_eq_empty in Hempty as [_ Hempty]. contradiction.
Qed.

Lemma quiet_tick w t next seen :
  quiet start w t next seen ->
  (next - start <= timeout)%Z ->
  quiet start (step (Tick next) w) next (next + TICK_MS) seen
  \/ (interval (step (Tick next) w) = false
      /\ settled (step (Tick next) w)
         = Resolved (or_else (getNewOutput w) "Command executed (no output)")
      /\ (start + 3 * TICK_MS <= next)%Z
      /\ forall a, seen = Some a -> (a + 3 * TICK_MS <= next)%Z).
Proof.
  unfold quiet, polling.
  intros ((Hi & Hp & Hc & Hs) & Hb & Htn & Hsn & Hseen & x & Hx & Hclean) Hto.
  assert (Hstep : step (Tick next) w = stability_tick timeout next w).
  { unfold step. cbn. now rewrite Hi. }
  rewrite Hstep, stability_tick_before_deadline by (rewrite Hs; exact Hto).
  unfold STABLE_TICKS, TICK_MS in *.
  destruct (bool_decide (getNewOutput w = lastOutput w)) eqn:Heq.
  - apply bool_decide_eq_true_1 in Heq.
    assert (Hx0 : x = "") by (apply (append_id_r (lastOutput w)); congruence).
    specialize (Hclean Hx0).
    destruct (bool_decide (3 <= S (stableCount w))) eqn:Hst.
    + apply bool_decide_eq_true_1 in Hst. right.
      split; [reflexivity|]. split; [cbn; now rewrite Hp|].
      split; [lia|]. intros a Ha. specialize (Hclean a Ha). lia.
    + apply bool_decide_eq_false_1 in Hst. left.
      split; [repeat split; cbn; try assumption; lia|].
      split; [exact Hb|]. split; [lia|]. split; [cbn [stableCount set_stability]; lia|].
      split. { intros a Ha. specialize (Hseen a Ha). lia. }
      exists "". split; [cbn; now rewrite append_empty_r|].
      intros _ a Ha. specialize (Hclean a Ha). cbn [stableCount set_stability]. lia.
  - left. split; [repeat split; cbn; try assumption; lia|].
    split; [exact Hb|]. split; [lia|]. split; [cbn [stableCount set_stability]; lia|].
    split. { intros a Ha. specialize (Hseen a Ha). lia. }
    exists "". split; [cbn; now rewrite append_empty_r|].
    intros _ a Ha. specialize (Hseen a Ha). cbn [stableCount set_stability]. lia.
Qed.

Lemma quiet_run pre : forall w t next seen T,
  quiet start w t next seen ->
  no_exit (pre ++ [Tick T]) = true ->
  within_timeout start timeout (pre ++ [Tick T]) = true ->
  on_schedule t next (pre ++ [Tick T]) = true ->
  length (TerminalSession.output (terminal w)) + count_data pre <= MAX_OUTPUT ->
  settled (run_events step pre w) = Pending ->
  settled (run_events step (pre ++ [Tick T]) w) <> Pending ->
  settled (run_events step (pre ++ [Tick T]) w)
    = Resolved (or_else (getNewOutput (run_events step pre w)) "Command executed (no output)")
  /\ (start + 3 * TICK_MS <= T)%Z
  /\ forall a, foldl last_byte_step seen pre = Some a -> (a + 3 * TICK_MS <= T)%Z.
Proof.
  induction pre as [|ev pre IH]; intros w t next seen T Hq Hne Hto Hsch Hroom Hpend Hdone.
  - cbn in Hto, Hsch. rewrite andb_true_r in Hto, Hsch.
    apply bool_decide_eq_true_1 in Hto, Hsch. subst T.
    cbn [app run_events foldl] in *.
    destruct (quiet_tick w t next seen Hq Hto) as [Hq'|(_ & Hres & Hst & Hlb)].
    + destruct Hq' as ((_ & Hp' & _) & _). contradiction.
    + auto.
  - change ((ev :: pre) ++ [Tick T]) with (ev :: (pre ++ [Tick T])) in *.
    change (run_events step (ev :: pre ++ [Tick T]) w)
      with (run_events step (pre ++ [Tick T]) (step ev w)) in *.
    change (run_events step (ev :: pre) w) with (run_events step pre (step ev w)) in *.
    cbn [no_exit forallb] in Hne. apply andb_true_iff in Hne as [Hev Hne].
    cbn [within_timeout forallb] in Hto. apply andb_true_iff in Hto as [Hnow Hto].
    cbn [foldl].
    destruct ev as [a chunk|now|a]; [| |discriminate].
    + cbn [on_schedule] in Hsch. apply andb_true_iff in Hsch as [Ha Hsch].
      apply bool_decide_eq_true_1 in Ha. cbn [count_data] in Hroom.
      apply (IH _ a next); try assumption.
      * apply (quiet_data a chunk w t next seen Hq Ha). lia.
      * unfold step. cbn [executeCommand_event terminal set_terminal].
        rewrite onData_length by lia. lia.
    + cbn [on_schedule] in Hsch. apply andb_true_iff in Hsch as [Ha Hsch].
      apply bool_decide_eq_true_1 in Ha, Hnow. subst now.
      cbn [count_data] in Hroom. cbn [last_byte_step].
      destruct (quiet_tick w t next seen Hq Hnow) as [Hq'|(Hcl & Hres & _)].
      * apply (IH _ next (next + TICK_MS)%Z); try assumption.
        destruct Hq as ((Hi & _) & _).
        replace (terminal (step (Tick next) w)) with (terminal w); [exact Hroom|].
        unfold step. cbn. rewrite Hi.
        destruct Hq' as ((Hi' & _) & _). revert Hi'. unfold step. cbn. rewrite Hi.
        unfold stability_tick.
        repeat (match goal with |- context [bool_decide ?P] => destruct (bool_decide P) end);
          cbn; congruence.
      * destruct (executeCommand_run_cleared StabilityPolicy timeout pre _ Hcl) as [_ Hkeep].
        fold step in Hkeep. rewrite Hkeep, Hres in Hpend. discriminate.
Qed.

End Stability.

(** C2 (amended).  Under the stability policy, with callbacks every 100 ms,
    no process exit, no callback past the deadline and room left in the
    buffer: the wait is pending after a trace exactly when no sample was
    identical to the three samples before it (the empty output at issue time
    counting as the first sample); and when the last callback of the trace
    completes the wait, it resolves with the new output (or the no-output
    notice), at least 300 ms after the command was issued and at least
    300 ms after the last byte was received. *)
Theorem stability_policy_completion
    (t : TerminalSession) (command : string) (start timeout : Z)
    (pre : list event) (T : Z) :
  let w0 := arm (TerminalSession.issue command start t) start in
  let step := executeCommand_event StabilityPolicy timeout in
  let evs := pre ++ [Tick T] in
  no_exit evs = true ->
  within_timeout start timeout evs = true ->
  on_schedule start (start + TICK_MS) evs = true ->
  length (TerminalSession.output t) + count_data evs <= MAX_OUTPUT ->
  (settled (run_events step evs w0) = Pending
   <-> four_identical ("" :: samples step evs w0) = false)
  /\ (settled (run_events step pre w0) = Pending ->
      settled (run_events step evs w0) <> Pending ->
      settled (run_events step evs w0)
        = Resolved (or_else (getNewOutput (run_events step pre w0))
                      "Command executed (no output)")
      /\ (start + 3 * TICK_MS <= T)%Z
      /\ forall a, last_byte pre = Some a -> (a + 3 * TICK_MS <= T)%Z).
Proof.
  intros w0 step evs Hne Hto Hsch Hroom.
  assert (Hpoll : polling start w0) by (repeat split; unfold STABLE_TICKS; cbn; lia).
  split.
  - exact (stability_pending_iff_window timeout start evs w0 Hpoll Hne Hto).
  - intros Hpend Hdone.
    apply (quiet_run timeout start pre w0 start (start + TICK_MS)%Z None T);
      try assumption.
    + split; [exact Hpoll|]. split; [reflexivity|]. unfold TICK_MS.
      split; [lia|]. split; [cbn; lia|]. split; [discriminate|].
      exists "". split; [|discriminate].
      unfold getNewOutput, w0, arm. cbn [terminal beforeLength lastOutput].
      now rewrite drop_all.
    + assert (Hcount : count_data evs = count_data pre).
      { unfold evs. clear. induction pre as [|[| |] pre IH]; cbn; congruence. }
      cbn [w0 arm terminal TerminalSession.issue TerminalSession.output]. lia.
Qed.


Lemma stability_policy_completion_witness :
  let t := new_session 0 "t" "/" 0%Z in
  let w0 := arm (TerminalSession.issue "ls" 0 t) 0 in
  let step := executeCommand_event StabilityPolicy DEFAULT_TIMEOUT in
  let pre := [Data 10 "a"; Tick 100; Tick 200; Tick 300] in
  let evs := pre ++ [Tick 400] in
  (settled (run_events step evs w0) = Pending
   <-> four_identical ("" :: samples step evs w0) = false)
  /\ (settled (run_events step pre w0) = Pending ->
      settled (run_events step evs w0) <> Pending ->
      settled (run_events step evs w0)
        = Resolved (or_else (getNewOutput (run_events step pre w0))
                      "Command executed (no output)")
      /\ (0 + 3 * TICK_MS <= 400)%Z
      /\ forall a, last_byte pre = Some a -> (a + 3 * TICK_MS <= 400)%Z).
Proof.
  apply (stability_policy_completion (new_session 0 "t" "/" 0%Z) "ls" 0 DEFAULT_TIMEOUT
           [Data 10 "a"; Tick 100; Tick 200; Tick 300] 400).
  - reflexivity.
  - reflexivity.
  - reflexivity.
  - vm_compute. lia.
Defined.

(** C2, as stated, fails.  With one chunk received 10 ms after the command,
    the first three samples are byte-identical and the wait is still
    pending after the third.  With no output at all the wait completes at
    the third callback, 300 ms after the command, not after 900 ms.  And on
    a session whose buffer is already full the new output is always empty,
    so the wait completes 10 ms after a chunk arrived. *)
Lemma stability_three_samples_counterexample :
  let step := executeCommand_event StabilityPolicy DEFAULT_TIMEOUT in
  let w0 := arm (TerminalSession.issue "ls" 0 (new_session 0 "t" "/" 0%Z)) 0 in
  let full := feed (repeat "x" 1000) (new_session 0 "t" "/" 0%Z) in
  let w1 := arm (TerminalSession.issue "ls" 0 full) 0 in
  (samples step [Data 10 "a"; Tick 100; Tick 200; Tick 300] w0 = ["a"; "a"; "a"]
   /\ three_identical (samples step [Data 10 "a"; Tick 100; Tick 200; Tick 300] w0) = true
   /\ settled (run_events step [Data 10 "a"; Tick 100; Tick 200; Tick 300] w0) = Pending)
  /\ (settled (run_events step [Tick 100; Tick 200] w0) = Pending
      /\ settled (run_events step [Tick 100; Tick 200; Tick 300] w0)
         = Resolved "Command executed (no output)")
  /\ (on_schedule 0 100 [Tick 100; Tick 200; Data 290 "late"; Tick 300] = true
      /\ last_byte [Tick 100; Tick 200; Data 290 "late"] = Some 290%Z
      /\ settled (run_events step [Tick 100; Tick 200; Data 290 "late"] w1) = Pending
      /\ settled (run_events step [Tick 100; Tick 200; Data 290 "late"; Tick 300] w1)
         = Resolved "Command executed (no output)").
Proof. vm_compute. repeat split; reflexivity. Qed.

(** ** Theorems: the registry *)

Section MapFacts.
Context {K V : Type} `{EqDecision K}.
Implicit Types (m : list (K * V)) (k : K) (v : V).

Lemma map_get_set_eq k v m : map_get k (map_set k v m) = Some v.
Proof.
  induction m as [|[k' v'] m IH]; cbn.
  - now rewrite bool_decide_eq_true_2.
  - case_bool_decide as Hk; cbn.
    + now rewrite bool_decide_eq_true_2.
    + now rewrite bool_decide_eq_false_2.
Qed.

Lemma map_get_set_ne k k' v m : k <> k' -> map_get k' (map_set k v m) = map_get k' m.
Proof.
  intros Hne. induction m as [|[k0 v0] m IH]; cbn.
  - now rewrite bool_decide_eq_false_2.
  - destruct (decide (k0 = k)) as [->|Hk].
    + rewrite bool_decide_eq_true_2 by reflexivity. cbn.
      now rewrite !bool_decide_eq_false_2.
    + rewrite (bool_decide_eq_false_2 (k0 = k)) by exact Hk. cbn.
      now rewrite IH.
Qed.

Lemma map_get_delete_eq k m : map_get k (map_delete k m) = None.
Proof.
  induction m as [|[k' v'] m IH]; [reflexivity|]. cbn.
  destruct (decide (k' = k)) as [->|Hk].
  - now rewrite bool_decide_eq_true_2.
  - rewrite bool_decide_eq_false_2 by exact Hk. cbn.
    now rewrite bool_decide_eq_false_2.
Qed.

Lemma map_get_delete_ne k k' m : k <> k' -> map_get k' (map_delete k m) = map_get k' m.
Proof.
  intros Hne. induction m as [|[k0 v0] m IH]; [reflexivity|]. cbn.
  destruct (decide (k0 = k)) as [->|Hk].
  - rewrite bool_decide_eq_true_2 by reflexivity.
    now rewrite (bool_decide_eq_false_2 (k = k')).
  - rewrite (bool_decide_eq_false_2 (k0 = k)) by exact Hk. cbn. now rewrite IH.
Qed.

Lemma map_delete_filter k m : map_delete k m = filter (fun e => e.1 <> k) m.
Proof.
  induction m as [|[k' v'] m IH]; [reflexivity|]. cbn [map_delete].
  destruct (decide (k' = k)) as [->|Hk].
  - rewrite bool_decide_eq_true_2 by reflexivity.
    rewrite filter_cons_False by (cbn; tauto). exact IH.
  - rewrite bool_decide_eq_false_2 by exact Hk.
    rewrite filter_cons_True by exact Hk. now rewrite IH.
Qed.

Lemma map_get_None k m : map_get k m = None <-> k ∉ map fst m.
Proof.
  induction m as [|[k' v'] m IH]; cbn.
  - split; [intros _; apply not_elem_of_nil|auto].
  - rewrite not_elem_of_cons. destruct (decide (k' = k)) as [->|Hk].
    + rewrite bool_decide_eq_true_2 by reflexivity. split; [discriminate|tauto].
    + rewrite bool_decide_eq_false_2 by exact Hk. rewrite IH. split; [auto|tauto].
Qed.

Lemma map_get_Some_elem k v m : map_get k m = Some v -> (k, v) ∈ m.
Proof.
  induction m as [|[k' v'] m IH]; cbn; [discriminate|].
  case_bool_decide as Hk.
  - intros [= <-]. subst. apply elem_of_cons. now left.
  - intros Hg. apply elem_of_cons. right. auto.
Qed.

Lemma map_get_elem_NoDup k v m : NoDup (map fst m) -> (k, v) ∈ m -> map_get k m = Some v.
Proof.
  induction m as [|[k' v'] m IH]; cbn; intros Hnd Hin.
  - now apply elem_of_nil in Hin.
  - apply NoDup_cons in Hnd as [Hk' Hnd]. apply elem_of_cons in Hin as [[= -> ->]|Hin].
    + now rewrite bool_decide_eq_true_2.
    + rewrite bool_decide_eq_false_2; [auto|].
      intros ->. apply Hk'. apply list_elem_of_fmap. now exists (k, v).
Qed.

Lemma map_set_fresh k v m : map_get k m = None -> map_set k v m = m ++ [(k, v)].
Proof.
  induction m as [|[k' v'] m IH]; cbn; [reflexivity|].
  case_bool_decide as Hk; [discriminate|]. intros Hg. now rewrite IH.
Qed.

Lemma map_set_keys k v m : map_get k m <> None -> map fst (map_set k v m) = map fst m.
Proof.
  induction m as [|[k' v'] m IH]; cbn; [congruence|].
  case_bool_decide as Hk; cbn.
  - intros _. now subst.
  - intros Hg. now rewrite IH.
Qed.

End MapFacts.

(** ** Theorems: setup_project *)

Lemma createTerminal_registered name cwd w :
  map_get (uuid w) (terminals (createTerminal name cwd w).2)
    = Some (new_session (uuid w) name cwd (clock w))
  /\ procs (createTerminal name cwd w).2 !! uuid w = Some Running.
Proof.
  cbn. split; [apply map_get_set_eq|apply lookup_insert_eq].
Qed.

(** C10.  For a loaded project and a step index at or past the number of
    setup steps, [setup_project] throws a type error on the missing step,
    and it does so after the setup session has been created: the world it
    leaves is the one [createTerminal] produced, with the new session
    registered and its process running.  No check of the index comes
    before. *)
Theorem setup_project_missing_step
    (w : world) (project : ProjectConfig) (projectId : string) (stepIndex : Z) :
  map_get projectId (projects w) = Some project ->
  (Z.of_nat (length (ProjectConfig.setupSteps project)) <= stepIndex)%Z ->
  let name := ProjectConfig.name project +:+ "-setup" in
  let cwd := ProjectConfig.rootPath project in
  let w' := (setup_project projectId (Some stepIndex) w).1 in
  setup_project projectId (Some stepIndex) w = ((createTerminal name cwd w).2, inl TypeError)
  /\ map_get (uuid w) (terminals w') = Some (new_session (uuid w) name cwd (clock w))
  /\ procs w' !! uuid w = Some Running
  /\ effects w' = effects w ++ [Spawn (uuid w) cwd].
Proof.
  intros Hproj Hidx name cwd w'.
  assert (Hrun : setup_project projectId (Some stepIndex) w
                 = ((createTerminal name cwd w).2, inl TypeError)).
  { unfold setup_project. rewrite Hproj. cbn [createTerminal].
    unfold js_index. rewrite bool_decide_eq_true_2 by lia.
    rewrite (lookup_ge_None_2 (ProjectConfig.setupSteps project)) by lia.
    reflexivity. }
  split; [exact Hrun|]. unfold w'. rewrite Hrun. cbn [fst].
  destruct (createTerminal_registered name cwd w) as [Hreg Hproc].
  split; [exact Hreg|]. split; [exact Hproc|]. reflexivity.
Qed.

Lemma setup_project_missing_step_witness :
  let w := (load_project shop init_world).1 in
  setup_project "shop" (Some 1%Z) w
    = ((createTerminal "shop-setup" "/srv/shop" w).2, inl TypeError)
  /\ map_get 0 (terminals (setup_project "shop" (Some 1%Z) w).1)
     = Some (new_session 0 "shop-setup" "/srv/shop" 0%Z)
  /\ procs (setup_project "shop" (Some 1%Z) w).1 !! 0 = Some Running
  /\ effects (setup_project "shop" (Some 1%Z) w).1 = [Spawn 0 "/srv/shop"].
Proof.
  apply (setup_project_missing_step (load_project shop init_world).1 shop "shop" 1%Z).
  - reflexivity.
  - cbn. lia.
Defined.

(** ** Theorems: stop_project *)

Section StopProject.

Lemma filter_ext_in {A} (P1 P2 : A -> Prop)
    `{!forall x, Decision (P1 x)} `{!forall x, Decision (P2 x)} (l : list A) :
  (forall x, x ∈ l -> P1 x <-> P2 x) -> filter P1 l = filter P2 l.
Proof.
  induction l as [|x l IH]; intros Hext; [reflexivity|].
  rewrite !filter_cons.
  assert (Hx : P1 x <-> P2 x) by (apply Hext, elem_of_cons; now left).
  rewrite IH by (intros y Hy; apply Hext, elem_of_cons; now right).
  destruct (decide (P1 x)), (decide (P2 x)); tauto.
Qed.

Lemma close_all_terminals toClose : forall w,
  terminals (close_all toClose w)
    = filter (fun e => e.1 ∉ map TerminalSession.id toClose) (terminals w).
Proof.
  induction toClose as [|t toClose IH]; intros w.
  - cbn. induction (terminals w) as [|e r IHr]; [reflexivity|].
    rewrite filter_cons_True by apply not_elem_of_nil. now rewrite <- IHr.
  - change (close_all (t :: toClose) w) with (close_all toClose (close_one w t)).
    rewrite IH. cbn [close_one kill_and_delete terminals set_terminals pty_kill].
    rewrite map_delete_filter, list_filter_filter.
    apply list_filter_iff. intros [k s]. cbn. rewrite not_elem_of_cons. tauto.
Qed.

Lemma close_all_effects toClose : forall w,
  effects (close_all toClose w)
    = effects w ++ map (fun t => PtyKill (TerminalSession.id t)) toClose.
Proof.
  induction toClose as [|t toClose IH]; intros w.
  - cbn. now rewrite app_nil_r.
  - change (close_all (t :: toClose) w) with (close_all toClose (close_one w t)).
    rewrite IH. cbn. now rewrite <- app_assoc.
Qed.

Lemma pty_kill_procs id k w :
  procs (pty_kill id w) !! k
    = if bool_decide (k = id /\ procs w !! id = Some Running) then Some Killed
      else procs w !! k.
Proof.
  cbn. destruct (procs w !! id) as [[| |]|] eqn:Hst;
    try (rewrite bool_decide_eq_false_2 by (intros [_ ?]; congruence); reflexivity).
  destruct (decide (k = id)) as [->|Hne].
  - rewrite bool_decide_eq_true_2 by auto. apply lookup_insert_eq.
  - rewrite bool_decide_eq_false_2 by tauto. now apply lookup_insert_ne.
Qed.

Lemma close_all_procs_other toClose k : forall w,
  k ∉ map TerminalSession.id toClose ->
  procs (close_all toClose w) !! k = procs w !! k.
Proof.
  induction toClose as [|t toClose IH]; intros w Hk; [reflexivity|].
  change (close_all (t :: toClose) w) with (close_all toClose (close_one w t)).
  cbn [map] in Hk. apply not_elem_of_cons in Hk as [Hne Hk].
  rewrite IH by exact Hk.
  change (procs (close_one w t)) with (procs (pty_kill (TerminalSession.id t) w)).
  rewrite pty_kill_procs. now rewrite bool_decide_eq_false_2 by tauto.
Qed.

Lemma close_all_not_running toClose k : forall w,
  procs w !! k <> Some Running ->
  procs (close_all toClose w) !! k <> Some Running.
Proof.
  induction toClose as [|t toClose IH]; intros w Hk; [exact Hk|].
  change (close_all (t :: toClose) w) with (close_all toClose (close_one w t)).
  apply IH.
  change (procs (close_one w t)) with (procs (pty_kill (TerminalSession.id t) w)).
  rewrite pty_kill_procs. case_bool_decide; [discriminate|exact Hk].
Qed.

Lemma close_all_killed toClose k : forall w,
  k ∈ map TerminalSession.id toClose ->
  procs (close_all toClose w) !! k <> Some Running.
Proof.
  induction toClose as [|t toClose IH]; intros w Hk.
  - now apply elem_of_nil in Hk.
  - change (close_all (t :: toClose) w) with (close_all toClose (close_one w t)).
    destruct (decide (k = TerminalSession.id t)) as [->|Hne].
    + apply close_all_not_running.
      change (procs (close_one w t)) with (procs (pty_kill (TerminalSession.id t) w)).
      rewrite pty_kill_procs. case_bool_decide as Hc; [discriminate|].
      intros Hrun. apply Hc. split; [reflexivity|].
      exact Hrun.
    + cbn [map] in Hk. apply elem_of_cons in Hk as [?|Hk]; [contradiction|].
      now apply IH.
Qed.

(** In a well-formed registry the identifiers collected for closing are
    the keys of the owned sessions. *)
Lemma toClose_ids project w k t :
  registry_wf (terminals w) ->
  (k, t) ∈ terminals w ->
  k ∈ map TerminalSession.id (terminalsToClose project w) <-> owned_by project t = true.
Proof.
  intros [Hnd Hid] Hin. rewrite Forall_forall in Hid. unfold terminalsToClose. split.
  - intros Hk. apply list_elem_of_fmap in Hk as (t' & Hk & Ht').
    apply list_elem_of_fmap in Ht' as ([k' t''] & -> & He).
    apply list_elem_of_filter in He as [Hown He]. cbn in *.
    pose proof (Hid _ He) as Hk'. cbn in Hk'. subst k'. rewrite <- Hk in *.
    pose proof (map_get_elem_NoDup _ _ _ Hnd Hin) as H1.
    pose proof (map_get_elem_NoDup _ _ _ Hnd He) as H2.
    congruence.
  - intros Hown. apply list_elem_of_fmap. exists t. split; [symmetry; exact (Hid _ Hin)|].
    apply list_elem_of_fmap. exists (k, t). split; [reflexivity|].
    apply list_elem_of_filter. auto.
Qed.

End StopProject.

(** C6.  In a well-formed registry, [stop_project] kills exactly the
    sessions whose name starts with the project name followed by a dash and
    removes them; the registry it leaves is the old one without those
    entries, so every other session is still registered, unchanged, with
    its process untouched. *)
Theorem stop_project_closes_prefixed
    (w : world) (project : ProjectConfig) (projectId : string) :
  registry_wf (terminals w) ->
  map_get projectId (projects w) = Some project ->
  let w' := (stop_project projectId w).1 in
  terminals w' = filter (fun e => owned_by project e.2 = false) (terminals w)
  /\ effects w'
     = effects w ++ map (fun t => PtyKill (TerminalSession.id t)) (terminalsToClose project w)
  /\ forall k t, (k, t) ∈ terminals w ->
       if owned_by project t
       then PtyKill k ∈ effects w' /\ map_get k (terminals w') = None
            /\ procs w' !! k <> Some Running
       else (PtyKill k ∉ map (fun t => PtyKill (TerminalSession.id t))
                           (terminalsToClose project w))
            /\ map_get k (terminals w') = Some t
            /\ procs w' !! k = procs w !! k.
Proof.
  intros Hwf Hproj w'.
  assert (Hw' : w' = close_all (terminalsToClose project w) w).
  { unfold w', stop_project. now rewrite Hproj. }
  assert (Hterm : terminals w' = filter (fun e => owned_by project e.2 = false) (terminals w)).
  { rewrite Hw', close_all_terminals. apply filter_ext_in. intros [k t] Hin. cbn.
    rewrite (toClose_ids project w k t Hwf Hin). destruct (owned_by project t); split; congruence. }
  assert (Heff : effects w' = effects w ++
            map (fun t => PtyKill (TerminalSession.id t)) (terminalsToClose project w)).
  { rewrite Hw'. apply close_all_effects. }
  split; [exact Hterm|]. split; [exact Heff|].
  intros k t Hin. pose proof (toClose_ids project w k t Hwf Hin) as Hids.
  destruct Hwf as [Hnd Hid].
  destruct (owned_by project t) eqn:Hown.
  - assert (Hk : k ∈ map TerminalSession.id (terminalsToClose project w)) by now apply Hids.
    split; [|split].
    + rewrite Heff. apply elem_of_app. right.
      apply list_elem_of_fmap in Hk as (t' & -> & Ht').
      apply list_elem_of_fmap. now exists t'.
    + apply map_get_None. rewrite Hterm. intros Hmem.
      apply list_elem_of_fmap in Hmem as ([k' t'] & Hk' & He). cbn in Hk'. subst k'.
      apply list_elem_of_filter in He as [Hno He]. cbn in Hno.
      pose proof (map_get_elem_NoDup _ _ _ Hnd Hin) as H1.
      pose proof (map_get_elem_NoDup _ _ _ Hnd He) as H2.
      congruence.
    + rewrite Hw'. now apply close_all_killed.
  - assert (Hk : k ∉ map TerminalSession.id (terminalsToClose project w)).
    { intros Hk. apply Hids in Hk. discriminate. }
    split; [|split].
    + intros Hmem. apply Hk.
      apply list_elem_of_fmap in Hmem as (t' & [= ->] & Ht').
      apply list_elem_of_fmap. now exists t'.
    + apply map_get_elem_NoDup.
      * rewrite Hterm. clear -Hnd. induction (terminals w) as [|e r IH]; [constructor|].
        cbn in Hnd. apply NoDup_cons in Hnd as [Hne Hnd]. rewrite filter_cons.
        destruct (decide _); [|auto]. cbn. apply NoDup_cons. split; [|auto].
        intros Hmem. apply Hne. apply list_elem_of_fmap in Hmem as (e' & -> & He').
        apply list_elem_of_filter in He' as [_ He']. apply list_elem_of_fmap. now exists e'.
      * rewrite Hterm. apply list_elem_of_filter. auto.
    + rewrite Hw'. now apply close_all_procs_other.
Qed.

Lemma stop_project_closes_prefixed_witness :
  let w := default init_world
             (run_world [Call 0 (ReqLoadProject shop); Call 0 (ReqLoadProject other);
                         Call 5 (ReqStartProject "shop" (Some ["api"]));
                         Call 5 (ReqStartProject "other" None)] init_world) in
  let w' := (stop_project "shop" w).1 in
  terminals w' = filter (fun e => owned_by shop e.2 = false) (terminals w)
  /\ effects w'
     = effects w ++ map (fun t => PtyKill (TerminalSession.id t)) (terminalsToClose shop w)
  /\ forall k t, (k, t) ∈ terminals w ->
       if owned_by shop t
       then PtyKill k ∈ effects w' /\ map_get k (terminals w') = None
            /\ procs w' !! k <> Some Running
       else (PtyKill k ∉ map (fun t => PtyKill (TerminalSession.id t))
                           (terminalsToClose shop w))
            /\ map_get k (terminals w') = Some t
            /\ procs w' !! k = procs w !! k.
Proof.
  apply (stop_project_closes_prefixed _ shop "shop").
  - apply (bool_decide_unpack _). vm_compute. exact I.
  - vm_compute. reflexivity.
Defined.

(** The sessions left after stopping [shop] next to [other]. *)
Example stop_shop_keeps_other :
  let w := default init_world
             (run_world [Call 0 (ReqLoadProject shop); Call 0 (ReqLoadProject other);
                         Call 5 (ReqStartProject "shop" (Some ["api"]));
                         Call 5 (ReqStartProject "other" None)] init_world) in
  map (fun e => TerminalSession.name e.2) (terminals w) = ["shop-db"; "shop-api"; "other-api"]
  /\ map (fun e => TerminalSession.name e.2) (terminals (stop_project "shop" w).1)
     = ["other-api"].
Proof. vm_compute. auto. Qed.

(** ** Theorems: the registry and the processes *)

Section Stable.

Variable P : world -> Prop.
Hypothesis HP : stable P.

Lemma stable_close_all toClose : forall w, P w -> P (close_all toClose w).
Proof.
  induction toClose as [|t toClose IH]; intros w Hw; [exact Hw|].
  change (close_all (t :: toClose) w) with (close_all toClose (close_one w t)).
  apply IH. unfold close_one. now apply stable_kill.
Qed.

Lemma stable_run_setup_steps project terminal stepIndex stepsToRun :
  forall i results w,
    P w -> P (run_setup_steps project terminal stepIndex i stepsToRun results w).1.
Proof.
  induction stepsToRun as [|[step|] rest IH]; intros i results w Hw; cbn; try exact Hw.
  apply IH. now apply stable_sleep, stable_write.
Qed.

Lemma stable_launch project service command st :
  P (st_world st) -> P (st_world (launch project service command st)).
Proof.
  intros Hw. unfold launch.
  destruct (createTerminal _ _ (st_world st)) as [terminal w1] eqn:Hc.
  cbn [st_world]. apply stable_sleep, stable_write; [exact HP..|].
  assert (Hw1 : P w1).
  { replace w1 with (createTerminal (session_name project service)
                       (path_join (ProjectConfig.rootPath project)
                          (ProjectService.path service)) (st_world st)).2
      by now rewrite Hc.
    now apply stable_create. }
  revert Hw1. generalize w1.
  induction (default [] (ProjectService.envVars service)) as [|kv l IH]; intros w2 Hw2;
    [exact Hw2|].
  cbn [foldl]. apply IH. now apply stable_write.
Qed.

Lemma stable_start_dependencies project recur deps :
  (forall s st st', P (st_world st) -> recur s st = Some st' -> P (st_world st')) ->
  forall st st', P (st_world st) ->
    start_dependencies project recur deps st = Some st' -> P (st_world st').
Proof.
  intros Hrec. induction deps as [|dep deps IH]; intros st st' Hw Hrun; cbn in Hrun.
  - now injection Hrun as <-.
  - destruct (find_service project dep) as [depService|]; [|eauto].
    case_bool_decide; [eauto|].
    destruct (recur depService st) as [st1|] eqn:Hr; [|discriminate]. eauto.
Qed.

Lemma stable_startService project fuel : forall service st st',
  P (st_world st) -> startService project fuel service st = Some st' -> P (st_world st').
Proof.
  induction fuel as [|fuel IH]; intros service st st' Hw Hrun; [discriminate|].
  cbn [startService] in Hrun. case_bool_decide; [now injection Hrun as <-|].
  destruct (match ProjectService.dependsOn service with
            | Some deps => start_dependencies project (startService project fuel) deps st
            | None => Some st
            end) as [st1|] eqn:Hdeps; [|discriminate].
  assert (Hw1 : P (st_world st1)).
  { destruct (ProjectService.dependsOn service) as [deps|].
    - eapply stable_start_dependencies; [|exact Hw|exact Hdeps]. exact IH.
    - now injection Hdeps as <-. }
  destruct (ProjectService.startCommand service) as [c|]; [|now injection Hrun as <-].
  case_bool_decide; injection Hrun as <-; [exact Hw1|]. now apply stable_launch.
Qed.

Lemma stable_start_services project fuel targets : forall st st',
  P (st_world st) -> start_services project fuel targets st = Some st' -> P (st_world st').
Proof.
  induction targets as [|s targets IH]; intros st st' Hw Hrun; cbn in Hrun.
  - now injection Hrun as <-.
  - destruct (startService project fuel s st) as [st1|] eqn:Hs; [|discriminate].
    eapply IH; [|exact Hrun]. eapply stable_startService; eauto.
Qed.

Lemma stable_handleTool fuel req w w' r :
  P w -> handleTool fuel req w = Some (w', r) -> P w'.
Proof.
  intros Hw Hrun. destruct req; cbn [handleTool] in Hrun.
  - injection Hrun as Hrun. unfold create_terminal in Hrun.
    case_bool_decide; [congruence|].
    destruct (createTerminal name _ w) as [t w1] eqn:Hc. injection Hrun as <- _.
    replace w1 with (createTerminal name (default "." cwd) w).2 by now rewrite Hc.
    now apply stable_create.
  - injection Hrun as Hrun. unfold close_terminal in Hrun.
    destruct (map_get terminalId (terminals w)); injection Hrun as <- _; [|exact Hw].
    now apply stable_kill.
  - injection Hrun as Hrun. unfold send_input in Hrun.
    destruct (map_get terminalId (terminals w)); injection Hrun as <- _; [|exact Hw].
    now apply stable_write.
  - injection Hrun as Hrun. unfold load_project in Hrun.
    destruct (_ || _); injection Hrun as <- _; [exact Hw|]. now apply stable_projects.
  - injection Hrun as Hrun. unfold setup_project in Hrun.
    destruct (map_get projectId (projects w)) as [project|]; [|now injection Hrun as <- _].
    destruct (createTerminal _ _ w) as [t w1] eqn:Hc.
    assert (Hw1 : P w1).
    { replace w1 with (createTerminal (ProjectConfig.name project +:+ "-setup")
                         (ProjectConfig.rootPath project) w).2 by now rewrite Hc.
      now apply stable_create. }
    match type of Hrun with
    | context [run_setup_steps ?p ?t ?k ?i ?l ?rs ?w0] =>
        pose proof (stable_run_setup_steps p t k l i rs w0 Hw1) as Hsteps;
        destruct (run_setup_steps p t k i l rs w0) as [w2 [e|rs']]
    end; injection Hrun as <- _; exact Hsteps.
  - unfold start_project in Hrun.
    destruct (map_get projectId (projects w)) as [project|]; [|now injection Hrun as <- _].
    destruct (start_found project fuel serviceNames w) as [st|] eqn:Hst; [|discriminate].
    injection Hrun as <- _. unfold start_found in Hst.
    eapply stable_start_services; [|exact Hst]. exact Hw.
  - injection Hrun as Hrun. unfold stop_project in Hrun.
    destruct (map_get projectId (projects w)) as [project|]; injection Hrun as <- _;
      [|exact Hw].
    now apply stable_close_all.
  - injection Hrun as Hrun. unfold execute_project_command in Hrun.
    destruct (map_get projectId (projects w)) as [project|]; [|now injection Hrun as <- _].
    destruct (truthy _); [|now injection Hrun as <- _].
    destruct (createTerminal _ _ w) as [t w1] eqn:Hc. injection Hrun as <- _.
    apply stable_write; [exact HP|].
    replace w1 with (createTerminal (ProjectConfig.name project +:+ "-" +:+ commandKey)
                       (ProjectConfig.rootPath project) w).2 by now rewrite Hc.
    now apply stable_create.
  - injection Hrun as Hrun. unfold execute_service_command in Hrun.
    destruct (map_get projectId (projects w)) as [project|]; [|now injection Hrun as <- _].
    destruct (find_service project serviceName) as [service|]; [|now injection Hrun as <- _].
    destruct (truthy _); [|now injection Hrun as <- _].
    destruct (createTerminal _ _ w) as [t w1] eqn:Hc. injection Hrun as <- _.
    apply stable_write; [exact HP|].
    match type of Hc with
    | createTerminal ?n ?c w = _ => replace w1 with (createTerminal n c w).2 by now rewrite Hc
    end.
    now apply stable_create.
Qed.

Lemma stable_step ev w w' : P w -> step_world ev w = Some w' -> P w'.
Proof.
  intros Hw Hstep. destruct ev; cbn [step_world] in Hstep.
  - destruct (handleTool fuel req w) as [[w1 r]|] eqn:Hh; [|discriminate].
    injection Hstep as <-. eapply stable_handleTool; eauto.
  - injection Hstep as <-. now apply stable_issue.
  - injection Hstep as <-. now apply stable_data.
  - injection Hstep as <-. now apply stable_exit.
Qed.

Lemma stable_run evs : forall w w', P w -> run_world evs w = Some w' -> P w'.
Proof.
  induction evs as [|ev evs IH]; intros w w' Hw Hrun; cbn in Hrun.
  - now injection Hrun as <-.
  - destruct (step_world ev w) as [w1|] eqn:Hs; [|discriminate].
    eapply IH; [|exact Hrun]. eapply stable_step; eauto.
Qed.

End Stable.

Section WorldInvariant.

Lemma registry_wf_delete k r : registry_wf r -> registry_wf (map_delete k r).
Proof.
  intros [Hnd Hid]. rewrite map_delete_filter. split.
  - clear Hid. induction r as [|e r IH]; [constructor|].
    cbn in Hnd. apply NoDup_cons in Hnd as [Hne Hnd]. rewrite filter_cons.
    destruct (decide _); [|auto]. cbn. apply NoDup_cons. split; [|auto].
    intros Hmem. apply Hne. apply list_elem_of_fmap in Hmem as (e' & -> & He').
    apply list_elem_of_filter in He' as [_ He']. apply list_elem_of_fmap. now exists e'.
  - rewrite Forall_forall in *. intros e He.
    apply list_elem_of_filter in He as [_ He]. auto.
Qed.

Lemma registry_wf_update k s s' r :
  registry_wf r -> map_get k r = Some s -> TerminalSession.id s' = k ->
  registry_wf (map_set k s' r).
Proof.
  intros [Hnd Hid] Hget Hs'. split.
  - rewrite map_set_keys by congruence. exact Hnd.
  - clear Hnd. induction r as [|[k0 s0] r IH]; cbn in *; [discriminate|].
    apply Forall_cons in Hid as [H0 Hid]. case_bool_decide as Hk.
    + apply Forall_cons. split; [exact Hs'|exact Hid].
    + apply Forall_cons. split; [exact H0|auto].
Qed.

Lemma registry_wf_fresh k s r :
  registry_wf r -> map_get k r = None -> TerminalSession.id s = k ->
  registry_wf (map_set k s r).
Proof.
  intros [Hnd Hid] Hget Hs. rewrite map_set_fresh by exact Hget. split.
  - rewrite map_app. cbn. apply NoDup_app. split; [exact Hnd|].
    split; [|apply NoDup_singleton].
    intros x Hx Hx'. apply list_elem_of_singleton in Hx'. subst x.
    now apply map_get_None in Hget.
  - apply Forall_app. split; [exact Hid|]. apply Forall_singleton. exact Hs.
Qed.

Lemma world_inv_update id s s' w :
  world_inv w -> map_get id (terminals w) = Some s -> TerminalSession.id s' = id ->
  world_inv (set_terminals (map_set id s' (terminals w)) w).
Proof.
  intros (Hwf & Hreg & Hfresh) Hget Hs'. split; [|split]; cbn.
  - eapply registry_wf_update; eauto.
  - intros k. destruct (decide (id = k)) as [->|Hne].
    + rewrite map_get_set_eq, <- Hreg, Hget. split; eauto.
    + rewrite map_get_set_ne by exact Hne. apply Hreg.
  - exact Hfresh.
Qed.

Lemma world_inv_registered w k s :
  world_inv w -> map_get k (terminals w) = Some s -> TerminalSession.id s = k.
Proof.
  intros ([_ Hid] & _) Hget. apply map_get_Some_elem in Hget.
  rewrite Forall_forall in Hid. exact (Hid _ Hget).
Qed.

Lemma world_inv_stable : stable world_inv.
Proof.
  constructor.
  - intros name cwd w (Hwf & Hreg & Hfresh).
    assert (Hnone : map_get (uuid w) (terminals w) = None).
    { destruct (map_get (uuid w) (terminals w)) eqn:Hg; [|reflexivity].
      assert (Hs : is_Some (map_get (uuid w) (terminals w))) by (rewrite Hg; eauto).
      apply Hreg in Hs. rewrite Hfresh in Hs by lia. discriminate. }
    split; [|split]; cbn.
    + now apply registry_wf_fresh.
    + intros k. destruct (decide (uuid w = k)) as [<-|Hne].
      * rewrite map_get_set_eq, lookup_insert_eq. split; eauto.
      * rewrite map_get_set_ne, lookup_insert_ne by exact Hne. apply Hreg.
    + intros k Hk. rewrite lookup_insert_ne by lia. apply Hfresh. lia.
  - intros id text w Hw. exact Hw.
  - intros ms w Hw. exact Hw.
  - intros id w (Hwf & Hreg & Hfresh). split; [|split].
    + now apply registry_wf_delete.
    + intros k. change (procs (kill_and_delete id w)) with (procs (pty_kill id w)).
      change (terminals (kill_and_delete id w)) with (map_delete id (terminals w)).
      rewrite pty_kill_procs. destruct (decide (id = k)) as [->|Hne].
      * rewrite map_get_delete_eq. case_bool_decide as Hc.
        -- split; [intros [? ?]|]; discriminate.
        -- split; [intros [? ?]; discriminate|]. intros Hrun. exfalso. apply Hc. auto.
      * rewrite map_get_delete_ne by exact Hne.
        rewrite bool_decide_eq_false_2 by (intros [-> _]; congruence). apply Hreg.
    + intros k Hk. change (procs (kill_and_delete id w)) with (procs (pty_kill id w)).
      rewrite pty_kill_procs. case_bool_decide as Hc; [|now apply Hfresh].
      destruct Hc as [-> Hrun]. rewrite Hfresh in Hrun by exact Hk. discriminate.
  - intros p w Hw. exact Hw.
  - intros id w (Hwf & Hreg & Hfresh). unfold on_exit.
    assert (Hgoal : world_inv (mk_world (map_delete id (terminals w)) (projects w)
                                 (<[id := Exited]> (procs w)) (effects w) (uuid w) (clock w))
                    \/ procs w !! id = None).
    { destruct (procs w !! id) as [st|] eqn:Hst; [left|now right].
      split; [|split]; cbn.
      - now apply registry_wf_delete.
      - intros k. destruct (decide (id = k)) as [->|Hne].
        + rewrite map_get_delete_eq, lookup_insert_eq.
          split; [intros [? ?]|]; discriminate.
        + rewrite map_get_delete_ne, lookup_insert_ne by exact Hne. apply Hreg.
      - intros k Hk. destruct (decide (id = k)) as [->|Hne].
        + rewrite Hfresh in Hst by exact Hk. discriminate.
        + rewrite lookup_insert_ne by exact Hne. now apply Hfresh. }
    destruct (procs w !! id) as [[| |]|] eqn:Hst;
      try (destruct Hgoal as [Hgoal|Hgoal]; [exact Hgoal|discriminate]);
      exact (conj Hwf (conj Hreg Hfresh)).
  - intros id chunk w Hw. unfold on_data.
    destruct (map_get id (terminals w)) as [s|] eqn:Hget; [|exact Hw].
    eapply world_inv_update; [exact Hw|exact Hget|].
    exact (world_inv_registered w id s Hw Hget).
  - intros id command w Hw. unfold execute_command_sync.
    destruct (map_get id (terminals w)) as [s|] eqn:Hget; [|exact Hw].
    assert (Hup : world_inv (set_terminals
              (map_set id (TerminalSession.issue command (clock w) s) (terminals w)) w)).
    { eapply world_inv_update; [exact Hw|exact Hget|].
      exact (world_inv_registered w id s Hw Hget). }
    exact Hup.
Qed.

Lemma world_inv_init : world_inv init_world.
Proof.
  split; [|split]; cbn.
  - split; constructor.
  - intros k. rewrite lookup_empty. split; [intros [? ?]|]; discriminate.
  - intros k _. apply lookup_empty.
Qed.

(** A dead process stays dead, and the invariant with it. *)
Lemma dead_stable k : stable (fun w => world_inv w /\ dead k w).
Proof.
  pose proof world_inv_stable as HS. unfold dead.
  constructor.
  - intros name cwd w [Hw Hd]. split; [now apply stable_create|].
    destruct Hw as (_ & _ & Hfresh). cbn.
    rewrite lookup_insert_ne; [exact Hd|].
    intros <-. rewrite Hfresh in Hd by lia. destruct Hd; discriminate.
  - intros id text w [Hw Hd]. split; [now apply stable_write|exact Hd].
  - intros ms w [Hw Hd]. split; [now apply stable_sleep|exact Hd].
  - intros id w [Hw Hd]. split; [now apply stable_kill|].
    change (procs (kill_and_delete id w)) with (procs (pty_kill id w)).
    rewrite pty_kill_procs. case_bool_decide as Hc; [now left|exact Hd].
  - intros p w [Hw Hd]. split; [now apply stable_projects|exact Hd].
  - intros id w [Hw Hd]. split; [now apply stable_exit|].
    unfold on_exit. destruct (procs w !! id) as [[| |]|] eqn:Hst; try exact Hd; cbn.
    + destruct (decide (id = k)) as [->|Hne];
        [rewrite lookup_insert_eq; now right|now rewrite lookup_insert_ne].
    + destruct (decide (id = k)) as [->|Hne];
        [rewrite lookup_insert_eq; now right|now rewrite lookup_insert_ne].
  - intros id chunk w [Hw Hd]. split; [now apply stable_data|].
    unfold on_data. now destruct (map_get id (terminals w)).
  - intros id command w [Hw Hd]. split; [now apply stable_issue|].
    unfold execute_command_sync. now destruct (map_get id (terminals w)).
Qed.

Lemma dead_unresolvable k w : world_inv w -> dead k w -> map_get k (terminals w) = None.
Proof.
  intros (_ & Hreg & _) Hd. destruct (map_get k (terminals w)) eqn:Hg; [|reflexivity].
  assert (Hs : is_Some (map_get k (terminals w))) by (rewrite Hg; eauto).
  apply Hreg in Hs. destruct Hd; congruence.
Qed.

End WorldInvariant.

(** C7.  In every world the server can reach, an identifier is resolvable
    exactly when its process is running, that is spawned and neither killed
    nor exited.  Closing a resolvable terminal,
    or the exit of its process, removes the identifier, and whatever
    happens afterwards no lookup finds it again.  A session that has just
    been created is resolvable. *)
Theorem registry_tracks_live_processes (evs : list world_event) (w : world) :
  run_world evs init_world = Some w ->
  (forall id, is_Some (map_get id (terminals w)) <-> procs w !! id = Some Running)
  /\ (forall id, is_Some (map_get id (terminals w)) ->
        let closed := (close_terminal id w).1 in
        let exited := on_exit id w in
        map_get id (terminals closed) = None
        /\ map_get id (terminals exited) = None
        /\ forall later w',
             run_world later closed = Some w' \/ run_world later exited = Some w' ->
             map_get id (terminals w') = None)
  /\ (forall name cwd,
        map_get (uuid w) (terminals (createTerminal name cwd w).2)
        = Some (new_session (uuid w) name cwd (clock w))).
Proof.
  intros Hrun.
  assert (Hinv : world_inv w)
    by exact (stable_run world_inv world_inv_stable evs _ _ world_inv_init Hrun).
  split; [exact (proj1 (proj2 Hinv))|]. split.
  - intros id Hs closed exited.
    pose proof (proj1 (proj1 (proj2 Hinv) id) Hs) as Hrunning.
    assert (Hclosed : world_inv closed /\ dead id closed).
    { unfold closed, close_terminal. destruct Hs as [s Hs]. rewrite Hs. cbn [fst].
      split; [now apply (stable_kill _ world_inv_stable)|].
      left. change (procs (kill_and_delete id w)) with (procs (pty_kill id w)).
      rewrite pty_kill_procs. now rewrite bool_decide_eq_true_2. }
    assert (Hexited : world_inv exited /\ dead id exited).
    { split; [now apply (stable_exit _ world_inv_stable)|].
      right. unfold exited, on_exit. rewrite Hrunning. cbn. apply lookup_insert_eq. }
    split; [now apply dead_unresolvable|]. split; [now apply dead_unresolvable|].
    intros later w' [Hlater|Hlater].
    + destruct (stable_run _ (dead_stable id) later _ _ Hclosed Hlater).
      now apply dead_unresolvable.
    + destruct (stable_run _ (dead_stable id) later _ _ Hexited Hlater).
      now apply dead_unresolvable.
  - intros name cwd. apply createTerminal_registered.
Qed.

Lemma registry_tracks_live_processes_witness :
  let w := (create_terminal "build" None init_world).1 in
  (forall id, is_Some (map_get id (terminals w)) <-> procs w !! id = Some Running)
  /\ (forall id, is_Some (map_get id (terminals w)) ->
        let closed := (close_terminal id w).1 in
        let exited := on_exit id w in
        map_get id (terminals closed) = None
        /\ map_get id (terminals exited) = None
        /\ forall later w',
             run_world later closed = Some w' \/ run_world later exited = Some w' ->
             map_get id (terminals w') = None)
  /\ (forall name cwd,
        map_get (uuid w) (terminals (createTerminal name cwd w).2)
        = Some (new_session (uuid w) name cwd (clock w))).
Proof.
  apply (registry_tracks_live_processes [Call 0 (ReqCreateTerminal "build" None)]).
  reflexivity.
Defined.

(** ** Theorems: start_project *)

Lemma NoDup_map_unique {A B} (f : A -> B) (l : list A) (x y : A) :
  NoDup (map f l) -> x ∈ l -> y ∈ l -> f x = f y -> x = y.
Proof.
  induction l as [|a l IH]; intros Hnd Hx Hy Heq.
  - now apply elem_of_nil in Hx.
  - cbn in Hnd. apply NoDup_cons in Hnd as [Ha Hnd].
    apply elem_of_cons in Hx as [->|Hx]; apply elem_of_cons in Hy as [->|Hy].
    + reflexivity.
    + exfalso. apply Ha. rewrite Heq. apply list_elem_of_fmap. now exists y.
    + exfalso. apply Ha. rewrite <- Heq. apply list_elem_of_fmap. now exists x.
    + now apply IH.
Qed.

Section StartOrder.

Variable project : ProjectConfig.
Variable rank : ProjectService -> nat.
Variable e0 : list effect.

Hypothesis Hnames : unique_names project.
Hypothesis Hrank : forall s dep d,
  s ∈ ProjectConfig.services project -> dep ∈ dependencies s ->
  find_service project dep = Some d -> rank d < rank s.

Local Abbreviation services := (ProjectConfig.services project).

Lemma find_service_Some dep d :
  find_service project dep = Some d -> d ∈ services /\ ProjectService.name d = dep.
Proof.
  intros Hf. apply find_some in Hf as [Hin Hname].
  split; [now apply list_elem_of_In|now apply bool_decide_eq_true_1 in Hname].
Qed.

Lemma unique_by_name s s' :
  s ∈ services -> s' ∈ services -> ProjectService.name s = ProjectService.name s' -> s = s'.
Proof. exact (NoDup_map_unique ProjectService.name services s s' Hnames). Qed.

Lemma session_name_inj s s' :
  session_name project s = session_name project s' ->
  ProjectService.name s = ProjectService.name s'.
Proof.
  unfold session_name. intros H.
  apply (inj (String.append (ProjectConfig.name project))) in H.
  now apply (inj (String.append "-")) in H.
Qed.

Lemma session_of_unique s s' t :
  s ∈ services -> s' ∈ services ->
  session_of project s t -> session_of project s' t -> s = s'.
Proof.
  unfold session_of. intros Hs Hs' H H'.
  apply unique_by_name; [assumption..|]. apply session_name_inj. congruence.
Qed.

Lemma launched_in_mono log log' created created' d c :
  launched_in project log created d c ->
  launched_in project (log ++ log') (created ++ created') d c.
Proof.
  intros (t & cwd & Ht & Hs & Hsp & Hwr). exists t, cwd.
  repeat split; try assumption; apply elem_of_app; now left.
Qed.

Lemma launched_in_created log created created' d c :
  launched_in project log created d c ->
  launched_in project log (created ++ created') d c.
Proof.
  intros (t & cwd & Ht & Hs & Hsp & Hwr). exists t, cwd.
  repeat split; try assumption. apply elem_of_app; now left.
Qed.

(** *** One launch *)

Lemma foldl_pty_write_effects (id : nat) (mk : string * string -> string) env : forall w,
  let w' := foldl (fun w kv => pty_write id (mk kv) w) w env in
  effects w' = effects w ++ map (fun kv => PtyWrite id (mk kv)) env
  /\ uuid w' = uuid w /\ terminals w' = terminals w /\ procs w' = procs w
  /\ clock w' = clock w /\ projects w' = projects w.
Proof.
  induction env as [|kv env IH]; intros w; cbn.
  - now rewrite app_nil_r.
  - destruct (IH (pty_write id (mk kv) w)) as (He & Hu & Ht & Hp & Hc & Hpr).
    cbn in *. rewrite He, <- app_assoc. repeat split; assumption.
Qed.

Lemma launch_effects_eq s c st :
  effects (st_world (launch project s c st))
    = effects (st_world st) ++ launch_effects project s c (uuid (st_world st))
  /\ uuid (st_world (launch project s c st)) = S (uuid (st_world st)).
Proof.
  unfold launch, launch_effects. cbn [createTerminal TerminalSession.id new_session].
  match goal with
  | |- context [foldl ?f ?w1 ?env] =>
      destruct (foldl_pty_write_effects (uuid (st_world st))
                  (fun kv => "export " +:+ kv.1 +:+ "=" +:+ DQ +:+ kv.2 +:+ DQ +:+ CR)
                  env w1) as (He & Hu & _)
  end.
  cbn [st_world sleep pty_write effects uuid] in *.
  rewrite He, Hu. cbn [effects uuid]. split; [|reflexivity].
  rewrite <- !app_assoc. reflexivity.
Qed.

Lemma launch_started s c st :
  started (launch project s c st) = {[ProjectService.name s]} ∪ started st.
Proof. reflexivity. Qed.

Lemma launch_created s c st :
  createdTerminals (launch project s c st)
    = createdTerminals st
      ++ [new_session (uuid (st_world st)) (session_name project s)
            (path_join (ProjectConfig.rootPath project) (ProjectService.path s))
            (clock (st_world st))].
Proof. reflexivity. Qed.

Lemma launch_effects_spawn s c u i cwd :
  Spawn i cwd ∈ launch_effects project s c u -> i = u.
Proof.
  unfold launch_effects. intros H. apply elem_of_cons in H as [[= -> _]|H]; [reflexivity|].
  apply elem_of_app in H as [H|H].
  - apply list_elem_of_fmap in H as (kv & Hkv & _). discriminate.
  - apply list_elem_of_singleton in H. discriminate.
Qed.

Lemma launch_effects_split s c u i cwd pre post :
  launch_effects project s c u = pre ++ Spawn i cwd :: post -> pre = [] /\ i = u.
Proof.
  unfold launch_effects. destruct pre as [|e pre]; cbn.
  - intros [= <- _ _]. auto.
  - intros [= _ H]. exfalso.
    assert (Hin : Spawn i cwd ∈ pre ++ Spawn i cwd :: post)
      by (apply elem_of_app; right; apply elem_of_cons; now left).
    rewrite <- H in Hin. apply elem_of_app in Hin as [Hin|Hin].
    + apply list_elem_of_fmap in Hin as (kv & Hkv & _). discriminate.
    + apply list_elem_of_singleton in Hin. discriminate.
Qed.

Lemma launch_effects_write s c u i text :
  PtyWrite i text ∈ launch_effects project s c u -> i = u.
Proof.
  unfold launch_effects. intros H. apply elem_of_cons in H as [H|H]; [discriminate|].
  apply elem_of_app in H as [H|H].
  - apply list_elem_of_fmap in H as (kv & [= -> _] & _). reflexivity.
  - apply list_elem_of_singleton in H. now injection H as -> _.
Qed.

(** A spawn in the log extended by one launch is an old one or the head of
    the new launch. *)
Lemma launch_split (new : list effect) s c u i cwd pre post :
  new ++ launch_effects project s c u = pre ++ Spawn i cwd :: post ->
  (exists k, new = pre ++ Spawn i cwd :: k) \/ (pre = new /\ i = u).
Proof.
  intros Hsplit. apply app_eq_inv in Hsplit as [(k & Hnew & Hk)|(k & Hpre & Hk)].
  - destruct k as [|e k].
    + right. cbn in Hk. symmetry in Hk.
      apply (launch_effects_split s c u _ _ [] post) in Hk as [_ Hid].
      rewrite app_nil_r in Hnew. auto.
    + left. cbn in Hk. injection Hk as <- _. now exists k.
  - right. apply launch_effects_split in Hk as [-> Hid].
    rewrite app_nil_r in Hpre. auto.
Qed.

Lemma launch_inv s c st new :
  start_inv project e0 st new ->
  s ∈ services ->
  ProjectService.startCommand s = Some c -> c <> "" ->
  ProjectService.name s ∉ started st ->
  (forall dep d c', dep ∈ dependencies s -> find_service project dep = Some d ->
      ProjectService.startCommand d = Some c' -> c' <> "" ->
      ProjectService.name d ∈ started st) ->
  start_inv project e0 (launch project s c st)
    (new ++ launch_effects project s c (uuid (st_world st))).
Proof.
  intros [Heff Hsp Hwr Hfirst Hcr Honce Hst Hord] Hs Hc Hne Hfresh Hdeps.
  destruct (launch_effects_eq s c st) as [Heff' Huuid'].
  set (u := uuid (st_world st)) in *.
  set (tnew := new_session u (session_name project s)
                 (path_join (ProjectConfig.rootPath project) (ProjectService.path s))
                 (clock (st_world st))).
  assert (Hcreated : createdTerminals (launch project s c st) = createdTerminals st ++ [tnew])
    by reflexivity.
  assert (Hself : launched_in project (new ++ launch_effects project s c u)
                    (createdTerminals st ++ [tnew]) s c).
  { exists tnew, (path_join (ProjectConfig.rootPath project) (ProjectService.path s)).
    split; [apply elem_of_app; right; now apply list_elem_of_singleton|].
    split; [reflexivity|].
    split; apply elem_of_app; right; unfold launch_effects.
    - apply elem_of_cons. now left.
    - apply elem_of_cons. right. apply elem_of_app. right.
      now apply list_elem_of_singleton. }
  constructor.
  - rewrite Heff', Heff, app_assoc. reflexivity.
  - intros i cwd Hin. rewrite Huuid'. apply elem_of_app in Hin as [Hin|Hin].
    + specialize (Hsp _ _ Hin). lia.
    + apply launch_effects_spawn in Hin. lia.
  - intros i text Hin. rewrite Huuid'. apply elem_of_app in Hin as [Hin|Hin].
    + specialize (Hwr _ _ Hin). lia.
    + apply launch_effects_write in Hin. lia.
  - intros pre post i cwd text Hsplit Hin.
    apply launch_split in Hsplit as [(k & Hnew)|[-> ->]].
    + exact (Hfirst pre k i cwd text Hnew Hin).
    + specialize (Hwr _ _ Hin). lia.
  - intros t Ht. rewrite Hcreated in Ht. rewrite Huuid', launch_started.
    apply elem_of_app in Ht as [Ht|Ht].
    + destruct (Hcr t Ht) as (Hid & s' & Hs' & Hof & Hin). split; [lia|].
      exists s'. repeat split; try assumption. apply elem_of_union. now right.
    + apply list_elem_of_singleton in Ht. subst t. split; [cbn; lia|].
      exists s. repeat split; try assumption.
      apply elem_of_union. left. now apply elem_of_singleton.
  - rewrite Hcreated, map_app. apply NoDup_app. split; [exact Honce|].
    split; [|apply NoDup_singleton].
    intros n Hn Hn'. cbn in Hn'. apply list_elem_of_singleton in Hn'. subst n.
    apply list_elem_of_fmap in Hn as (t & Hname & Ht).
    destruct (Hcr t Ht) as (_ & s' & Hs' & Hof & Hin).
    apply Hfresh. unfold session_of in Hof.
    assert (Heq : ProjectService.name s = ProjectService.name s')
      by (apply session_name_inj; congruence).
    now rewrite Heq.
  - intros n Hn. rewrite launch_started in Hn. rewrite Hcreated.
    apply elem_of_union in Hn as [Hn|Hn].
    + apply elem_of_singleton in Hn. subst n. exists s, c. auto.
    + destruct (Hst n Hn) as (d & c' & Hd & Hname & Hcmd & Hne' & Hl).
      exists d, c'. repeat split; try assumption. now apply launched_in_mono.
  - rewrite Hcreated. intros x t cwd pre post Hx Ht Hof Hsplit dep d c' Hdep Hfind Hcmd Hne'.
    pose proof (launch_split new s c u _ cwd pre post Hsplit) as Hcase.
    destruct Hcase as [(k & Hnew)|[-> Hid]].
    + assert (Hold : t ∈ createdTerminals st).
      { apply elem_of_app in Ht as [Ht|Ht]; [exact Ht|].
        apply list_elem_of_singleton in Ht. subst t. exfalso.
        assert (Hin : Spawn (TerminalSession.id tnew) cwd ∈ new).
        { rewrite Hnew. apply elem_of_app. right. apply elem_of_cons. now left. }
        specialize (Hsp _ _ Hin). cbn in Hsp. lia. }
      apply launched_in_created.
      exact (Hord x t cwd pre k Hx Hold Hof Hnew dep d c' Hdep Hfind Hcmd Hne').
    + assert (Htnew : t = tnew).
      { apply elem_of_app in Ht as [Ht|Ht]; [|now apply list_elem_of_singleton in Ht].
        destruct (Hcr t Ht) as [Hlt _]. lia. }
      subst t.
      assert (Hxs : x = s) by (apply (session_of_unique x s tnew); auto; reflexivity).
      subst x.
      pose proof (Hdeps dep d c' Hdep Hfind Hcmd Hne') as Hin.
      destruct (Hst _ Hin) as (d' & c'' & Hd' & Hname & Hcmd' & _ & Hl).
      destruct (find_service_Some dep d Hfind) as [Hd _].
      assert (d' = d) by now apply unique_by_name. subst d'.
      assert (c'' = c') by congruence. subst c''.
      now apply launched_in_created.
Qed.

(** *** The recursion *)

Lemma start_dependencies_spec fuel bound :
  (forall d st new, d ∈ services -> rank d < bound -> start_inv project e0 st new ->
     exists st' new', startService project fuel d st = Some st'
       /\ start_inv project e0 st' new' /\ started_after project rank d st st') ->
  forall deps st new,
    (forall dep d, dep ∈ deps -> find_service project dep = Some d -> rank d < bound) ->
    start_inv project e0 st new ->
    exists st' new',
      start_dependencies project (startService project fuel) deps st = Some st'
      /\ start_inv project e0 st' new'
      /\ (forall n, n ∈ started st -> n ∈ started st')
      /\ (forall dep d c, dep ∈ deps -> find_service project dep = Some d ->
            ProjectService.startCommand d = Some c -> c <> "" ->
            ProjectService.name d ∈ started st')
      /\ (forall n, n ∈ started st' ->
            n ∈ started st
            \/ exists s', s' ∈ services /\ ProjectService.name s' = n /\ rank s' < bound).
Proof.
  intros Hrec. induction deps as [|dep deps IH]; intros st new Hbound Hinv.
  - exists st, new. cbn. split; [reflexivity|]. split; [exact Hinv|].
    split; [auto|]. split; [|auto].
    intros dep d c Hin. now apply elem_of_nil in Hin.
  - assert (Hbound' : forall dep' d, dep' ∈ deps -> find_service project dep' = Some d ->
                        rank d < bound).
    { intros dep' d Hin. apply Hbound. apply elem_of_cons. now right. }
    cbn [start_dependencies].
    destruct (find_service project dep) as [d|] eqn:Hfind.
    + destruct (find_service_Some dep d Hfind) as [Hd Hname].
      case_bool_decide as Hstarted.
      * destruct (IH st new Hbound' Hinv) as (st' & new' & Hrun & Hinv' & Hmono & Hdeps & Hnew).
        exists st', new'. split; [exact Hrun|]. split; [exact Hinv'|].
        split; [exact Hmono|]. split; [|exact Hnew].
        intros dep' d' c Hin Hfind' Hcmd Hne.
        apply elem_of_cons in Hin as [->|Hin]; [|eauto].
        assert (d' = d) by congruence. subst d'. apply Hmono. now rewrite Hname.
      * assert (Hrk : rank d < bound) by (apply (Hbound dep); [apply elem_of_cons; now left|auto]).
        destruct (Hrec d st new Hd Hrk Hinv) as (st1 & new1 & Hrun1 & Hinv1 & Hm1 & Hs1 & Hn1).
        rewrite Hrun1.
        destruct (IH st1 new1 Hbound' Hinv1) as (st' & new' & Hrun & Hinv' & Hmono & Hdeps & Hnew).
        exists st', new'. split; [exact Hrun|]. split; [exact Hinv'|].
        split; [auto|]. split.
        -- intros dep' d' c Hin Hfind' Hcmd Hne.
           apply elem_of_cons in Hin as [->|Hin]; [|eauto].
           assert (d' = d) by congruence. subst d'. apply Hmono. eauto.
        -- intros n Hn. destruct (Hnew n Hn) as [Hn'|Hn']; [|now right].
           destruct (Hn1 n Hn') as [Hn''|(s' & Hs' & Hname' & Hle)]; [now left|].
           right. exists s'. repeat split; try assumption. lia.
    + destruct (IH st new Hbound' Hinv) as (st' & new' & Hrun & Hinv' & Hmono & Hdeps & Hnew).
      exists st', new'. split; [exact Hrun|]. split; [exact Hinv'|].
      split; [exact Hmono|]. split; [|exact Hnew].
      intros dep' d' c Hin Hfind' Hcmd Hne.
      apply elem_of_cons in Hin as [->|Hin]; [congruence|eauto].
Qed.

Lemma startService_spec fuel : forall s st new,
  s ∈ services -> rank s < fuel -> start_inv project e0 st new ->
  exists st' new', startService project fuel s st = Some st'
    /\ start_inv project e0 st' new' /\ started_after project rank s st st'.
Proof.
  induction fuel as [|fuel IH]; intros s st new Hs Hrk Hinv; [lia|].
  cbn [startService]. case_bool_decide as Hstarted.
  { exists st, new. split; [reflexivity|]. split; [exact Hinv|].
    split; [auto|]. split; [auto|]. now left. }
  assert (Hdeps : exists st1 new1,
            match ProjectService.dependsOn s with
            | Some deps => start_dependencies project (startService project fuel) deps st
            | None => Some st
            end = Some st1
            /\ start_inv project e0 st1 new1
            /\ (forall n, n ∈ started st -> n ∈ started st1)
            /\ (forall dep d c, dep ∈ dependencies s -> find_service project dep = Some d ->
                  ProjectService.startCommand d = Some c -> c <> "" ->
                  ProjectService.name d ∈ started st1)
            /\ (forall n, n ∈ started st1 ->
                  n ∈ started st
                  \/ exists s', s' ∈ services /\ ProjectService.name s' = n
                               /\ rank s' < rank s)).
  { unfold dependencies in *. destruct (ProjectService.dependsOn s) as [deps|] eqn:Hd.
    - refine (start_dependencies_spec fuel (rank s) _ deps st new _ Hinv).
      + intros d st0 new0 Hd0 Hrk0 Hinv0.
        refine (IH d st0 new0 Hd0 _ Hinv0). lia.
      + intros dep d Hin Hfind. apply (Hrank s dep d Hs); [|exact Hfind].
        unfold dependencies. now rewrite Hd.
    - exists st, new. split; [reflexivity|]. split; [exact Hinv|].
      split; [auto|]. split; [|auto].
      intros dep d c Hin. now apply elem_of_nil in Hin. }
  destruct Hdeps as (st1 & new1 & -> & Hinv1 & Hmono & Hdone & Hnew).
  assert (Hfresh : ProjectService.name s ∉ started st1).
  { intros Hin. destruct (Hnew _ Hin) as [Hin'|(s' & Hs' & Hname & Hlt)]; [contradiction|].
    assert (s' = s) by now apply unique_by_name. subst s'. lia. }
  destruct (ProjectService.startCommand s) as [c|] eqn:Hcmd.
  - case_bool_decide as Hc.
    + exists st1, new1. split; [reflexivity|]. split; [exact Hinv1|].
      split; [exact Hmono|]. split; [intros c' Heq Hne'; congruence|].
      intros n Hn. destruct (Hnew n Hn) as [?|(s' & ? & ? & ?)]; [now left|].
      right. exists s'. repeat split; try assumption. lia.
    + exists (launch project s c st1), (new1 ++ launch_effects project s c (uuid (st_world st1))).
      split; [reflexivity|]. split; [now apply launch_inv|].
      split; [|split].
      * intros n Hn. rewrite launch_started. apply elem_of_union. right. auto.
      * intros c' _ _. rewrite launch_started. apply elem_of_union. left.
        now apply elem_of_singleton.
      * intros n Hn. rewrite launch_started in Hn. apply elem_of_union in Hn as [Hn|Hn].
        -- apply elem_of_singleton in Hn. subst n. right. exists s. auto.
        -- destruct (Hnew n Hn) as [?|(s' & ? & ? & ?)]; [now left|].
           right. exists s'. repeat split; try assumption. lia.
  - exists st1, new1. split; [reflexivity|]. split; [exact Hinv1|].
    split; [exact Hmono|]. split; [intros c Heq; congruence|].
    intros n Hn. destruct (Hnew n Hn) as [?|(s' & ? & ? & ?)]; [now left|].
    right. exists s'. repeat split; try assumption. lia.
Qed.

Lemma start_services_spec fuel targets : forall st new,
  (forall s, s ∈ targets -> s ∈ services /\ rank s < fuel) ->
  start_inv project e0 st new ->
  exists st' new', start_services project fuel targets st = Some st'
    /\ start_inv project e0 st' new'
    /\ (forall n, n ∈ started st -> n ∈ started st')
    /\ (forall s c, s ∈ targets -> ProjectService.startCommand s = Some c -> c <> "" ->
          ProjectService.name s ∈ started st').
Proof.
  induction targets as [|s targets IH]; intros st new Htargets Hinv.
  - exists st, new. split; [reflexivity|]. split; [exact Hinv|]. split; [auto|].
    intros s c Hin. now apply elem_of_nil in Hin.
  - cbn [start_services].
    destruct (Htargets s) as [Hs Hrk]; [apply elem_of_cons; now left|].
    destruct (startService_spec fuel s st new Hs Hrk Hinv)
      as (st1 & new1 & -> & Hinv1 & Hm1 & Hs1 & _).
    destruct (IH st1 new1) as (st' & new' & Hrun & Hinv' & Hmono & Hdone);
      [intros s' Hs'; apply Htargets, elem_of_cons; now right|exact Hinv1|].
    exists st', new'. split; [exact Hrun|]. split; [exact Hinv'|]. split; [auto|].
    intros s' c Hin Hcmd Hne. apply elem_of_cons in Hin as [->|Hin]; [|eauto].
    apply Hmono. eauto.
Qed.

End StartOrder.

Section StartProjectFacts.

Variable project : ProjectConfig.

Lemma acyclic_within_spec rank fuel :
  acyclic_within project rank fuel = true ->
  (forall s, s ∈ ProjectConfig.services project -> rank s < fuel)
  /\ (forall s dep d, s ∈ ProjectConfig.services project -> dep ∈ dependencies s ->
        find_service project dep = Some d -> rank d < rank s).
Proof.
  unfold acyclic_within. rewrite forallb_forall. intros Hall. split.
  - intros s Hs. apply list_elem_of_In, Hall, andb_true_iff in Hs as [Hs _].
    now apply bool_decide_eq_true_1 in Hs.
  - intros s dep d Hs Hdep Hfind.
    apply list_elem_of_In, Hall, andb_true_iff in Hs as [_ Hs].
    rewrite forallb_forall in Hs. apply list_elem_of_In, Hs in Hdep.
    rewrite Hfind in Hdep. now apply bool_decide_eq_true_1 in Hdep.
Qed.

Lemma servicesToStart_known serviceNames s :
  s ∈ servicesToStart project serviceNames -> s ∈ ProjectConfig.services project.
Proof.
  unfold servicesToStart. destruct serviceNames as [names|]; [|auto].
  intros Hs. now apply list_elem_of_filter in Hs as [_ Hs].
Qed.

Lemma start_inv_init w : start_inv project (effects w) (mk_start w ∅ [] []) [].
Proof.
  constructor; cbn.
  - now rewrite app_nil_r.
  - intros i cwd Hin. now apply elem_of_nil in Hin.
  - intros i text Hin. now apply elem_of_nil in Hin.
  - intros pre post i cwd text Hsplit. now destruct pre.
  - intros t Hin. now apply elem_of_nil in Hin.
  - constructor.
  - intros n Hin. now apply elem_of_empty in Hin.
  - intros x t cwd pre post _ Hin. now apply elem_of_nil in Hin.
Qed.

(** With a cycle-free graph and unique names the handler returns, in a
    state that satisfies the invariant. *)
Lemma start_found_spec rank fuel serviceNames w :
  acyclic_within project rank fuel = true ->
  unique_names project ->
  exists st new,
    start_found project fuel serviceNames w = Some st
    /\ start_inv project (effects w) st new
    /\ (forall s c, s ∈ servicesToStart project serviceNames ->
          ProjectService.startCommand s = Some c -> c <> "" ->
          ProjectService.name s ∈ started st).
Proof.
  intros Hacyclic Hnames. apply acyclic_within_spec in Hacyclic as [Hfuel Hrank].
  destruct (start_services_spec project rank (effects w) Hnames Hrank fuel
              (servicesToStart project serviceNames) (mk_start w ∅ [] []) [])
    as (st & new & Hrun & Hinv & _ & Hdone).
  - intros s Hs. apply servicesToStart_known in Hs. auto.
  - apply start_inv_init.
  - exists st, new. auto.
Qed.

Lemma filter_none {A} (P : A -> Prop) `{!forall x, Decision (P x)} (l : list A) :
  (forall x, x ∈ l -> ~ P x) -> filter P l = [].
Proof.
  induction l as [|a l IH]; intros Hno; [reflexivity|].
  rewrite filter_cons_False by (apply Hno, elem_of_cons; now left).
  apply IH. intros x Hx. apply Hno, elem_of_cons. now right.
Qed.

Lemma filter_unique {A B} `{EqDecision B} (f : A -> B) (l : list A) (x : A) :
  NoDup (map f l) -> x ∈ l -> length (filter (fun y => f y = f x) l) = 1.
Proof.
  induction l as [|a l IH]; intros Hnd Hx.
  - now apply elem_of_nil in Hx.
  - cbn in Hnd. apply NoDup_cons in Hnd as [Ha Hnd].
    apply elem_of_cons in Hx as [->|Hx].
    + rewrite filter_cons_True by reflexivity. rewrite filter_none; [reflexivity|].
      intros y Hy Heq. apply Ha. rewrite <- Heq. apply list_elem_of_fmap. now exists y.
    + rewrite filter_cons_False; [now apply IH|].
      intros Heq. apply Ha. rewrite Heq. apply list_elem_of_fmap. now exists x.
Qed.

End StartProjectFacts.

(** C3.  On a cycle-free service graph with unique names, [start_project]
    returns, every requested service that has a start command is launched,
    and in the effects of the call the spawn of a service's session comes
    after the spawn of, and the write of the start command to, the session
    of each of its direct dependencies that resolves to a service with a
    start command, whether that dependency was requested or not; nothing
    is written to the service's own session before that spawn. *)
Theorem dependencies_started_first
    (project : ProjectConfig) (rank : ProjectService -> nat) (fuel : nat)
    (serviceNames : option (list string)) (w : world) :
  acyclic_within project rank fuel = true ->
  unique_names project ->
  exists st new,
    start_found project fuel serviceNames w = Some st
    /\ effects (st_world st) = effects w ++ new
    /\ (forall s c, s ∈ servicesToStart project serviceNames ->
          ProjectService.startCommand s = Some c -> c <> "" ->
          exists t cwd, t ∈ createdTerminals st
            /\ TerminalSession.name t = session_name project s
            /\ Spawn (TerminalSession.id t) cwd ∈ new
            /\ PtyWrite (TerminalSession.id t) (c +:+ CR) ∈ new)
    /\ (forall x t cwd pre post,
          x ∈ ProjectConfig.services project ->
          t ∈ createdTerminals st ->
          TerminalSession.name t = session_name project x ->
          new = pre ++ Spawn (TerminalSession.id t) cwd :: post ->
          (forall text, PtyWrite (TerminalSession.id t) text ∉ pre)
          /\ forall dep d c,
               dep ∈ dependencies x -> find_service project dep = Some d ->
               ProjectService.startCommand d = Some c -> c <> "" ->
               exists t' cwd', t' ∈ createdTerminals st
                 /\ TerminalSession.name t' = session_name project d
                 /\ Spawn (TerminalSession.id t') cwd' ∈ pre
                 /\ PtyWrite (TerminalSession.id t') (c +:+ CR) ∈ pre).
Proof.
  intros Hacyclic Hnames.
  destruct (start_found_spec project rank fuel serviceNames w Hacyclic Hnames)
    as (st & new & Hrun & [Heff Hsp Hwr Hfirst Hcr Honce Hst Hord] & Hdone).
  exists st, new. split; [exact Hrun|]. split; [exact Heff|]. split.
  2:{ intros x t cwd pre post Hx Ht Hname Hsplit. split.
      - intros text. exact (Hfirst pre post _ cwd text Hsplit).
      - exact (Hord x t cwd pre post Hx Ht Hname Hsplit). }
  intros s c Hs Hcmd Hne.
  destruct (Hst _ (Hdone s c Hs Hcmd Hne)) as (d & c' & Hd & Hname & Hcmd' & _ & Hl).
  assert (d = s).
  { apply (NoDup_map_unique ProjectService.name (ProjectConfig.services project));
      [exact Hnames|exact Hd|now apply servicesToStart_known in Hs|exact Hname]. }
  subst d. assert (c' = c) by congruence. subst c'. exact Hl.
Qed.

Lemma dependencies_started_first_witness :
  exists st new,
    start_found shop 3 (Some ["web"]) init_world = Some st
    /\ effects (st_world st) = effects init_world ++ new
    /\ (forall s c, s ∈ servicesToStart shop (Some ["web"]) ->
          ProjectService.startCommand s = Some c -> c <> "" ->
          exists t cwd, t ∈ createdTerminals st
            /\ TerminalSession.name t = session_name shop s
            /\ Spawn (TerminalSession.id t) cwd ∈ new
            /\ PtyWrite (TerminalSession.id t) (c +:+ CR) ∈ new)
    /\ (forall x t cwd pre post,
          x ∈ ProjectConfig.services shop ->
          t ∈ createdTerminals st ->
          TerminalSession.name t = session_name shop x ->
          new = pre ++ Spawn (TerminalSession.id t) cwd :: post ->
          (forall text, PtyWrite (TerminalSession.id t) text ∉ pre)
          /\ forall dep d c,
               dep ∈ dependencies x -> find_service shop dep = Some d ->
               ProjectService.startCommand d = Some c -> c <> "" ->
               exists t' cwd', t' ∈ createdTerminals st
                 /\ TerminalSession.name t' = session_name shop d
                 /\ Spawn (TerminalSession.id t') cwd' ∈ pre
                 /\ PtyWrite (TerminalSession.id t') (c +:+ CR) ∈ pre).
Proof.
  apply (dependencies_started_first shop shop_rank 3 (Some ["web"]) init_world).
  - reflexivity.
  - apply (bool_decide_unpack _). vm_compute. exact I.
Defined.

(** The effects of starting only [web] in [shop]: the database, shared by
    the API and the front end, is launched once and first, then the API,
    then the web front end. *)
Example start_shop_web_effects :
  (fun st => effects (st_world st)) <$> start_found shop 3 (Some ["web"]) init_world
  = Some [Spawn 0 "/srv/shop/db"; PtyWrite 0 ("docker compose up" +:+ CR);
          Spawn 1 "/srv/shop/api";
          PtyWrite 1 ("export PORT=" +:+ DQ +:+ "3001" +:+ DQ +:+ CR);
          PtyWrite 1 ("npm run dev" +:+ CR);
          Spawn 2 "/srv/shop/web"; PtyWrite 2 ("npm start" +:+ CR)].
Proof. vm_compute. reflexivity. Qed.

(** C4.  A call of [startService] on a service whose name is in the started
    set returns the state unchanged.  On a cycle-free graph with unique
    names [start_project] returns, and among the sessions it created there
    is exactly one for each service whose name ended in the started set,
    none for any other service, and exactly one for each requested service
    that has a start command. *)
Theorem each_service_started_once
    (project : ProjectConfig) (rank : ProjectService -> nat) (fuel : nat)
    (serviceNames : option (list string)) (w : world) :
  acyclic_within project rank fuel = true ->
  unique_names project ->
  (forall s st n, ProjectService.name s ∈ started st ->
     startService project (S n) s st = Some st)
  /\ exists st,
       start_found project fuel serviceNames w = Some st
       /\ NoDup (map TerminalSession.name (createdTerminals st))
       /\ (forall s, s ∈ ProjectConfig.services project ->
             length (filter (fun t => TerminalSession.name t = session_name project s)
                       (createdTerminals st))
             = if bool_decide (ProjectService.name s ∈ started st) then 1 else 0)
       /\ (forall s c, s ∈ servicesToStart project serviceNames ->
             ProjectService.startCommand s = Some c -> c <> "" ->
             length (filter (fun t => TerminalSession.name t = session_name project s)
                       (createdTerminals st)) = 1).
Proof.
  intros Hacyclic Hnames. split.
  { intros s st n Hin. cbn [startService]. now rewrite bool_decide_eq_true_2. }
  destruct (start_found_spec project rank fuel serviceNames w Hacyclic Hnames)
    as (st & new & Hrun & [Heff Hsp Hwr Hfirst Hcr Honce Hst Hord] & Hdone).
  assert (Hcount : forall s, s ∈ ProjectConfig.services project ->
            length (filter (fun t => TerminalSession.name t = session_name project s)
                      (createdTerminals st))
            = if bool_decide (ProjectService.name s ∈ started st) then 1 else 0).
  { intros s Hs. case_bool_decide as Hin.
    - destruct (Hst _ Hin) as (d & c & Hd & Hname & _ & _ & t & cwd & Ht & Hof & _).
      assert (d = s)
        by now apply (NoDup_map_unique ProjectService.name (ProjectConfig.services project)).
      subst d. unfold session_of in Hof. rewrite <- Hof.
      now apply (filter_unique TerminalSession.name).
    - rewrite filter_none; [reflexivity|]. intros t Ht Hname.
      destruct (Hcr t Ht) as (_ & s' & Hs' & Hof & Hin').
      apply Hin. unfold session_of in Hof.
      assert (Heq : ProjectService.name s = ProjectService.name s').
      { apply (session_name_inj project). congruence. }
      now rewrite Heq. }
  exists st. split; [exact Hrun|]. split; [exact Honce|]. split; [exact Hcount|].
  intros s c Hs Hcmd Hne. rewrite Hcount by now apply servicesToStart_known in Hs.
  now rewrite bool_decide_eq_true_2 by eauto.
Qed.

Lemma each_service_started_once_witness :
  (forall s st n, ProjectService.name s ∈ started st ->
     startService shop (S n) s st = Some st)
  /\ exists st,
       start_found shop 3 (Some ["web"; "api"; "web"]) init_world = Some st
       /\ NoDup (map TerminalSession.name (createdTerminals st))
       /\ (forall s, s ∈ ProjectConfig.services shop ->
             length (filter (fun t => TerminalSession.name t = session_name shop s)
                       (createdTerminals st))
             = if bool_decide (ProjectService.name s ∈ started st) then 1 else 0)
       /\ (forall s c, s ∈ servicesToStart shop (Some ["web"; "api"; "web"]) ->
             ProjectService.startCommand s = Some c -> c <> "" ->
             length (filter (fun t => TerminalSession.name t = session_name shop s)
                       (createdTerminals st)) = 1).
Proof.
  apply (each_service_started_once shop shop_rank 3 (Some ["web"; "api"; "web"]) init_world).
  - reflexivity.
  - apply (bool_decide_unpack _). vm_compute. exact I.
Defined.

(** C5.  In the project [grouped], the service [infra] has no start command
    and depends on [db].  After [start_project] has processed both, only
    [db] is in the started set and only [db] has a session: [infra] gets no
    session, and it is not marked started either. *)
Theorem commandless_service_not_marked :
  match start_found grouped 2 None init_world with
  | Some st =>
      bool_decide ("infra" ∈ started st) = false
      /\ bool_decide ("db" ∈ started st) = true
      /\ map TerminalSession.name (createdTerminals st) = ["grouped-db"]
  | None => False
  end.
Proof. vm_compute. auto. Qed.

(** In general a name in the started set is the name of a service with a
    start command, so a service without one is never marked. *)
Lemma started_only_with_command
    (project : ProjectConfig) (rank : ProjectService -> nat) (fuel : nat)
    (serviceNames : option (list string)) (w : world) (s : ProjectService) :
  acyclic_within project rank fuel = true ->
  unique_names project ->
  s ∈ ProjectConfig.services project ->
  truthy (ProjectService.startCommand s) = false ->
  exists st, start_found project fuel serviceNames w = Some st
    /\ ProjectService.name s ∉ started st.
Proof.
  intros Hacyclic Hnames Hs Hcmd.
  destruct (start_found_spec project rank fuel serviceNames w Hacyclic Hnames)
    as (st & new & Hrun & [_ _ _ _ _ _ Hst _] & _).
  exists st. split; [exact Hrun|]. intros Hin.
  destruct (Hst _ Hin) as (d & c & Hd & Hname & Hc & Hne & _).
  assert (d = s)
    by now apply (NoDup_map_unique ProjectService.name (ProjectConfig.services project)).
  subst d. unfold truthy in Hcmd. rewrite Hc in Hcmd.
  now rewrite bool_decide_eq_false_2 in Hcmd.
Qed.

(** ** Theorems: logging *)

Section LoggerFacts.

Lemma Logger_log_logs lvl levelStr message args now L :
  Logger.log lvl levelStr message args now L = L
  \/ exists e,
       LogEntry.level e = levelStr
       /\ level_value (Logger.level L) <= level_value lvl
       /\ Logger.level (Logger.log lvl levelStr message args now L) = Logger.level L
       /\ Logger.console (Logger.log lvl levelStr message args now L) = Logger.console L ++ [e]
       /\ Logger.logs (Logger.log lvl levelStr message args now L)
          = if bool_decide (Logger.maxLogs < S (length (Logger.logs L)))
            then tail (Logger.logs L ++ [e]) else Logger.logs L ++ [e].
Proof.
  unfold Logger.log. case_bool_decide as Hlow; [now left|]. right.
  exists (LogEntry.mk now levelStr
            match args with
            | [] => message
            | _ => message +:+ " " +:+ String.concat " " args
            end).
  split; [reflexivity|]. split; [lia|]. split; [reflexivity|].
  split; [reflexivity|]. cbn [Logger.logs]. rewrite length_app, Nat.add_1_r. reflexivity.
Qed.

Lemma suffix_snoc_tail {A} (l k : list A) (x : A) :
  l `suffix_of` k -> tail (l ++ [x]) `suffix_of` k ++ [x].
Proof.
  intros [p ->]. destruct l as [|a l]; cbn [app tail].
  - exists ((p ++ []) ++ [x]). symmetry. apply app_nil_r.
  - exists (p ++ [a]). rewrite <- !app_assoc. reflexivity.
Qed.

Lemma Logger_apply_inv c L :
  length (Logger.logs L) <= Logger.maxLogs /\ Logger.logs L `suffix_of` Logger.console L ->
  length (Logger.logs (Logger.apply c L)) <= Logger.maxLogs
  /\ Logger.logs (Logger.apply c L) `suffix_of` Logger.console (Logger.apply c L).
Proof.
  intros [Hlen Hsuf]. destruct c as [l|lvl message args now|]; cbn [Logger.apply].
  - auto.
  - destruct (Logger_log_logs lvl (level_name lvl) message args now L)
      as [->|(e & _ & _ & _ & Hcon & Hlogs)]; [auto|].
    rewrite Hcon, Hlogs. case_bool_decide as Hfull.
    + split; [|now apply suffix_snoc_tail].
      destruct (Logger.logs L ++ [e]) as [|a r] eqn:E; [cbn; lia|].
      apply (f_equal length) in E. rewrite length_app in E. cbn in E. cbn [tail]. lia.
    + split; [rewrite length_app; cbn; lia|].
      destruct Hsuf as [p ->]. exists p. now rewrite app_assoc.
  - cbn. split; [lia|]. exists (Logger.console L). now rewrite app_nil_r.
Qed.

Lemma Logger_run_snoc cs c L :
  Logger.run (cs ++ [c]) L = Logger.apply c (Logger.run cs L).
Proof. unfold Logger.run. now rewrite foldl_app. Qed.

Lemma Logger_run_inv cs : forall L,
  length (Logger.logs L) <= Logger.maxLogs /\ Logger.logs L `suffix_of` Logger.console L ->
  length (Logger.logs (Logger.run cs L)) <= Logger.maxLogs
  /\ Logger.logs (Logger.run cs L) `suffix_of` Logger.console (Logger.run cs L).
Proof.
  induction cs as [|c cs IH] using rev_ind; intros L HL; [exact HL|].
  rewrite Logger_run_snoc. apply Logger_apply_inv. now apply IH.
Qed.

(** Every entry written came through one of the four methods, at or above
    the level in force. *)
Lemma Logger_fixed_level l cs :
  forallb (fun c => negb (Logger.is_setLevel c)) cs = true ->
  Logger.level (Logger.run cs (Logger.setLevel l Logger.init)) = l
  /\ forall e, e ∈ Logger.console (Logger.run cs (Logger.setLevel l Logger.init)) ->
       exists l', LogEntry.level e = level_name l' /\ level_value l <= level_value l'.
Proof.
  induction cs as [|c cs IH] using rev_ind; intros Hcs.
  - split; [reflexivity|]. intros e He. now apply elem_of_nil in He.
  - rewrite forallb_app in Hcs. apply andb_true_iff in Hcs as [Hcs Hc].
    cbn in Hc. rewrite andb_true_r in Hc.
    destruct (IH Hcs) as [Hl Hall]. rewrite Logger_run_snoc.
    set (L := Logger.run cs (Logger.setLevel l Logger.init)) in *.
    destruct c as [l0|lvl message args now|]; [discriminate| |now split].
    cbn [Logger.apply].
    destruct (Logger_log_logs lvl (level_name lvl) message args now L)
      as [->|(e & He & Hge & Hlvl & Hcon & _)]; [now split|].
    rewrite Hlvl, Hcon. split; [exact Hl|].
    intros e' He'. apply elem_of_app in He' as [He'|He']; [auto|].
    apply list_elem_of_singleton in He'. subst e'. exists lvl. split; [exact He|].
    rewrite <- Hl. exact Hge.
Qed.

Lemma level_of_name_name l : level_of_name (level_name l) = Some l.
Proof. now destruct l. Qed.

Lemma level_name_inj l l' : level_name l = level_name l' -> l = l'.
Proof.
  intros H. apply (f_equal level_of_name) in H. rewrite !level_of_name_name in H.
  now injection H.
Qed.

End LoggerFacts.

(** X1.  Whatever is logged, cleared or reconfigured, the logger retains at
    most 1000 entries, and they are the most recent entries written to
    stderr. *)
Theorem logger_keeps_recent_entries (cs : list Logger.call) :
  let L := Logger.run cs Logger.init in
  length (Logger.logs L) <= 1000
  /\ Logger.logs L `suffix_of` Logger.console L.
Proof.
  apply (Logger_run_inv cs Logger.init). cbn. split; [lia|]. now exists [].
Qed.

(** X2.  While the level is not changed, no message below it is written or
    retained, so asking for the entries of a lower level returns nothing. *)
Theorem logger_drops_below_threshold (l : LogLevel) (cs : list Logger.call) :
  forallb (fun c => negb (Logger.is_setLevel c)) cs = true ->
  let L := Logger.run cs (Logger.setLevel l Logger.init) in
  (forall e, e ∈ Logger.console L ->
     exists l', LogEntry.level e = level_name l' /\ level_value l <= level_value l')
  /\ (forall l', level_value l' < level_value l -> Logger.getLogs (Some l') L = []).
Proof.
  intros Hcs L. destruct (Logger_fixed_level l cs Hcs) as [_ Hall].
  split; [exact Hall|]. intros l' Hlow. cbn [Logger.getLogs].
  destruct (Logger_run_inv cs (Logger.setLevel l Logger.init)) as [_ [p Hp]];
    [cbn; split; [lia|now exists []]|].
  apply filter_none. intros e He Hlevel.
  assert (Hcon : e ∈ Logger.console L).
  { unfold L. rewrite Hp. apply elem_of_app. now right. }
  destruct (Hall e Hcon) as (l0 & Hname & Hge).
  rewrite Hname, level_of_name_name in Hlevel. injection Hlevel as ->. lia.
Qed.

Lemma logger_drops_below_threshold_witness :
  let L := Logger.run [Logger.Log DEBUG "tool called" [] 1; Logger.Log ERROR "tool error" ["42"] 2;
                       Logger.ClearLogs; Logger.Log INFO "created" [] 3]
             (Logger.setLevel INFO Logger.init) in
  (forall e, e ∈ Logger.console L ->
     exists l', LogEntry.level e = level_name l' /\ level_value INFO <= level_value l')
  /\ (forall l', level_value l' < level_value INFO -> Logger.getLogs (Some l') L = []).
Proof.
  apply (logger_drops_below_threshold INFO
           [Logger.Log DEBUG "tool called" [] 1; Logger.Log ERROR "tool error" ["42"] 2;
            Logger.ClearLogs; Logger.Log INFO "created" [] 3]).
  reflexivity.
Defined.

(** X3.  [getLogs] with a level selects by equality: it returns, in order,
    the retained entries logged at exactly that level, and none logged at a
    higher one. *)
Theorem getLogs_selects_exact_level (cs : list Logger.call) (l : LogLevel) :
  let L := Logger.run cs Logger.init in
  Logger.getLogs (Some l) L
    = filter (fun e => LogEntry.level e = level_name l) (Logger.logs L)
  /\ (forall e, e ∈ Logger.getLogs (Some l) L -> LogEntry.level e = level_name l)
  /\ Logger.getLogs None L = Logger.logs L
  /\ Logger.getLogs (Some l) (Logger.clearLogs L) = [].
Proof.
  intros L.
  assert (Hfilter : Logger.getLogs (Some l) L
                    = filter (fun e => LogEntry.level e = level_name l) (Logger.logs L)).
  { cbn [Logger.getLogs]. apply list_filter_iff. intros e. split.
    - unfold level_of_name. repeat case_bool_decide; intros [= <-]; assumption.
    - intros ->. apply level_of_name_name. }
  split; [exact Hfilter|]. split; [|split; reflexivity].
  intros e He. rewrite Hfilter in He. now apply list_elem_of_filter in He as [He _].
Qed.

(** ** Theorems: reading output *)



(** X5.  [lines = 0] does not give an empty result: [slice(-0)] is the
    whole array, so the entire buffer is returned; a negative [lines] drops
    that many of the oldest chunks instead of selecting the newest.  An
    unknown identifier is an error. *)
Theorem getTerminalOutput_nonpositive_lines
    (terminals : registry) (terminalId : nat) (terminal : TerminalSession) (lines : Z) :
  map_get terminalId terminals = Some terminal ->
  (lines <= 0)%Z ->
  getTerminalOutput terminals terminalId lines
    = inr (String.concat "" (drop (Z.to_nat (- lines)) (TerminalSession.output terminal)))
  /\ getTerminalOutput terminals terminalId 0
     = inr (String.concat "" (TerminalSession.output terminal))
  /\ getTerminalOutput (map_delete terminalId terminals) terminalId lines
     = inl (TerminalNotFound terminalId).
Proof.
  intros Hget Hlines. unfold getTerminalOutput.
  rewrite Hget, map_get_delete_eq. unfold js_slice_from.
  rewrite bool_decide_eq_false_2 by lia. split; [reflexivity|]. split; reflexivity.
Qed.

Lemma getTerminalOutput_nonpositive_lines_witness :
  let t := feed ["a"; "b"; "c"] (new_session 7 "t" "/" 0%Z) in
  getTerminalOutput [(7, t)] 7 (-1)
    = inr (String.concat "" (drop (Z.to_nat (- -1)) (TerminalSession.output t)))
  /\ getTerminalOutput [(7, t)] 7 0 = inr (String.concat "" (TerminalSession.output t))
  /\ getTerminalOutput (map_delete 7 [(7, t)]) 7 (-1) = inl (TerminalNotFound 7).
Proof.
  apply (getTerminalOutput_nonpositive_lines
           [(7, feed ["a"; "b"; "c"] (new_session 7 "t" "/" 0%Z))] 7
           (feed ["a"; "b"; "c"] (new_session 7 "t" "/" 0%Z)) (-1)).
  - reflexivity.
  - lia.
Defined.

(** ** Theorems: the pattern policy, [waitForOutput] and the deadline *)

Section WaitFacts.

Variable pattern : string -> bool.
Variable timeout : Z.
Variable start : Z.

Lemma waitForOutput_run_cleared evs : forall w,
  interval w = false ->
  settled (run_events (waitForOutput_event pattern timeout) evs w) = settled w.
Proof.
  induction evs as [|ev evs IH]; intros w Hc; [reflexivity|].
  change (run_events (waitForOutput_event pattern timeout) (ev :: evs) w)
    with (run_events (waitForOutput_event pattern timeout) evs
            (waitForOutput_event pattern timeout ev w)).
  destruct ev as [a chunk|now|a]; cbn [waitForOutput_event].
  - now rewrite IH.
  - rewrite Hc. now apply IH.
  - now apply IH.
Qed.

Lemma pattern_policy_run evs : forall w,
  interval w = true -> settled w = Pending -> startTime w = start ->
  no_exit evs = true ->
  settled (run_events (executeCommand_event (PatternPolicy pattern) timeout) evs w)
    = match List.find (pattern_or_deadline pattern timeout start)
              (tick_samples (executeCommand_event (PatternPolicy pattern) timeout) evs w) with
      | Some obs => Resolved (or_else obs.2 "Command executed (no output)")
      | None => Pending
      end.
Proof.
  induction evs as [|ev evs IH]; intros w Hi Hp Hs Hne; [exact Hp|].
  cbn [no_exit forallb] in Hne. apply andb_true_iff in Hne as [Hev Hne].
  change (run_events ?f (ev :: evs) w) with (run_events f evs (f ev w)).
  destruct ev as [a chunk|now|a]; [| |discriminate]; cbn [tick_samples].
  - now apply IH.
  - cbn [List.find]. unfold pattern_or_deadline at 1. cbn [fst snd].
    cbn [executeCommand_event]. rewrite Hi. unfold pattern_tick. rewrite Hs.
    destruct (pattern (getNewOutput w) || bool_decide (timeout < now - start)%Z) eqn:Hhit.
    + destruct (executeCommand_run_cleared (PatternPolicy pattern) timeout evs
                  (complete (or_else (getNewOutput w) "Command executed (no output)") w)
                  eq_refl) as [_ ->].
      cbn. now rewrite Hp.
    + now apply IH.
Qed.

Lemma waitForOutput_run evs : forall w,
  interval w = true -> settled w = Pending -> startTime w = start ->
  settled (run_events (waitForOutput_event pattern timeout) evs w)
    = match List.find (pattern_or_deadline pattern timeout start)
              (tick_samples (waitForOutput_event pattern timeout) evs w) with
      | Some obs => if pattern obs.2 then Resolved obs.2 else Rejected PatternTimeout
      | None => Pending
      end.
Proof.
  induction evs as [|ev evs IH]; intros w Hi Hp Hs; [exact Hp|].
  change (run_events ?f (ev :: evs) w) with (run_events f evs (f ev w)).
  destruct ev as [a chunk|now|a]; cbn [tick_samples].
  - now apply IH.
  - cbn [List.find]. unfold pattern_or_deadline at 1. cbn [fst snd].
    cbn [waitForOutput_event]. rewrite Hi. unfold waitForOutput_tick. rewrite Hs.
    destruct (pattern (getNewOutput w)) eqn:Hpat; cbn [orb].
    + rewrite waitForOutput_run_cleared by reflexivity. cbn. now rewrite Hp, Hpat.
    + destruct (bool_decide (timeout < now - start)%Z) eqn:Hlate.
      * rewrite waitForOutput_run_cleared by reflexivity. cbn. now rewrite Hp, Hpat.
      * now apply IH.
  - now apply IH.
Qed.

Lemma tick_samples_elem step evs : forall w now,
  Tick now ∈ evs -> exists s, (now, s) ∈ tick_samples step evs w.
Proof.
  induction evs as [|ev evs IH]; intros w now Hin; [now apply elem_of_nil in Hin|].
  apply elem_of_cons in Hin as [Heq|Hin].
  - subst ev. exists (getNewOutput w). cbn. apply elem_of_cons. now left.
  - destruct (IH (step ev w) now Hin) as [s Hs]. exists s.
    destruct ev; cbn; [exact Hs| |exact Hs]. apply elem_of_cons. now right.
Qed.

(** A wait of [executeCommand] that meets no exit is polling or resolved. *)
Lemma polling_or_resolved_step p ev w :
  polling_or_resolved start w -> is_exit ev = false ->
  polling_or_resolved start (executeCommand_event p timeout ev w).
Proof.
  intros [(Hi & Hp & Hc & Hs)|(Hi & v & Hv)] Hev.
  - destruct ev as [a chunk|now|a]; [| |discriminate]; cbn [executeCommand_event].
    + left. repeat split; assumption.
    + rewrite Hi. destruct p as [pat|].
      * unfold pattern_tick. destruct (_ || _).
        -- right. split; [reflexivity|]. eexists. cbn. rewrite Hp. reflexivity.
        -- left. repeat split; assumption.
      * unfold stability_tick.
        repeat (match goal with
                | |- context [bool_decide ?P] => destruct (bool_decide P)
                end);
          try (right; split; [reflexivity|]; cbn; rewrite Hp; cbn; eexists; reflexivity);
          left; repeat split; assumption.
  - right. destruct (executeCommand_event_cleared p timeout ev w Hi) as [Hi' Hs'].
    split; [exact Hi'|]. exists v. congruence.
Qed.

Lemma polling_or_resolved_deadline p now w :
  polling_or_resolved start w -> (timeout < now - start)%Z ->
  interval (executeCommand_event p timeout (Tick now) w) = false
  /\ exists v, settled (executeCommand_event p timeout (Tick now) w) = Resolved v.
Proof.
  intros [(Hi & Hp & Hc & Hs)|(Hi & v & Hv)] Hlate.
  - cbn [executeCommand_event]. rewrite Hi. destruct p as [pat|].
    + unfold pattern_tick. rewrite Hs, (bool_decide_eq_true_2 _ Hlate), orb_true_r.
      split; [reflexivity|]. eexists. cbn. rewrite Hp. reflexivity.
    + unfold stability_tick.
      destruct (bool_decide (getNewOutput w = lastOutput w)).
      * destruct (bool_decide (STABLE_TICKS <= _)); cbn [terminal complete set_settled
          set_terminal clearInterval set_stability TerminalSession.commandStartTime
          TerminalSession.set_outputReady];
          rewrite Hc, (bool_decide_eq_true_2 _ Hlate);
          (split; [reflexivity|]); cbn; rewrite Hp; cbn; eexists; reflexivity.
      * cbn [terminal set_stability]. rewrite Hc, (bool_decide_eq_true_2 _ Hlate).
        split; [reflexivity|]. cbn. rewrite Hp. eexists; reflexivity.
  - destruct (executeCommand_event_cleared p timeout (Tick now) w Hi) as [Hi' Hs'].
    split; [exact Hi'|]. exists v. congruence.
Qed.

Lemma executeCommand_deadline_run p evs : forall w now,
  polling_or_resolved start w -> no_exit evs = true ->
  Tick now ∈ evs -> (timeout < now - start)%Z ->
  exists v, settled (run_events (executeCommand_event p timeout) evs w) = Resolved v.
Proof.
  induction evs as [|ev evs IH]; intros w now Hw Hne Hin Hlate;
    [now apply elem_of_nil in Hin|].
  cbn [no_exit forallb] in Hne. apply andb_true_iff in Hne as [Hev Hne].
  apply negb_true_iff in Hev.
  change (run_events ?f (ev :: evs) w) with (run_events f evs (f ev w)).
  apply elem_of_cons in Hin as [Heq|Hin].
  - subst ev. destruct (polling_or_resolved_deadline p now w Hw Hlate) as (Hc & v & Hv).
    destruct (executeCommand_run_cleared p timeout evs _ Hc) as [_ Hkeep].
    exists v. now rewrite Hkeep.
  - apply (IH _ now); try assumption. now apply polling_or_resolved_step.
Qed.

End WaitFacts.

(** X6.  Under the pattern policy and without a process exit, the promise
    of [executeCommand] is pending until the first interval tick at which
    the pattern matches the new output or the deadline has passed, and from
    that tick on it is resolved with the output seen then (or the no-output
    notice). *)
Theorem pattern_policy_resolves_at_first_hit
    (pattern : string -> bool) (timeout : Z) (t : TerminalSession)
    (command : string) (start : Z) (evs : list event) :
  no_exit evs = true ->
  let step := executeCommand_event (PatternPolicy pattern) timeout in
  let w0 := arm (TerminalSession.issue command start t) start in
  settled (run_events step evs w0)
    = match List.find (pattern_or_deadline pattern timeout start)
              (tick_samples step evs w0) with
      | Some obs => Resolved (or_else obs.2 "Command executed (no output)")
      | None => Pending
      end.
Proof.
  intros Hne step w0. now apply pattern_policy_run.
Qed.

Lemma pattern_policy_resolves_at_first_hit_witness :
  let pattern := fun s => bool_decide (s = "ready") in
  let step := executeCommand_event (PatternPolicy pattern) 1000 in
  let w0 := arm (TerminalSession.issue "serve" 0 (new_session 0 "t" "/" 0%Z)) 0 in
  let evs := [Data 20 "rea"; Tick 100; Data 150 "dy"; Tick 200; Data 250 "!"; Tick 300] in
  settled (run_events step evs w0)
    = match List.find (pattern_or_deadline pattern 1000 0) (tick_samples step evs w0) with
      | Some obs => Resolved (or_else obs.2 "Command executed (no output)")
      | None => Pending
      end.
Proof.
  apply (pattern_policy_resolves_at_first_hit (fun s => bool_decide (s = "ready")) 1000
           (new_session 0 "t" "/" 0%Z) "serve" 0
           [Data 20 "rea"; Tick 100; Data 150 "dy"; Tick 200; Data 250 "!"; Tick 300]).
  reflexivity.
Defined.

(** X7.  [waitForOutput] settles at the first interval tick at which the
    pattern matches the new output or its deadline has passed: resolved
    with that output on a match, rejected with the timeout error
    otherwise.  A process exit changes nothing in this, so the wait is
    settled by any tick past the deadline. *)
Theorem waitForOutput_settles_at_first_hit
    (pattern : string -> bool) (timeout : Z) (t : TerminalSession) (start : Z)
    (evs : list event) :
  let step := waitForOutput_event pattern timeout in
  let w0 := arm t start in
  settled (run_events step evs w0)
    = match List.find (pattern_or_deadline pattern timeout start)
              (tick_samples step evs w0) with
      | Some obs => if pattern obs.2 then Resolved obs.2 else Rejected PatternTimeout
      | None => Pending
      end
  /\ forall now, Tick now ∈ evs -> (timeout < now - start)%Z ->
       settled (run_events step evs w0) <> Pending.
Proof.
  intros step w0.
  assert (Hrun := waitForOutput_run pattern timeout start evs w0 eq_refl eq_refl eq_refl).
  fold step in Hrun. split; [exact Hrun|].
  intros now Hin Hlate. rewrite Hrun.
  destruct (List.find _ _) as [obs|] eqn:Hfind; [now destruct (pattern obs.2)|].
  destruct (tick_samples_elem step evs w0 now Hin) as [s Hs].
  apply list_elem_of_In in Hs.
  pose proof (find_none _ _ Hfind _ Hs) as Hno.
  unfold pattern_or_deadline in Hno. cbn in Hno.
  rewrite (bool_decide_eq_true_2 _ Hlate), orb_true_r in Hno. discriminate.
Qed.



(** ** Theorems: command history *)

Lemma last_cons_default {A} (x d : A) (l : list A) :
  List.last (x :: l) d = List.last l x.
Proof.
  revert x d. induction l as [|y l IH]; intros x d; [reflexivity|].
  change (List.last (x :: y :: l) d) with (List.last (y :: l) d).
  now rewrite (IH y d), (IH y x).
Qed.

Lemma command_history_run evs : forall w terminalId s,
  commands_and_output evs = true ->
  map_get terminalId (terminals w) = Some s ->
  exists w' s',
    run_world evs w = Some w'
    /\ map_get terminalId (terminals w') = Some s'
    /\ TerminalSession.commandHistory s'
       = TerminalSession.commandHistory s ++ issued_to terminalId evs
    /\ TerminalSession.lastCommand s'
       = List.last (issued_to terminalId evs) (TerminalSession.lastCommand s)
    /\ TerminalSession.id s' = TerminalSession.id s
    /\ TerminalSession.name s' = TerminalSession.name s
    /\ TerminalSession.cwd s' = TerminalSession.cwd s.
Proof.
  induction evs as [|ev evs IH]; intros w terminalId s Hio Hget.
  - exists w, s. cbn. rewrite app_nil_r. auto 10.
  - cbn [commands_and_output forallb] in Hio. apply andb_true_iff in Hio as [Hev Hio].
    destruct ev as [fuel req|id command|id chunk|id]; try discriminate;
      cbn [run_world step_world issued_to].
    + unfold execute_command_sync.
      destruct (decide (id = terminalId)) as [->|Hne].
      * rewrite Hget, bool_decide_eq_true_2 by reflexivity.
        destruct (IH (pty_write terminalId (command +:+ CR)
                        (set_terminals
                           (map_set terminalId
                              (TerminalSession.issue command (clock w) s) (terminals w)) w))
                     terminalId (TerminalSession.issue command (clock w) s) Hio)
          as (w' & s' & Hrun & Hget' & Hh & Hl & Hid & Hn & Hc).
        { cbn. apply map_get_set_eq. }
        exists w', s'. split; [exact Hrun|]. split; [exact Hget'|].
        split; [rewrite Hh; cbn; now rewrite <- app_assoc|].
        split; [rewrite Hl, last_cons_default; reflexivity|]. auto.
      * rewrite bool_decide_eq_false_2 by exact Hne.
        destruct (map_get id (terminals w)) as [t|] eqn:Hid; [|now apply IH].
        apply IH; [exact Hio|]. cbn. now rewrite map_get_set_ne.
    + unfold on_data.
      destruct (map_get id (terminals w)) as [t|] eqn:Hid; [|now apply IH].
      destruct (decide (id = terminalId)) as [->|Hne].
      * assert (t = s) by congruence. subst t.
        destruct (IH (set_terminals (map_set terminalId (onData chunk s) (terminals w)) w)
                     terminalId (onData chunk s) Hio)
          as (w' & s' & Hrun & Hget' & Hh & Hl & Hid' & Hn & Hc).
        { cbn. apply map_get_set_eq. }
        exists w', s'. auto 10.
      * apply IH; [exact Hio|]. cbn. now rewrite map_get_set_ne.
Qed.

(** X9.  Every command issued to a registered terminal is appended to its
    command history, duplicates included, and becomes its last command;
    output arriving in between changes neither, and commands issued to
    other terminals are not recorded in it. *)
Theorem command_history_records_every_command
    (evs : list world_event) (w : world) (terminalId : nat) (s : TerminalSession) :
  commands_and_output evs = true ->
  map_get terminalId (terminals w) = Some s ->
  exists w' s',
    run_world evs w = Some w'
    /\ map_get terminalId (terminals w') = Some s'
    /\ TerminalSession.commandHistory s'
       = TerminalSession.commandHistory s ++ issued_to terminalId evs
    /\ TerminalSession.lastCommand s'
       = List.last (issued_to terminalId evs) (TerminalSession.lastCommand s).
Proof.
  intros Hio Hget.
  destruct (command_history_run evs w terminalId s Hio Hget)
    as (w' & s' & Hrun & Hget' & Hh & Hl & _).
  exists w', s'. auto.
Qed.

Lemma command_history_records_every_command_witness :
  let w := (create_terminal "a" None (create_terminal "b" None init_world).1).1 in
  let evs := [IssueCommand 1 "ls"; PtyData 1 "file"; IssueCommand 0 "pwd"; IssueCommand 1 "ls"] in
  exists w' s',
    run_world evs w = Some w'
    /\ map_get 1 (terminals w') = Some s'
    /\ TerminalSession.commandHistory s'
       = TerminalSession.commandHistory (new_session 1 "a" "." 0%Z) ++ issued_to 1 evs
    /\ TerminalSession.lastCommand s'
       = List.last (issued_to 1 evs) (TerminalSession.lastCommand (new_session 1 "a" "." 0%Z)).
Proof.
  apply (command_history_records_every_command
           [IssueCommand 1 "ls"; PtyData 1 "file"; IssueCommand 0 "pwd"; IssueCommand 1 "ls"]
           (create_terminal "a" None (create_terminal "b" None init_world).1).1 1
           (new_session 1 "a" "." 0%Z)).
  - reflexivity.
  - reflexivity.
Defined.

(** ** Theorems: handlers on the registry and the project store *)

Lemma world_inv_keys w k s :
  world_inv w -> map_get k (terminals w) = Some s -> k < uuid w /\ TerminalSession.id s = k.
Proof.
  intros Hinv Hget. split; [|exact (world_inv_registered w k s Hinv Hget)].
  destruct Hinv as (_ & Hreg & Hfresh).
  destruct (decide (k < uuid w)) as [|Hge]; [assumption|].
  assert (Hs : is_Some (map_get k (terminals w))) by (rewrite Hget; eauto).
  apply Hreg in Hs. rewrite Hfresh in Hs by lia. discriminate.
Qed.

Lemma world_inv_fresh w k : world_inv w -> uuid w <= k -> map_get k (terminals w) = None.
Proof.
  intros Hinv Hk. destruct (map_get k (terminals w)) as [s|] eqn:Hget; [|reflexivity].
  apply (world_inv_keys w k s Hinv) in Hget as [Hlt _]. lia.
Qed.

Lemma reachable_world_inv evs w : run_world evs init_world = Some w -> world_inv w.
Proof. exact (stable_run world_inv world_inv_stable evs _ _ world_inv_init). Qed.

(** X10.  In every world the server can reach, the keys of the registry
    are distinct, each is the identifier stored in its session, and each
    was drawn before: no identifier at or above the counter is
    registered. *)
Theorem reachable_registry_well_formed (evs : list world_event) (w : world) :
  run_world evs init_world = Some w ->
  registry_wf (terminals w)
  /\ (forall k s, map_get k (terminals w) = Some s ->
        k < uuid w /\ TerminalSession.id s = k)
  /\ (forall k, uuid w <= k -> map_get k (terminals w) = None).
Proof.
  intros Hrun. pose proof (reachable_world_inv evs w Hrun) as Hinv.
  split; [exact (proj1 Hinv)|]. split.
  - intros k s. now apply world_inv_keys.
  - intros k. now apply world_inv_fresh.
Qed.

Lemma reachable_registry_well_formed_witness :
  let w := default init_world
             (run_world [Call 0 (ReqCreateTerminal "a" None); Call 0 (ReqCloseTerminal 0);
                         Call 0 (ReqCreateTerminal "b" None)] init_world) in
  registry_wf (terminals w)
  /\ (forall k s, map_get k (terminals w) = Some s ->
        k < uuid w /\ TerminalSession.id s = k)
  /\ (forall k, uuid w <= k -> map_get k (terminals w) = None).
Proof.
  apply (reachable_registry_well_formed
           [Call 0 (ReqCreateTerminal "a" None); Call 0 (ReqCloseTerminal 0);
            Call 0 (ReqCreateTerminal "b" None)]).
  reflexivity.
Defined.

(** X11.  In a reachable world, [create_terminal] with a non-empty name
    adds one entry at the end of the registry, under an identifier that no
    session has, with an empty buffer and history; every other lookup is
    as before.  With an empty name it is rejected and changes nothing. *)
Theorem create_terminal_appends_fresh
    (evs : list world_event) (w : world) (name : string) (cwd : option string) :
  run_world evs init_world = Some w ->
  name <> "" ->
  let w' := (create_terminal name cwd w).1 in
  let session := new_session (uuid w) name (default "." cwd) (clock w) in
  terminals w' = terminals w ++ [(uuid w, session)]
  /\ map_get (uuid w) (terminals w) = None
  /\ (forall k, k <> uuid w -> map_get k (terminals w') = map_get k (terminals w))
  /\ procs w' !! uuid w = Some Running
  /\ (exists text, (create_terminal name cwd w).2 = inr text)
  /\ create_terminal "" cwd w = (w, inl ValidationError).
Proof.
  intros Hrun Hname w' session.
  pose proof (reachable_world_inv evs w Hrun) as Hinv.
  assert (Hnone : map_get (uuid w) (terminals w) = None) by now apply world_inv_fresh.
  unfold w', create_terminal. rewrite bool_decide_eq_false_2 by exact Hname.
  cbn [createTerminal fst snd terminals procs].
  split; [now apply map_set_fresh|]. split; [exact Hnone|].
  split; [intros k Hk; now apply map_get_set_ne|].
  split; [apply lookup_insert_eq|]. split; [eexists; reflexivity|reflexivity].
Qed.

Lemma create_terminal_appends_fresh_witness :
  let w := default init_world
             (run_world [Call 0 (ReqCreateTerminal "a" None)] init_world) in
  let w' := (create_terminal "b" (Some "/tmp") w).1 in
  let session := new_session (uuid w) "b" (default "." (Some "/tmp")) (clock w) in
  terminals w' = terminals w ++ [(uuid w, session)]
  /\ map_get (uuid w) (terminals w) = None
  /\ (forall k, k <> uuid w -> map_get k (terminals w') = map_get k (terminals w))
  /\ procs w' !! uuid w = Some Running
  /\ (exists text, (create_terminal "b" (Some "/tmp") w).2 = inr text)
  /\ create_terminal "" (Some "/tmp") w = (w, inl ValidationError).
Proof.
  apply (create_terminal_appends_fresh [Call 0 (ReqCreateTerminal "a" None)]).
  - reflexivity.
  - discriminate.
Defined.

(** X12.  [close_terminal] touches one terminal only: every other
    identifier resolves as before and its process keeps its state; a known
    terminal gets exactly one kill; closing it again, or closing an unknown
    identifier, is an error that changes nothing. *)
Theorem close_terminal_frame (w : world) (terminalId : nat) :
  let w' := (close_terminal terminalId w).1 in
  (forall k, k <> terminalId ->
     map_get k (terminals w') = map_get k (terminals w) /\ procs w' !! k = procs w !! k)
  /\ (is_Some (map_get terminalId (terminals w)) ->
        effects w' = effects w ++ [PtyKill terminalId])
  /\ (map_get terminalId (terminals w) = None ->
        close_terminal terminalId w = (w, inl (TerminalNotFound terminalId)))
  /\ close_terminal terminalId w' = (w', inl (TerminalNotFound terminalId)).
Proof.
  intros w'. unfold w', close_terminal.
  destruct (map_get terminalId (terminals w)) as [s|] eqn:Hget; cbn [fst].
  - split; [|split; [|split]].
    + intros k Hk. split.
      * cbn. now apply map_get_delete_ne.
      * change (procs (kill_and_delete terminalId w)) with (procs (pty_kill terminalId w)).
        rewrite pty_kill_procs. now rewrite bool_decide_eq_false_2 by tauto.
    + reflexivity.
    + discriminate.
    + change (terminals (kill_and_delete terminalId w))
        with (map_delete terminalId (terminals w)).
      now rewrite map_get_delete_eq.
  - split; [auto|]. split; [intros [? ?]; discriminate|]. split; [reflexivity|].
    now rewrite Hget.
Qed.

(** X13.  Loading a configuration whose id, name and root path are not
    empty stores it under its id, replacing an earlier one with that id and
    leaving every other project and the terminals alone; a configuration
    with one of the three empty is rejected and nothing is stored. *)
Theorem load_project_round_trip (config : ProjectConfig) (w : world) :
  let w' := (load_project config w).1 in
  if valid_config config
  then map_get (ProjectConfig.id config) (projects w') = Some config
       /\ (forall projectId, projectId <> ProjectConfig.id config ->
             map_get projectId (projects w') = map_get projectId (projects w))
       /\ terminals w' = terminals w /\ effects w' = effects w
       /\ exists text, (load_project config w).2 = inr text
  else load_project config w = (w, inl InvalidConfiguration).
Proof.
  intros w'. unfold w', load_project, valid_config.
  destruct (bool_decide (ProjectConfig.id config = ""));
    destruct (bool_decide (ProjectConfig.name config = ""));
    destruct (bool_decide (ProjectConfig.rootPath config = "")); cbn; try reflexivity.
  split; [apply map_get_set_eq|]. split; [|split; [reflexivity|split; [reflexivity|]]].
  - intros projectId Hne. apply map_get_set_ne. congruence.
  - eexists; reflexivity.
Qed.

(** ** Theorems: setup steps *)

Lemma run_setup_steps_all project terminal stepIndex steps : forall i results w,
  exists results',
    run_setup_steps project terminal stepIndex i (map Some steps) results w
      = (mk_world (terminals w) (projects w) (procs w)
           (effects w ++ map (fun step => PtyWrite (TerminalSession.id terminal)
                                            (setup_line project step)) steps)
           (uuid w) (clock w + 2000 * Z.of_nat (length steps))%Z,
         inr results')
    /\ length results' = length results + 2 * length steps.
Proof.
  induction steps as [|step steps IH]; intros i results w.
  - exists results. cbn. rewrite app_nil_r, Z.add_0_r. split; [now destruct w|lia].
  - cbn [map run_setup_steps].
    match goal with
    | |- context [run_setup_steps _ _ _ (S i) _ ?rs ?w2] =>
        destruct (IH (S i) rs w2) as (results' & Hrun & Hlen)
    end.
    exists results'. split.
    + rewrite Hrun. cbn [sleep pty_write terminals projects procs effects uuid clock length].
      unfold setup_line, step_cwd. rewrite <- app_assoc. cbn [app map].
      do 2 f_equal. lia.
    + rewrite Hlen, !length_app. cbn. lia.
Qed.



(** ** Theorems: unknown projects and terminals *)

(** X15.  A tool call that names a project that is not loaded, or a
    terminal that is not registered, fails with the matching not-found
    error before doing anything: the world is unchanged, whatever else
    the call carries. *)
Theorem unknown_target_changes_nothing (fuel : nat) (req : request) (w : world) :
  (forall projectId,
     request_project req = Some projectId ->
     map_get projectId (projects w) = None ->
     handleTool fuel req w = Some (w, inl (ProjectNotFound projectId)))
  /\ (forall terminalId,
        request_terminal req = Some terminalId ->
        map_get terminalId (terminals w) = None ->
        handleTool fuel req w = Some (w, inl (TerminalNotFound terminalId))).
Proof.
  split; intros target Hreq Hnone;
    destruct req; cbn [request_project request_terminal] in Hreq;
    try discriminate Hreq; injection Hreq as ->; cbn [handleTool].
  - unfold setup_project. now rewrite Hnone.
  - unfold start_project. now rewrite Hnone.
  - unfold stop_project. now rewrite Hnone.
  - unfold execute_project_command. now rewrite Hnone.
  - unfold execute_service_command. now rewrite Hnone.
  - unfold close_terminal. now rewrite Hnone.
  - unfold send_input. now rewrite Hnone.
Qed.

(** ** Theorems: more on start_project *)

Section StartMore.

Variable project : ProjectConfig.

Lemma start_dependencies_resolved recur deps : forall st,
  start_dependencies project recur deps st
    = start_dependencies project recur (resolved project deps) st.
Proof.
  unfold resolved. induction deps as [|dep deps IH]; intros st; [reflexivity|].
  rewrite filter_cons. cbn [start_dependencies].
  destruct (find_service project dep) as [d|] eqn:Hfind.
  - destruct (decide (is_Some (Some d))) as [_|Hno]; [|exfalso; apply Hno; eauto].
    cbn [start_dependencies]. rewrite Hfind.
    case_bool_decide; [apply IH|]. destruct (recur d st); [apply IH|reflexivity].
  - destruct (decide (is_Some None)) as [[? Hs]|_]; [discriminate Hs|]. apply IH.
Qed.

(** Whatever [launch] keeps, a returning [startService] keeps. *)
Lemma startService_preserves (Q : start_state -> Prop) :
  (forall s c st, Q st -> Q (launch project s c st)) ->
  forall fuel s st st', Q st -> startService project fuel s st = Some st' -> Q st'.
Proof.
  intros Hlaunch. induction fuel as [|fuel IH]; intros s st st' HQ Hrun; [discriminate|].
  cbn [startService] in Hrun. case_bool_decide as Hst; [now injection Hrun as <-|].
  destruct (match ProjectService.dependsOn s with
            | Some deps => start_dependencies project (startService project fuel) deps st
            | None => Some st
            end) as [st1|] eqn:Hdeps; [|discriminate].
  assert (HQ1 : Q st1).
  { destruct (ProjectService.dependsOn s) as [deps|]; [|now injection Hdeps as <-].
    clear Hrun Hst. revert st HQ Hdeps. induction deps as [|dep deps IHd]; intros st HQ Hdeps;
      cbn [start_dependencies] in Hdeps; [now injection Hdeps as <-|].
    destruct (find_service project dep) as [d|]; [|eauto].
    case_bool_decide; [eauto|].
    destruct (startService project fuel d st) as [st2|] eqn:Hd; [|discriminate]. eauto. }
  destruct (ProjectService.startCommand s) as [c|]; [|now injection Hrun as <-].
  case_bool_decide; injection Hrun as <-; auto.
Qed.

Lemma start_services_preserves (Q : start_state -> Prop) :
  (forall s c st, Q st -> Q (launch project s c st)) ->
  forall fuel targets st st', Q st -> start_services project fuel targets st = Some st' -> Q st'.
Proof.
  intros Hlaunch fuel targets. induction targets as [|s targets IH]; intros st st' HQ Hrun;
    cbn [start_services] in Hrun; [now injection Hrun as <-|].
  destruct (startService project fuel s st) as [st1|] eqn:Hs; [|discriminate].
  eapply IH; [|exact Hrun]. eapply startService_preserves; eauto.
Qed.

Lemma launch_world s c st :
  terminals (st_world (launch project s c st))
    = map_set (uuid (st_world st))
        (new_session (uuid (st_world st)) (session_name project s)
           (path_join (ProjectConfig.rootPath project) (ProjectService.path s))
           (clock (st_world st)))
        (terminals (st_world st))
  /\ uuid (st_world (launch project s c st)) = S (uuid (st_world st))
  /\ clock (st_world (launch project s c st)) = (clock (st_world st) + 1000)%Z.
Proof.
  unfold launch. cbn [createTerminal TerminalSession.id new_session].
  match goal with
  | |- context [foldl ?f ?w1 ?env] =>
      destruct (foldl_pty_write_effects (uuid (st_world st))
                  (fun kv => "export " +:+ kv.1 +:+ "=" +:+ DQ +:+ kv.2 +:+ DQ +:+ CR)
                  env w1) as (_ & Hu & Ht & _ & Hc & _)
  end.
  cbn [st_world sleep pty_write terminals uuid clock] in *.
  rewrite Ht, Hu, Hc. auto.
Qed.

Lemma prefix_append (p s : string) : String.prefix p (p +:+ s) = true.
Proof.
  induction p as [|a p IH]; [now destruct s|].
  change (String a p +:+ s) with (String a (p +:+ s)). cbn [String.prefix].
  destruct (Ascii.ascii_dec a a) as [_|Hne]; [exact IH|contradiction].
Qed.

Lemma session_name_owned s id cwd now :
  owned_by project (new_session id (session_name project s) cwd now) = true.
Proof.
  unfold owned_by, session_name. cbn [TerminalSession.name new_session].
  rewrite <- append_assoc. apply prefix_append.
Qed.

Lemma launch_registers w s c st :
  registers_created project w st -> registers_created project w (launch project s c st).
Proof.
  intros (Hreg & Hfresh & Hown).
  destruct (launch_world s c st) as (Ht & Hu & _).
  split; [|split].
  - rewrite Ht, map_set_fresh by (apply Hfresh; lia).
    rewrite Hreg, launch_created, map_app, <- app_assoc. reflexivity.
  - intros k Hk. rewrite Ht, map_get_set_ne by lia. apply Hfresh. lia.
  - rewrite launch_created. apply Forall_app. split; [exact Hown|].
    apply Forall_singleton. apply session_name_owned.
Qed.

Lemma launch_spaced s c st : spaced st -> spaced (launch project s c st).
Proof.
  intros [Hold Hgap]. destruct (launch_world s c st) as (_ & _ & Hc).
  rewrite Forall_forall in Hold. split.
  - rewrite Hc, launch_created. apply Forall_app. split.
    + apply Forall_forall. intros t Ht. specialize (Hold t Ht). lia.
    + apply Forall_singleton. cbn. lia.
  - rewrite launch_created. intros i j ti tj Hi Hj Hlt.
    apply lookup_app_Some in Hj as [Hj|[Hlen Hj]].
    + rewrite lookup_app_l in Hi by (apply lookup_lt_Some in Hj; lia). eauto.
    + apply list_lookup_singleton_Some in Hj as [Hj <-].
      rewrite lookup_app_l in Hi by lia.
      cbn. apply Hold. apply list_elem_of_lookup. eauto.
Qed.

Lemma launch_projects s c st :
  projects (st_world (launch project s c st)) = projects (st_world st).
Proof.
  unfold launch. cbn [createTerminal TerminalSession.id new_session].
  match goal with
  | |- context [foldl ?f ?w1 ?env] =>
      destruct (foldl_pty_write_effects (uuid (st_world st))
                  (fun kv => "export " +:+ kv.1 +:+ "=" +:+ DQ +:+ kv.2 +:+ DQ +:+ CR)
                  env w1) as (_ & _ & _ & _ & _ & Hp)
  end.
  cbn [st_world sleep pty_write projects] in *. now rewrite Hp.
Qed.

(** *** Cycles *)

Variable names : list string.
Hypothesis Hnames : unique_names project.
Hypothesis Hcyclic : cyclic project names = true.

Lemma cyclic_successor n :
  n ∈ names ->
  exists s dep, find_service project n = Some s /\ dep ∈ dependencies s /\ dep ∈ names.
Proof.
  intros Hn. unfold cyclic in Hcyclic. rewrite forallb_forall in Hcyclic.
  apply list_elem_of_In, Hcyclic in Hn.
  destruct (find_service project n) as [s|]; [|discriminate].
  apply existsb_exists in Hn as (dep & Hdep & Hin).
  exists s, dep. split; [reflexivity|]. split; [now apply list_elem_of_In|].
  now apply bool_decide_eq_true_1 in Hin.
Qed.

Lemma cycle_blocks_dependencies fuel :
  (forall s st, s ∈ ProjectConfig.services project -> unstarted names st ->
     match startService project fuel s st with
     | None => True
     | Some st' => unstarted names st' /\ ProjectService.name s ∉ names
     end) ->
  forall deps st, unstarted names st ->
    match start_dependencies project (startService project fuel) deps st with
    | None => True
    | Some st' => unstarted names st' /\ forall dep, dep ∈ deps -> dep ∉ names
    end.
Proof.
  intros Hrec. induction deps as [|dep deps IH]; intros st Hclean.
  - cbn. split; [exact Hclean|]. intros dep Hin. now apply elem_of_nil in Hin.
  - cbn [start_dependencies].
    destruct (find_service project dep) as [d|] eqn:Hfind.
    + destruct (find_service_Some project dep d Hfind) as [Hd Hname].
      case_bool_decide as Hstarted.
      * specialize (IH st Hclean).
        destruct (start_dependencies _ _ deps st) as [st'|]; [|exact I].
        destruct IH as [Hclean' Hdeps]. split; [exact Hclean'|].
        intros dep' Hin. apply elem_of_cons in Hin as [->|Hin]; [|auto].
        intros Hmem. exact (Hclean dep Hmem Hstarted).
      * specialize (Hrec d st Hd Hclean).
        destruct (startService project fuel d st) as [st1|]; [|exact I].
        destruct Hrec as [Hclean1 Hd1]. specialize (IH st1 Hclean1).
        destruct (start_dependencies _ _ deps st1) as [st'|]; [|exact I].
        destruct IH as [Hclean' Hdeps]. split; [exact Hclean'|].
        intros dep' Hin. apply elem_of_cons in Hin as [->|Hin]; [|auto].
        now rewrite <- Hname.
    + specialize (IH st Hclean).
      destruct (start_dependencies _ _ deps st) as [st'|]; [|exact I].
      destruct IH as [Hclean' Hdeps]. split; [exact Hclean'|].
      intros dep' Hin. apply elem_of_cons in Hin as [->|Hin]; [|auto].
      intros Hmem. destruct (cyclic_successor dep Hmem) as (s & _ & Hs & _). congruence.
Qed.

Lemma cycle_blocks fuel : forall s st,
  s ∈ ProjectConfig.services project -> unstarted names st ->
  match startService project fuel s st with
  | None => True
  | Some st' => unstarted names st' /\ ProjectService.name s ∉ names
  end.
Proof.
  induction fuel as [|fuel IH]; intros s st Hs Hclean; [exact I|].
  cbn [startService]. case_bool_decide as Hstarted.
  { split; [exact Hclean|]. intros Hmem. exact (Hclean _ Hmem Hstarted). }
  assert (Hdeps : match
                    match ProjectService.dependsOn s with
                    | Some deps => start_dependencies project (startService project fuel) deps st
                    | None => Some st
                    end
                  with
                  | None => True
                  | Some st1 => unstarted names st1
                                /\ forall dep, dep ∈ dependencies s -> dep ∉ names
                  end).
  { unfold dependencies. destruct (ProjectService.dependsOn s) as [deps|].
    - apply (cycle_blocks_dependencies fuel IH deps st Hclean).
    - split; [exact Hclean|]. intros dep Hin. now apply elem_of_nil in Hin. }
  destruct (match ProjectService.dependsOn s with
            | Some deps => start_dependencies project (startService project fuel) deps st
            | None => Some st
            end) as [st1|]; [|exact I].
  destruct Hdeps as [Hclean1 Hnone].
  assert (Hout : ProjectService.name s ∉ names).
  { intros Hmem. destruct (cyclic_successor _ Hmem) as (s0 & dep & Hfind & Hdep & Hin).
    destruct (find_service_Some project _ s0 Hfind) as [Hs0 Hname].
    assert (s0 = s) by now apply (unique_by_name project Hnames). subst s0.
    exact (Hnone dep Hdep Hin). }
  destruct (ProjectService.startCommand s) as [c|]; [|auto].
  case_bool_decide; [auto|]. split; [|exact Hout].
  intros n Hn. rewrite launch_started. intros Hin.
  apply elem_of_union in Hin as [Hin|Hin]; [|exact (Hclean1 n Hn Hin)].
  apply elem_of_singleton in Hin. now subst n.
Qed.

Lemma cycle_blocks_services fuel targets : forall st,
  (forall t, t ∈ targets -> t ∈ ProjectConfig.services project) ->
  unstarted names st ->
  match start_services project fuel targets st with
  | None => True
  | Some st' => unstarted names st' /\ forall t, t ∈ targets -> ProjectService.name t ∉ names
  end.
Proof.
  induction targets as [|s targets IH]; intros st Hknown Hclean.
  - cbn. split; [exact Hclean|]. intros t Hin. now apply elem_of_nil in Hin.
  - cbn [start_services].
    pose proof (cycle_blocks fuel s st (Hknown s ltac:(apply elem_of_cons; now left)) Hclean)
      as Hs.
    destruct (startService project fuel s st) as [st1|]; [|exact I].
    destruct Hs as [Hclean1 Hout].
    specialize (IH st1 (fun t Ht => Hknown t ltac:(apply elem_of_cons; now right)) Hclean1).
    destruct (start_services project fuel targets st1) as [st'|]; [|exact I].
    destruct IH as [Hclean' Hrest]. split; [exact Hclean'|].
    intros t Hin. apply elem_of_cons in Hin as [->|Hin]; auto.
Qed.

End StartMore.

(** X16.  Dependency names that resolve to no service of the project are
    skipped without error: [startService] gives the same result as for the
    service with those names removed from its [dependsOn]. *)
Theorem unresolved_dependencies_are_skipped
    (project : ProjectConfig) (fuel : nat) (s : ProjectService) (st : start_state)
    (deps : list string) :
  ProjectService.dependsOn s = Some deps ->
  startService project fuel s st
    = startService project fuel (with_dependsOn (Some (resolved project deps)) s) st.
Proof.
  intros Hdeps. destruct fuel as [|fuel]; [reflexivity|].
  cbn [startService with_dependsOn ProjectService.name ProjectService.dependsOn
       ProjectService.startCommand].
  rewrite Hdeps, <- start_dependencies_resolved. reflexivity.
Qed.

Lemma unresolved_dependencies_are_skipped_witness :
  startService shop 3 (svc "worker" (Some "run") (Some ["ghost"; "db"; "phantom"]))
    (mk_start init_world ∅ [] [])
  = startService shop 3
      (with_dependsOn (Some (resolved shop ["ghost"; "db"; "phantom"]))
         (svc "worker" (Some "run") (Some ["ghost"; "db"; "phantom"])))
      (mk_start init_world ∅ [] []).
Proof.
  apply (unresolved_dependencies_are_skipped shop 3
           (svc "worker" (Some "run") (Some ["ghost"; "db"; "phantom"]))
           (mk_start init_world ∅ [] []) ["ghost"; "db"; "phantom"]).
  reflexivity.
Defined.




(** ** Theorems: starting, then stopping *)

Lemma close_all_projects toClose : forall w, projects (close_all toClose w) = projects w.
Proof.
  induction toClose as [|t toClose IH]; intros w; [reflexivity|].
  change (close_all (t :: toClose) w) with (close_all toClose (close_one w t)).
  now rewrite IH.
Qed.

(** The registry [stop_project] leaves. *)
Lemma stop_project_registry w project projectId :
  registry_wf (terminals w) ->
  map_get projectId (projects w) = Some project ->
  (stop_project projectId w).1 = close_all (terminalsToClose project w) w
  /\ terminals (stop_project projectId w).1
     = filter (fun e => owned_by project e.2 = false) (terminals w).
Proof.
  intros Hwf Hproj. unfold stop_project. rewrite Hproj. cbn [fst].
  split; [reflexivity|]. rewrite close_all_terminals. apply filter_ext_in.
  intros [k t] Hin. cbn. rewrite (toClose_ids project w k t Hwf Hin).
  destruct (owned_by project t); split; congruence.
Qed.

Lemma owned_unresolvable_after_stop w project projectId k t :
  registry_wf (terminals w) ->
  map_get projectId (projects w) = Some project ->
  map_get k (terminals w) = Some t ->
  map_get k (terminals (stop_project projectId w).1)
    = if owned_by project t then None else Some t.
Proof.
  intros Hwf Hproj Hget.
  destruct (stop_project_registry w project projectId Hwf Hproj) as [_ ->].
  destruct Hwf as [Hnd _]. apply map_get_Some_elem in Hget as Hin.
  destruct (owned_by project t) eqn:Hown.
  - apply map_get_None. intros Hmem.
    apply list_elem_of_fmap in Hmem as ([k' t'] & Hk & He). cbn in Hk. subst k'.
    apply list_elem_of_filter in He as [Hno He]. cbn in Hno.
    pose proof (map_get_elem_NoDup _ _ _ Hnd He) as H2. congruence.
  - apply map_get_elem_NoDup.
    + clear -Hnd. induction (terminals w) as [|e r IH]; [constructor|].
      cbn in Hnd. apply NoDup_cons in Hnd as [Hne Hnd]. rewrite filter_cons.
      destruct (decide _); [|auto]. cbn. apply NoDup_cons. split; [|auto].
      intros Hmem. apply Hne. apply list_elem_of_fmap in Hmem as (e' & -> & He').
      apply list_elem_of_filter in He' as [_ He']. apply list_elem_of_fmap. now exists e'.
    + apply list_elem_of_filter. auto.
Qed.

Lemma start_found_registers project fuel serviceNames w st :
  world_inv w ->
  start_found project fuel serviceNames w = Some st ->
  registers_created project w st
  /\ world_inv (st_world st)
  /\ projects (st_world st) = projects w.
Proof.
  intros Hinv Hrun. unfold start_found in Hrun. split; [|split].
  - apply (start_services_preserves project (registers_created project w)
             (launch_registers project w) fuel _ _ st) in Hrun; [exact Hrun|].
    split; [cbn; now rewrite app_nil_r|]. split; [|constructor].
    intros k Hk. now apply world_inv_fresh.
  - exact (stable_start_services world_inv world_inv_stable project fuel _
             (mk_start w ∅ [] []) st Hinv Hrun).
  - apply (start_services_preserves project (fun st => projects (st_world st) = projects w))
      in Hrun; [exact Hrun| |reflexivity].
    intros s c st0 H0. now rewrite launch_projects.
Qed.

(** X18.  In a reachable world, the sessions a returning [start_project]
    reports are exactly the entries it has added to the registry, in the
    order of their creation and under their own identifiers; every one is
    named after the project, and the entries that were there before are
    untouched. *)
Theorem start_project_registers_what_it_creates
    (evs : list world_event) (w : world) (project : ProjectConfig) (fuel : nat)
    (serviceNames : option (list string)) (st : start_state) :
  run_world evs init_world = Some w ->
  start_found project fuel serviceNames w = Some st ->
  terminals (st_world st)
    = terminals w ++ map (fun t => (TerminalSession.id t, t)) (createdTerminals st)
  /\ (forall t, t ∈ createdTerminals st ->
        owned_by project t = true
        /\ map_get (TerminalSession.id t) (terminals (st_world st)) = Some t
        /\ map_get (TerminalSession.id t) (terminals w) = None)
  /\ length (results st) = length (createdTerminals st).
Proof.
  intros Hreach Hrun. pose proof (reachable_world_inv evs w Hreach) as Hinv.
  destruct (start_found_registers project fuel serviceNames w st Hinv Hrun)
    as ((Hreg & Hfresh & Hown) & Hinv' & _).
  split; [exact Hreg|]. split.
  - intros t Ht. rewrite Forall_forall in Hown. split; [now apply Hown|].
    assert (Hin : (TerminalSession.id t, t) ∈ terminals (st_world st)).
    { rewrite Hreg. apply elem_of_app. right. apply list_elem_of_fmap. now exists t. }
    assert (Hget : map_get (TerminalSession.id t) (terminals (st_world st)) = Some t).
    { apply map_get_elem_NoDup; [|exact Hin]. exact (proj1 (proj1 Hinv')). }
    split; [exact Hget|].
    destruct (map_get (TerminalSession.id t) (terminals w)) as [t0|] eqn:Hold; [|reflexivity].
    exfalso. apply map_get_Some_elem in Hold.
    destruct Hinv' as ([Hnd _] & _). rewrite Hreg, map_app in Hnd.
    apply NoDup_app in Hnd as (_ & Hdisj & _).
    apply (Hdisj (TerminalSession.id t)).
    + apply list_elem_of_fmap. now exists (TerminalSession.id t, t0).
    + apply list_elem_of_fmap. exists (TerminalSession.id t, t). split; [reflexivity|].
      apply list_elem_of_fmap. now exists t.
  - unfold start_found in Hrun.
    apply (start_services_preserves project
             (fun st => length (results st) = length (createdTerminals st))) in Hrun;
      [exact Hrun| |reflexivity].
    intros s c st0 H0. rewrite launch_created. unfold launch.
    cbn [createTerminal results]. rewrite !length_app, H0. reflexivity.
Qed.

Lemma start_project_registers_what_it_creates_witness :
  let w := default init_world
             (run_world [Call 0 (ReqCreateTerminal "mine" None);
                         Call 0 (ReqLoadProject shop)] init_world) in
  let st := default (mk_start w ∅ [] []) (start_found shop 3 (Some ["api"]) w) in
  terminals (st_world st)
    = terminals w ++ map (fun t => (TerminalSession.id t, t)) (createdTerminals st)
  /\ (forall t, t ∈ createdTerminals st ->
        owned_by shop t = true
        /\ map_get (TerminalSession.id t) (terminals (st_world st)) = Some t
        /\ map_get (TerminalSession.id t) (terminals w) = None)
  /\ length (results st) = length (createdTerminals st).
Proof.
  apply (start_project_registers_what_it_creates
           [Call 0 (ReqCreateTerminal "mine" None); Call 0 (ReqLoadProject shop)]
           (default init_world
              (run_world [Call 0 (ReqCreateTerminal "mine" None);
                          Call 0 (ReqLoadProject shop)] init_world))
           shop 3 (Some ["api"])).
  - reflexivity.
  - reflexivity.
Defined.

(** X19.  In a reachable world, [stop_project] after a returning
    [start_project] of the same project closes every session that start
    created: none of their identifiers resolves afterwards. *)
Theorem stop_project_closes_started_sessions
    (evs : list world_event) (w : world) (project : ProjectConfig) (projectId : string)
    (fuel : nat) (serviceNames : option (list string)) (st : start_state) :
  run_world evs init_world = Some w ->
  map_get projectId (projects w) = Some project ->
  start_found project fuel serviceNames w = Some st ->
  forall t, t ∈ createdTerminals st ->
    map_get (TerminalSession.id t) (terminals (st_world st)) = Some t
    /\ map_get (TerminalSession.id t) (terminals (stop_project projectId (st_world st)).1)
       = None.
Proof.
  intros Hreach Hproj Hrun t Ht.
  pose proof (reachable_world_inv evs w Hreach) as Hinv.
  destruct (start_found_registers project fuel serviceNames w st Hinv Hrun)
    as ((Hreg & Hfresh & Hown) & Hinv' & Hprojects).
  assert (Hget : map_get (TerminalSession.id t) (terminals (st_world st)) = Some t).
  { apply map_get_elem_NoDup; [exact (proj1 (proj1 Hinv'))|].
    rewrite Hreg. apply elem_of_app. right. apply list_elem_of_fmap. now exists t. }
  split; [exact Hget|].
  rewrite (owned_unresolvable_after_stop (st_world st) project projectId _ t
             (proj1 Hinv') ltac:(now rewrite Hprojects) Hget).
  rewrite Forall_forall in Hown. now rewrite (Hown t Ht).
Qed.

Lemma stop_project_closes_started_sessions_witness :
  let w := default init_world (run_world [Call 0 (ReqLoadProject shop)] init_world) in
  let st := default (mk_start w ∅ [] []) (start_found shop 3 None w) in
  length (createdTerminals st) = 3
  /\ forall t, t ∈ createdTerminals st ->
       map_get (TerminalSession.id t) (terminals (st_world st)) = Some t
       /\ map_get (TerminalSession.id t) (terminals (stop_project "shop" (st_world st)).1)
          = None.
Proof.
  split; [reflexivity|].
  apply (stop_project_closes_started_sessions [Call 0 (ReqLoadProject shop)]
           (default init_world (run_world [Call 0 (ReqLoadProject shop)] init_world))
           shop "shop" 3 None).
  - reflexivity.
  - reflexivity.
  - reflexivity.
Defined.

(** X20.  One [start_project] call takes a second per session it starts:
    its sessions are created at least 1000 ms apart, in creation order,
    and the call ends 1000 ms times their number after it began. *)
Theorem start_project_spaces_sessions
    (project : ProjectConfig) (fuel : nat) (serviceNames : option (list string))
    (w : world) (st : start_state) :
  start_found project fuel serviceNames w = Some st ->
  (forall i j ti tj,
     createdTerminals st !! i = Some ti -> createdTerminals st !! j = Some tj -> i < j ->
     (TerminalSession.createdAt ti + 1000 <= TerminalSession.createdAt tj)%Z)
  /\ (forall t, t ∈ createdTerminals st -> (clock w <= TerminalSession.createdAt t)%Z)
  /\ clock (st_world st) = (clock w + 1000 * Z.of_nat (length (createdTerminals st)))%Z.
Proof.
  intros Hrun. unfold start_found in Hrun. split; [|split].
  - apply (start_services_preserves project spaced (launch_spaced project)) in Hrun.
    + exact (proj2 Hrun).
    + split; [constructor|]. intros i j ti tj Hi. discriminate Hi.
  - apply (start_services_preserves project
             (fun st => (clock w <= clock (st_world st))%Z
                        /\ forall t, t ∈ createdTerminals st ->
                             (clock w <= TerminalSession.createdAt t)%Z)) in Hrun.
    + exact (proj2 Hrun).
    + intros s c st0 [Hc Hall]. destruct (launch_world project s c st0) as (_ & _ & Hclock).
      split; [lia|]. rewrite launch_created. intros t Ht.
      apply elem_of_app in Ht as [Ht|Ht]; [auto|].
      apply list_elem_of_singleton in Ht. subst t. exact Hc.
    + split; [cbn; lia|]. intros t Ht. now apply elem_of_nil in Ht.
  - apply (start_services_preserves project
             (fun st => clock (st_world st)
                        = (clock w + 1000 * Z.of_nat (length (createdTerminals st)))%Z))
      in Hrun; [exact Hrun| |cbn; lia].
    intros s c st0 H0. destruct (launch_world project s c st0) as (_ & _ & Hclock).
    rewrite Hclock, H0, launch_created, length_app. cbn [length]. lia.
Qed.

Lemma start_project_spaces_sessions_witness :
  let st := default (mk_start init_world ∅ [] []) (start_found shop 3 None init_world) in
  (forall i j ti tj,
     createdTerminals st !! i = Some ti -> createdTerminals st !! j = Some tj -> i < j ->
     (TerminalSession.createdAt ti + 1000 <= TerminalSession.createdAt tj)%Z)
  /\ (forall t, t ∈ createdTerminals st -> (clock init_world <= TerminalSession.createdAt t)%Z)
  /\ clock (st_world st)
     = (clock init_world + 1000 * Z.of_nat (length (createdTerminals st)))%Z.
Proof.
  apply (start_project_spaces_sessions shop 3 None init_world). reflexivity.
Defined.

(** X21.  Stopping a project twice closes nothing the second time: after
    [stop_project] no registered session has the project's prefix, and a
    second [stop_project] leaves the world as it is. *)
Theorem stop_project_idempotent (w : world) (project : ProjectConfig) (projectId : string) :
  registry_wf (terminals w) ->
  map_get projectId (projects w) = Some project ->
  let w' := (stop_project projectId w).1 in
  terminalsToClose project w' = []
  /\ (stop_project projectId w').1 = w'.
Proof.
  intros Hwf Hproj w'.
  destruct (stop_project_registry w project projectId Hwf Hproj) as [Hw' Hterm].
  fold w' in Hw', Hterm.
  assert (Hnone : terminalsToClose project w' = []).
  { unfold terminalsToClose. rewrite filter_none; [reflexivity|].
    intros e He Hown. rewrite Hterm in He.
    apply list_elem_of_filter in He as [Hno _]. congruence. }
  split; [exact Hnone|].
  assert (Hproj' : map_get projectId (projects w') = Some project)
    by (rewrite Hw', close_all_projects; exact Hproj).
  unfold stop_project. rewrite Hproj', Hnone. reflexivity.
Qed.

Lemma stop_project_idempotent_witness :
  let w := default init_world
             (run_world [Call 0 (ReqLoadProject shop); Call 0 (ReqCreateTerminal "mine" None);
                         Call 5 (ReqStartProject "shop" None)] init_world) in
  let w' := (stop_project "shop" w).1 in
  terminalsToClose shop w' = [] /\ (stop_project "shop" w').1 = w'.
Proof.
  apply (stop_project_idempotent
           (default init_world
              (run_world [Call 0 (ReqLoadProject shop); Call 0 (ReqCreateTerminal "mine" None);
                          Call 5 (ReqStartProject "shop" None)] init_world))
           shop "shop").
  - apply (bool_decide_unpack _). vm_compute. exact I.
  - vm_compute. reflexivity.
Defined.

(** ** Theorems: command sessions and stop_project *)



(** The API session opened by [execute_service_command] survives
    [stop_project]; the lint session opened by [execute_project_command]
    does not. *)
Example service_session_survives_stop :
  let w := (load_project shop init_world).1 in
  let w1 := (execute_service_command "shop" "api" test
               (execute_project_command "shop" "lint" w).1).1 in
  map (fun e => TerminalSession.name e.2) (terminals w1) = ["shop-lint"]
  /\ map (fun e => TerminalSession.name e.2)
       (terminals (execute_service_command "shop" "api" start
                     (execute_project_command "shop" "lint" w).1).1)
     = ["shop-lint"; "api-start"]
  /\ map (fun e => TerminalSession.name e.2)
       (terminals (stop_project "shop"
                     (execute_service_command "shop" "api" start
                        (execute_project_command "shop" "lint" w).1).1).1)
     = ["api-start"].
Proof. vm_compute. auto. Qed.

(** ** Theorems: saved project configurations *)

Lemma ends_with_append (suffix s : string) : ends_with suffix (s +:+ suffix) = true.
Proof.
  induction s as [|c s IH].
  - change ("" +:+ suffix) with suffix.
    destruct suffix; cbn [ends_with]; now rewrite bool_decide_eq_true_2.
  - change (String c s +:+ suffix) with (String c (s +:+ suffix)).
    cbn [ends_with]. rewrite IH. apply orb_true_r.
Qed.

Lemma prefix_String (a b : Ascii.ascii) (s1 s2 : string) :
  String.prefix (String a s1) (String b s2)
  = if Ascii.ascii_dec a b then String.prefix s1 s2 else false.
Proof. reflexivity. Qed.

Lemma append_String (c : Ascii.ascii) (s t : string) :
  String c s +:+ t = String c (s +:+ t).
Proof. reflexivity. Qed.

Lemma append_empty_l (t : string) : "" +:+ t = t.
Proof. reflexivity. Qed.

(** [.json] starts with the only [.] it has, so it cannot begin inside a
    name and end in the [.json] that was appended. *)
Lemma prefix_json_cases (x : string) :
  String.prefix ".json" x = false ->
  x <> "" ->
  String.prefix ".json" (x +:+ ".json") = false.
Proof.
  intros Hx Hne.
  destruct x as [|c1 [|c2 [|c3 [|c4 [|c5 x]]]]]; [contradiction|..];
    rewrite ?append_String, ?append_empty_l;
    rewrite ?prefix_String in Hx |- *;
    repeat match goal with
           | |- context [Ascii.ascii_dec ?a ?b] =>
               destruct (Ascii.ascii_dec a b); try discriminate; try reflexivity
           end.
  all: try (repeat match goal with
           | H : context [Ascii.ascii_dec ?a ?b] |- _ =>
               destruct (Ascii.ascii_dec a b); try discriminate; try congruence
           end).
  destruct x; discriminate.
Qed.

Lemma replace_first_config_file (projectId : string) :
  contains ".json" projectId = false ->
  replace_first ".json" "" (config_file projectId) = projectId.
Proof.
  unfold config_file. induction projectId as [|c s IH]; intros Hno; [reflexivity|].
  cbn [contains] in Hno. apply orb_false_iff in Hno as [Hpre Hno].
  change (String c s +:+ ".json") with (String c (s +:+ ".json")).
  cbn [replace_first].
  change (String c (s +:+ ".json")) with (String c s +:+ ".json").
  rewrite prefix_json_cases by (try exact Hpre; discriminate).
  now rewrite IH.
Qed.

(** X23.  A project saved under an id that does not contain [.json] is
    found again at start-up: [listSavedProjects] returns the ids of the
    configuration files, in order, ignoring files without the [.json]
    ending, and the file then read for each id is the one that was
    written.  [replace] removes the first [.json], not the ending, so an
    id that contains [.json] comes back as another id. *)
Theorem saved_project_ids_round_trip (others ids : list string) :
  Forall (fun f => ends_with ".json" f = false) others ->
  Forall (fun projectId => contains ".json" projectId = false) ids ->
  listSavedProjects (Some (others ++ map config_file ids)) = ids
  /\ map config_file (listSavedProjects (Some (others ++ map config_file ids)))
     = map config_file ids
  /\ listSavedProjects None = []
  /\ listSavedProjects (Some [config_file "a.json.b"]) = ["a.b.json"].
Proof.
  intros Hothers Hids.
  assert (Hlist : listSavedProjects (Some (others ++ map config_file ids)) = ids).
  { unfold listSavedProjects. rewrite filter_app, map_app.
    rewrite (filter_none _ others).
    - cbn [map app]. induction Hids as [|projectId ids Hid Hids IH]; [reflexivity|].
      cbn [map]. rewrite filter_cons_True by apply ends_with_append.
      cbn [map]. rewrite replace_first_config_file by exact Hid. now rewrite IH.
    - rewrite Forall_forall in Hothers. intros f Hf Hends.
      specialize (Hothers f Hf). congruence. }
  split; [exact Hlist|]. split; [now rewrite Hlist|]. split; reflexivity.
Qed.

Lemma saved_project_ids_round_trip_witness :
  listSavedProjects (Some (["notes.txt"; ".DS_Store"] ++ map config_file ["shop"; "other"]))
    = ["shop"; "other"]
  /\ map config_file
       (listSavedProjects (Some (["notes.txt"; ".DS_Store"] ++ map config_file ["shop"; "other"])))
     = map config_file ["shop"; "other"]
  /\ listSavedProjects None = []
  /\ listSavedProjects (Some [config_file "a.json.b"]) = ["a.b.json"].
Proof.
  apply (saved_project_ids_round_trip ["notes.txt"; ".DS_Store"] ["shop"; "other"]).
  - apply (bool_decide_unpack _). vm_compute. exact I.
  - apply (bool_decide_unpack _). vm_compute. exact I.
Defined.
